(** * Solara: the market-regime model and the signal combiner

    A shallow embedding of two classes of the repository,

    - [HMMAnalyzer] (the hidden Markov model: feature extraction,
      Baum-Welch training, Viterbi decoding, the heuristic fallback), and
    - [MLTechnicalAnalyzer] (volume features, the multi-timeframe
      aggregator, the five component scores and their combination),

    followed by the properties their specification states about them,
    and by further properties of the same code: the rest of the two
    classes (the model report, the price features, the prediction
    models, the regime analysis) and the cleaning of candles in
    [PriceDataCollector].

    Conventions.  A JavaScript number is a [num]: an exact rational or
    one of +Infinity, -Infinity and NaN.  Arithmetic on the finite
    values is exact (doubles without rounding, overflow or a negative
    zero); the special values follow IEEE-754 as JavaScript does.  A
    double rounds each operation and overflows past 1.8e308; where a
    property concerns a numeric result it is stated, as far as the
    property allows, in a form that rounding does not disturb: as the
    expression the code evaluates, as a sign or a bound that rounding
    preserves, within the tolerance 1e-6 of the specification where a
    sum is meant to be 1, and on operands whose magnitude keeps every
    intermediate result finite.  The analysis of the training loop is
    carried out in the exact arithmetic.  A method that
    reads or writes [this] is a function of the analyzer record; a
    method that can throw returns a [result].  What the program takes
    from its environment ([Math.log], the randomised k-means of
    ml-kmeans, the clock) is a field of [Runtime]. *)

From Stdlib Require Import String QArith Qabs Qround Lqa List Lia Bool ZArith.
From Stdlib Require Import Sorted Permutation.
From Stdlib Require Qcanon.
Import ListNotations.

Set Implicit Arguments.

Arguments Qred : simpl never.
Arguments Qplus : simpl never.
Arguments Qminus : simpl never.
Arguments Qmult : simpl never.
Arguments Qdiv : simpl never.
Arguments Qopp : simpl never.
Arguments Qcompare : simpl never.

(* ================================================================== *)
(** * JavaScript numbers *)
(* ================================================================== *)

Module JSNum.

Inductive num : Type :=
| Fin (q : Q)
| PInf
| NInf
| NaN.

(** A decimal literal of the source, in lowest terms. *)
Definition lit (q : Q) : num := Fin (Qred q).

Definition of_nat (n : nat) : num := Fin (inject_Z (Z.of_nat n)).

Definition nzero : num := Fin 0.
Definition nunit : num := Fin 1.

(** The sign of a number that is not NaN; zero counts as positive where
    IEEE needs the sign of a zero (the model has one zero). *)
Definition nsign (x : num) : comparison :=
  match x with
  | Fin q => q ?= 0
  | PInf => Gt
  | NInf => Lt
  | NaN => Eq
  end.

Definition inf_of (s : comparison) : num :=
  match s with
  | Lt => NInf
  | _ => PInf
  end.

Definition sign_mul (a b : comparison) : comparison :=
  match a, b with
  | Eq, _ | _, Eq => Eq
  | Lt, Lt | Gt, Gt => Gt
  | _, _ => Lt
  end.

(** [x + y] *)
Definition nadd (x y : num) : num :=
  match x, y with
  | NaN, _ | _, NaN => NaN
  | PInf, NInf | NInf, PInf => NaN
  | PInf, _ | _, PInf => PInf
  | NInf, _ | _, NInf => NInf
  | Fin a, Fin b => Fin (Qred (a + b))
  end.

(** [-x] *)
Definition nopp (x : num) : num :=
  match x with
  | Fin a => Fin (Qred (- a))
  | PInf => NInf
  | NInf => PInf
  | NaN => NaN
  end.

(** [x - y] *)
Definition nsub (x y : num) : num :=
  match x, y with
  | NaN, _ | _, NaN => NaN
  | PInf, PInf | NInf, NInf => NaN
  | PInf, _ | _, NInf => PInf
  | NInf, _ | _, PInf => NInf
  | Fin a, Fin b => Fin (Qred (a - b))
  end.

(** [x * y]: zero times an infinity is NaN. *)
Definition nmul (x y : num) : num :=
  match x, y with
  | NaN, _ | _, NaN => NaN
  | Fin a, Fin b => Fin (Qred (a * b))
  | _, _ =>
      match sign_mul (nsign x) (nsign y) with
      | Eq => NaN
      | s => inf_of s
      end
  end.

(** [x / y]: a finite number over zero is an infinity of its sign, zero
    over zero is NaN, a finite number over an infinity is zero. *)
Definition ndiv (x y : num) : num :=
  match x, y with
  | NaN, _ | _, NaN => NaN
  | Fin a, Fin b =>
      match b ?= 0 with
      | Eq => match a ?= 0 with
              | Eq => NaN
              | Lt => NInf
              | Gt => PInf
              end
      | _ => Fin (Qred (a / b))
      end
  | Fin _, _ => nzero
  | _, Fin b =>
      match b ?= 0 with
      | Lt => nopp x
      | _ => x
      end
  | _, _ => NaN
  end.

(** Ordering: [None] when either side is NaN. *)
Definition ncompare (x y : num) : option comparison :=
  match x, y with
  | NaN, _ | _, NaN => None
  | Fin a, Fin b => Some (a ?= b)
  | PInf, PInf | NInf, NInf => Some Eq
  | PInf, _ | _, NInf => Some Gt
  | NInf, _ | _, PInf => Some Lt
  end.

(** [x < y], [x <= y], [x > y], [x >= y], [x === y], [x !== y] *)
Definition nltb (x y : num) : bool :=
  match ncompare x y with Some Lt => true | _ => false end.
Definition nleb (x y : num) : bool :=
  match ncompare x y with Some Lt | Some Eq => true | _ => false end.
Definition ngtb (x y : num) : bool := nltb y x.
Definition ngeb (x y : num) : bool := nleb y x.
Definition neqb (x y : num) : bool :=
  match ncompare x y with Some Eq => true | _ => false end.
Definition nneb (x y : num) : bool := negb (neqb x y).

(** [Math.abs] *)
Definition nabs (x : num) : num :=
  match x with
  | Fin a => Fin (Qred (Qabs a))
  | PInf | NInf => PInf
  | NaN => NaN
  end.

(** [Math.max(x, y)] and [Math.min(x, y)]: NaN when an argument is. *)
Definition nmax (x y : num) : num :=
  match ncompare x y with
  | None => NaN
  | Some Lt => y
  | Some _ => x
  end.
Definition nmin (x y : num) : num :=
  match ncompare x y with
  | None => NaN
  | Some Gt => y
  | Some _ => x
  end.

(** [Math.max(...xs)] and [Math.min(...xs)] *)
Definition max_list (xs : list num) : num := fold_left nmax xs NInf.

(** [Math.pow(x, n)] for the literal exponents 3 and 4 of the source. *)
Fixpoint npow (x : num) (n : nat) : num :=
  match n with
  | O => nunit
  | S O => x
  | S m => nmul x (npow x m)
  end.

(** The square root of a rational, exact on the squares of rationals
    and otherwise rounded down to a multiple of [2^-64 / den]: roots
    are the one place where a rational model has to round. *)
Definition Qsqrt (q : Q) : Q :=
  let r := Qred q in
  let s := (2 ^ 64)%positive in
  Qred (Z.sqrt (Qnum r * Zpos (Qden r) * Zpos s * Zpos s) # (Qden r * s)).

(** [Math.sqrt] *)
Definition nsqrt (x : num) : num :=
  match x with
  | Fin a => match a ?= 0 with
             | Lt => NaN
             | _ => Fin (Qsqrt a)
             end
  | PInf => PInf
  | NInf | NaN => NaN
  end.

(** [Math.round]: the nearest integer, halves upwards. *)
Definition nround (x : num) : num :=
  match x with
  | Fin a => Fin (inject_Z (Qfloor (a + (1 # 2))))
  | _ => x
  end.

(** [x || d] on numbers: [0] and [NaN] are falsy. *)
Definition or_default (x d : num) : num :=
  match x with
  | NaN => d
  | Fin a => match a ?= 0 with Eq => d | _ => x end
  | _ => x
  end.

Definition is_nan (x : num) : bool :=
  match x with NaN => true | _ => false end.

Definition is_finite (x : num) : bool :=
  match x with Fin _ => true | _ => false end.

(** [let s = 0; for (...) s += f(x)] *)
Definition nsum_map {A : Type} (f : A -> num) (xs : list A) : num :=
  fold_left (fun s x => nadd s (f x)) xs nzero.

Definition nsum (xs : list num) : num := nsum_map (fun x => x) xs.

(** [xs[i]] on an array of numbers; a hole or an index out of range is
    [undefined], which every arithmetic use turns into NaN. *)
Definition nget (xs : list num) (i : nat) : num := nth i xs NaN.

(** The last element, [xs[xs.length - 1]]. *)
Definition nlast (xs : list num) : num := List.last xs NaN.

End JSNum.

Export JSNum.

Declare Scope num_scope.
Delimit Scope num_scope with num.
Bind Scope num_scope with num.
Infix "+" := nadd : num_scope.
Infix "-" := nsub : num_scope.
Infix "*" := nmul : num_scope.
Infix "/" := ndiv : num_scope.
Infix "<?" := nltb : num_scope.
Infix "<=?" := nleb : num_scope.
Infix ">?" := ngtb : num_scope.
Infix ">=?" := ngeb : num_scope.

Local Open Scope num_scope.

(* ================================================================== *)
(** * Exceptions, arrays and matrices *)
(* ================================================================== *)

(** What the modelled code can throw. *)
Inductive error : Type :=
| InsufficientData (need got : nat)
    (* new Error(`Insufficient data for HMM training. Need ${need}, got ${got}`) *)
| EmptySample
    (* simple-statistics: "mean requires at least one data point",
       "variance requires at least one data point" *)
| KMeansArgument
    (* ml-kmeans: "K should be a positive integer smaller than the number of points" *)
| ClusteringError
    (* what ml-kmeans throws from inside the clustering, as it does on
       points that hold NaN *)
| TypeError.
    (* a property read of null or undefined, a matrix of negative size *)

Inductive result (A : Type) : Type :=
| Ok (a : A)
| Throw (e : error).

Arguments Ok {A} a.
Arguments Throw {A} e.

Definition rbind {A B : Type} (c : result A) (k : A -> result B) : result B :=
  match c with
  | Ok a => k a
  | Throw e => Throw e
  end.

Declare Scope result_scope.
Delimit Scope result_scope with result.
Notation "x <- c ;; k" := (rbind c (fun x => k))
  (at level 61, c at next level, right associativity) : result_scope.

(** [xs.map(f)] for an [f] that may throw. *)
Fixpoint map_result {A B : Type} (f : A -> result B) (xs : list A) : result (list B) :=
  match xs with
  | [] => Ok []
  | x :: rest =>
      (y <- f x ;; ys <- map_result f rest ;; Ok (y :: ys))%result
  end.

(** [xs.slice(from, to)] for [0 <= from]. *)
Definition slice {A : Type} (from to : nat) (xs : list A) : list A :=
  firstn (to - from) (skipn from xs).

(** [xs.slice(-n)]: the last [n] elements. *)
Definition slice_last {A : Type} (n : nat) (xs : list A) : list A :=
  skipn (length xs - n) xs.

(** [xs[i] = v] on an array: an index past the end extends the array,
    the holes reading as [undefined]. *)
Definition aset (xs : list num) (i : nat) (v : num) : list num :=
  firstn i xs ++ repeat NaN (i - length xs) ++ v :: skipn (S i) xs.

(** ml-matrix's [Matrix]: rows of numbers. *)
Definition matrix : Type := list (list num).

(** [m.get(i, j)] is [m.data[i][j]]: on a row of the matrix a column
    out of range reads [undefined]; on a row the matrix does not have
    it throws.  [mget] reads an entry of a row that exists (the
    matrices of the analyzer have a row for each of the four states,
    and the loops over them stay within these), [mrow] is the read of
    the row where the caller supplies the index. *)
Definition mget (m : matrix) (i j : nat) : num := nget (nth i m []) j.

Definition mrow (m : matrix) (i : nat) : result (list num) :=
  match nth_error m i with
  | Some row => Ok row
  | None => Throw TypeError
  end.

(** [m.set(i, j, v)]; a write outside the typed row is dropped. *)
Definition mset (m : matrix) (i j : nat) (v : num) : matrix :=
  match nth_error m i with
  | Some row =>
      if (j <? length row)%nat
      then firstn i m ++ (firstn j row ++ v :: skipn (S j) row) :: skipn (S i) m
      else m
  | None => m
  end.

(** [Matrix.zeros(r, c)] and [Matrix.ones(r, c).mul(x)] *)
Definition mzeros (r c : nat) : matrix := repeat (repeat nzero c) r.
Definition mones_mul (r c : nat) (x : num) : matrix := repeat (repeat (nunit * x) c) r.

(* ================================================================== *)
(** * simple-statistics *)
(* ================================================================== *)

Module ss.

(** [ss.sum]: Kahan-Babuska summation, as the library writes it. *)
Fixpoint sum_loop (s correction : num) (xs : list num) : num :=
  match xs with
  | [] => s + correction
  | x :: rest =>
      let transition := s + x in
      let correction' :=
        if nabs s >=? nabs x
        then correction + ((s - transition) + x)
        else correction + ((x - transition) + s) in
      sum_loop transition correction' rest
  end.

Definition sum (xs : list num) : num :=
  match xs with
  | [] => nzero
  | x :: rest => sum_loop x nzero rest
  end.

(** [ss.mean]: throws on an empty array. *)
Definition mean (xs : list num) : result num :=
  match xs with
  | [] => Throw EmptySample
  | _ => Ok (sum xs / of_nat (length xs))
  end.

(** [sumNthPowerDeviations(x, 2)] *)
Definition sumSquaredDeviations (xs : list num) : result num :=
  (m <- mean xs ;;
   Ok (fold_left (fun s x => let tempValue := x - m in s + tempValue * tempValue) xs nzero))%result.

(** [ss.variance]: the population variance; throws on an empty array. *)
Definition variance (xs : list num) : result num :=
  match xs with
  | [] => Throw EmptySample
  | _ => (d <- sumSquaredDeviations xs ;; Ok (d / of_nat (length xs)))%result
  end.

(** [ss.standardDeviation] *)
Definition standardDeviation (xs : list num) : result num :=
  if (length xs =? 1)%nat then Ok nzero
  else (v <- variance xs ;; Ok (nsqrt v))%result.

End ss.

(* ================================================================== *)
(** * What the program takes from its environment *)
(* ================================================================== *)

(** [Math.log], what a call of ml-kmeans does once it has accepted its
    arguments, and [new Date().toISOString()].  The clustering returns
    the cluster index of every point and the centroids, or it throws
    ([None]), as it does on points that hold NaN.  Its initialisation
    is random: a runtime fixes what the calls of one run return, and no
    property below compares the clusterings of two calls. *)
Class Runtime : Type := {
  Math_log : num -> num;
  kmeans_clustering : list (list num) -> nat -> option (list nat * list (list num));
  Date_now : string
}.

(* ================================================================== *)
(** * HMMAnalyzer (the hidden Markov model of market regimes) *)
(* ================================================================== *)

Module HMM.

Local Open Scope result_scope.

Record Candle : Type := {
  timestamp : Z;
  open : num;
  high : num;
  low : num;
  close : num;
  volume : num
}.

Inductive Regime : Type := BULL | BEAR | SIDEWAYS | HIGH_VOLATILITY.

Definition Regime_eqb (a b : Regime) : bool :=
  match a, b with
  | BULL, BULL | BEAR, BEAR | SIDEWAYS, SIDEWAYS
  | HIGH_VOLATILITY, HIGH_VOLATILITY => true
  | _, _ => false
  end.

(** The constructor's constants: [this.states], [this.numStates] and
    [this.config] are never assigned again. *)
Definition states : list Regime := [BULL; BEAR; SIDEWAYS; HIGH_VOLATILITY].
Definition numStates : nat := length states.

Record Config : Type := {
  windowSize : nat;
  minTrainingData : nat;
  maxIterations : nat;
  convergenceThreshold : num
}.

Definition config : Config := {|
  windowSize := 20;
  minTrainingData := 100;
  maxIterations := 50;
  convergenceThreshold := lit 1e-6
|}.

Record TrainingRecord : Type := {
  tr_timestamp : string;
  dataPoints : nat;
  tr_iterations : nat;
  finalLikelihood : num;
  convergence : bool
}.

(** The fields of [this] that change after construction. *)
Record HMMAnalyzer : Type := {
  transitionMatrix : option matrix;
  emissionMatrix : option matrix;
  initialProbs : option (list num);
  numSymbols : option nat;
  clusterCenters : option (list (list num));
  isTrained : bool;
  trainingHistory : list TrainingRecord
}.

(** [new HMMAnalyzer()] *)
Definition constructor : HMMAnalyzer := {|
  transitionMatrix := None;
  emissionMatrix := None;
  initialProbs := None;
  numSymbols := None;
  clusterCenters := None;
  isTrained := false;
  trainingHistory := []
|}.

(** ** Helper methods *)

(** The simple returns of a price series:
    [(closes[j] - closes[j-1]) / closes[j-1]] for [j = 1 ..]. *)
Fixpoint returns_of (closes : list num) : list num :=
  match closes with
  | a :: (b :: _) as rest => (b - a) / a :: returns_of rest
  | _ => []
  end.

Definition calculateSkewness (data : list num) : result num :=
  mean <- ss.mean data ;;
  std <- ss.standardDeviation data ;;
  let n := of_nat (length data) in
  Ok (nsum_map (fun x => npow ((x - mean) / std) 3) data / n).

Definition calculateKurtosis (data : list num) : result num :=
  mean <- ss.mean data ;;
  std <- ss.standardDeviation data ;;
  let n := of_nat (length data) in
  Ok (nsum_map (fun x => npow ((x - mean) / std) 4) data / n - of_nat 3).

(** On an empty array [period] is [-1] and both reads are [undefined]. *)
Definition calculateMomentum (prices : list num) : num :=
  match prices with
  | [] => NaN
  | _ =>
      let period := Nat.min 10 (length prices - 1) in
      if (length prices <? period + 1)%nat then nzero
      else
        (nlast prices - nget prices (length prices - 1 - period))
        / nget prices (length prices - 1 - period)
  end.

(** The gains and losses of [calculateSimpleRSI], for [i = 1 .. period]. *)
Definition rsi_changes (prices : list num) (period : nat) : list num :=
  map (fun i => nget prices (length prices - i) - nget prices (length prices - i - 1))
      (seq 1 period).

Definition calculateSimpleRSI (prices : list num) : result num :=
  let period := 14%nat in
  if (length prices <? period + 1)%nat then Ok (of_nat 50)
  else
    let changes := rsi_changes prices period in
    let gains := map (fun change => if change >? nzero then change else nzero) changes in
    let losses := map (fun change => if change >? nzero then nzero else nopp change) changes in
    avgGain <- ss.mean gains ;;
    avgLoss <- ss.mean losses ;;
    if neqb avgLoss nzero then Ok (of_nat 100)
    else
      let rs := avgGain / avgLoss in
      Ok (of_nat 100 - of_nat 100 / (nunit + rs)).

(** ** Feature extraction *)

Record FeatureVector : Type := {
  meanReturn : num;
  returnVolatility : num;
  returnSkewness : num;
  returnKurtosis : num;
  priceChange : num;
  priceVolatility : num;
  volumeRatio : num;
  volumeVolatility : num;
  highLowRatio : num;
  averageRange : num;
  momentum : num;
  rsi : num;
  fv_timestamp : option Z
}.

(** The feature vector of one window (the body of the loop of
    [extractHMMFeatures]); [ts] is [priceData[i].timestamp]. *)
Definition windowFeatures (window : list Candle) (ts : option Z) : result FeatureVector :=
  let closes := map close window in
  let volumes := map volume window in
  let highs := map high window in
  let lows := map low window in
  let returns := returns_of closes in
  meanReturn' <- ss.mean returns ;;
  returnVolatility' <- ss.standardDeviation returns ;;
  returnSkewness' <- calculateSkewness returns ;;
  returnKurtosis' <- calculateKurtosis returns ;;
  sdCloses <- ss.standardDeviation closes ;;
  meanCloses <- ss.mean closes ;;
  meanVolumes <- ss.mean volumes ;;
  sdVolumes <- ss.standardDeviation volumes ;;
  meanVolumes' <- ss.mean volumes ;;
  averageRange' <-
    ss.mean (map (fun idx => (nget highs idx - nget lows idx) / nget closes idx)
                 (seq 0 (length highs))) ;;
  rsi' <- calculateSimpleRSI closes ;;
  Ok {|
    meanReturn := meanReturn';
    returnVolatility := returnVolatility';
    returnSkewness := returnSkewness';
    returnKurtosis := returnKurtosis';
    priceChange := (nlast closes - nget closes 0) / nget closes 0;
    priceVolatility := sdCloses / meanCloses;
    volumeRatio := nlast volumes / meanVolumes;
    volumeVolatility := sdVolumes / meanVolumes';
    highLowRatio := nlast highs / nlast lows;
    averageRange := averageRange';
    momentum := calculateMomentum closes;
    rsi := rsi';
    fv_timestamp := ts
  |}.

Definition extractHMMFeatures (priceData : list Candle) : result (list FeatureVector) :=
  map_result
    (fun i =>
       windowFeatures (slice (i - windowSize config) i priceData)
                      (option_map timestamp (nth_error priceData i)))
    (seq (windowSize config) (length priceData - windowSize config)).

(** ** Methods that read and write [this]

    A method is a function from the analyzer before the call to its
    outcome and the analyzer after it; what it wrote before a throw
    stays written. *)

Definition M (A : Type) : Type := HMMAnalyzer -> result A * HMMAnalyzer.

Definition ret {A : Type} (a : A) : M A := fun this => (Ok a, this).
Definition throw {A : Type} (e : error) : M A := fun this => (Throw e, this).
Definition lift {A : Type} (r : result A) : M A := fun this => (r, this).
Definition bind {A B : Type} (c : M A) (k : A -> M B) : M B :=
  fun this =>
    match c this with
    | (Ok a, this') => k a this'
    | (Throw e, this') => (Throw e, this')
    end.
Definition read {A : Type} (f : HMMAnalyzer -> A) : M A := fun this => (Ok (f this), this).
Definition write (f : HMMAnalyzer -> HMMAnalyzer) : M unit := fun this => (Ok tt, f this).

(** [try { c } catch (error) { handler }] *)
Definition try_catch {A : Type} (c : M A) (handler : error -> M A) : M A :=
  fun this =>
    match c this with
    | (Ok a, this') => (Ok a, this')
    | (Throw e, this') => handler e this'
    end.

Declare Scope method_scope.
Delimit Scope method_scope with method.
Notation "x <- c ;; k" := (bind c (fun x => k))
  (at level 61, c at next level, right associativity) : method_scope.
Notation "c ;; k" := (bind c (fun _ => k))
  (at level 61, right associativity) : method_scope.

Definition set_transitionMatrix (m : matrix) (this : HMMAnalyzer) : HMMAnalyzer :=
  {| transitionMatrix := Some m;
     emissionMatrix := emissionMatrix this;
     initialProbs := initialProbs this;
     numSymbols := numSymbols this;
     clusterCenters := clusterCenters this;
     isTrained := isTrained this;
     trainingHistory := trainingHistory this |}.

Definition set_emissionMatrix (m : matrix) (this : HMMAnalyzer) : HMMAnalyzer :=
  {| transitionMatrix := transitionMatrix this;
     emissionMatrix := Some m;
     initialProbs := initialProbs this;
     numSymbols := numSymbols this;
     clusterCenters := clusterCenters this;
     isTrained := isTrained this;
     trainingHistory := trainingHistory this |}.

Definition set_initialProbs (p : list num) (this : HMMAnalyzer) : HMMAnalyzer :=
  {| transitionMatrix := transitionMatrix this;
     emissionMatrix := emissionMatrix this;
     initialProbs := Some p;
     numSymbols := numSymbols this;
     clusterCenters := clusterCenters this;
     isTrained := isTrained this;
     trainingHistory := trainingHistory this |}.

Definition set_numSymbols (n : nat) (this : HMMAnalyzer) : HMMAnalyzer :=
  {| transitionMatrix := transitionMatrix this;
     emissionMatrix := emissionMatrix this;
     initialProbs := initialProbs this;
     numSymbols := Some n;
     clusterCenters := clusterCenters this;
     isTrained := isTrained this;
     trainingHistory := trainingHistory this |}.

Definition set_clusterCenters (c : list (list num)) (this : HMMAnalyzer) : HMMAnalyzer :=
  {| transitionMatrix := transitionMatrix this;
     emissionMatrix := emissionMatrix this;
     initialProbs := initialProbs this;
     numSymbols := numSymbols this;
     clusterCenters := Some c;
     isTrained := isTrained this;
     trainingHistory := trainingHistory this |}.

Definition set_trained (h : TrainingRecord) (this : HMMAnalyzer) : HMMAnalyzer :=
  {| transitionMatrix := transitionMatrix this;
     emissionMatrix := emissionMatrix this;
     initialProbs := initialProbs this;
     numSymbols := numSymbols this;
     clusterCenters := clusterCenters this;
     isTrained := true;
     trainingHistory := trainingHistory this ++ [h] |}.

(** ** Discretisation *)

(** [kmeans(data, K, options)] of ml-kmeans: it refuses a [K] that is
    not positive or exceeds the number of points, and otherwise runs
    the clustering, which returns or throws. *)
Definition kmeans `{Runtime} (data : list (list num)) (K : nat)
  : result (list nat * list (list num)) :=
  if (K =? 0)%nat || (length data <? K)%nat then Throw KMeansArgument
  else
    match kmeans_clustering data K with
    | Some clustering => Ok clustering
    | None => Throw ClusteringError
    end.

Definition discretizeObservations `{Runtime} (features : list FeatureVector) : M (list nat) :=
  (let featureMatrix :=
     map (fun f => [meanReturn f; returnVolatility f; priceChange f; volumeRatio f; momentum f])
         features in
   let numSymbols := 8%nat in
   kmResult <- lift (kmeans featureMatrix numSymbols) ;;
   write (set_clusterCenters (snd kmResult)) ;;
   ret (fst kmResult))%method.

(** ** Initial parameters *)

(** [Math.max(...observations) + 1]; with no observation it is
    [-Infinity], and a matrix of that many columns cannot be built. *)
Definition initializeParameters (observations : list nat) : M unit :=
  (write (set_transitionMatrix
            (mones_mul numStates numStates (nunit / of_nat numStates))) ;;
   match observations with
   | [] => throw TypeError
   | _ =>
       let numSymbols := (fold_left Nat.max observations 0 + 1)%nat in
       write (set_emissionMatrix
                (mones_mul numStates numSymbols (nunit / of_nat numSymbols))) ;;
       write (set_initialProbs (repeat (nunit / of_nat numStates) numStates)) ;;
       write (set_numSymbols numSymbols)
   end)%method.

(** ** Forward-backward *)

(** [this.emissionMatrix.get(j, observations[t])] *)
Definition emission_at (B : matrix) (j : nat) (observations : list nat) (t : nat) : num :=
  match nth_error observations t with
  | Some o => mget B j o
  | None => NaN
  end.

(** Row 0 of alpha. *)
Definition forward_init (pi : list num) (B : matrix) (o : nat) : list num :=
  map (fun i => nget pi i * mget B i o) (seq 0 numStates).

(** Row [t] of alpha from row [t-1]. *)
Definition forward_step (A B : matrix) (prev : list num) (o : nat) : list num :=
  map (fun j =>
         nsum_map (fun i => nget prev i * mget A i j) (seq 0 numStates) * mget B j o)
      (seq 0 numStates).

Fixpoint forward_rows (A B : matrix) (prev : list num) (observations : list nat) : matrix :=
  match observations with
  | [] => []
  | o :: rest =>
      let row := forward_step A B prev o in
      row :: forward_rows A B row rest
  end.

Definition forward (pi : list num) (A B : matrix) (observations : list nat) : matrix :=
  match observations with
  | [] => []
  | o :: rest =>
      let row := forward_init pi B o in
      row :: forward_rows A B row rest
  end.

(** Row [t] of beta from row [t+1]; [o] is [observations[t+1]]. *)
Definition backward_step (A B : matrix) (next : list num) (o : nat) : list num :=
  map (fun i =>
         nsum_map (fun j => mget A i j * mget B j o * nget next j) (seq 0 numStates))
      (seq 0 numStates).

Fixpoint backward (A B : matrix) (observations : list nat) : matrix :=
  match observations with
  | [] => []
  | _ :: rest =>
      match rest with
      | [] => [repeat nunit numStates]
      | o :: _ =>
          let rows := backward A B rest in
          backward_step A B (nth 0 rows []) o :: rows
      end
  end.

Record ForwardBackward : Type := {
  alpha : matrix;
  beta : matrix;
  likelihood : num
}.

(** The three parameter sets; reading one that is still [null] throws. *)
Definition parameters (this : HMMAnalyzer) : result (list num * matrix * matrix) :=
  match initialProbs this, transitionMatrix this, emissionMatrix this with
  | Some pi, Some A, Some B => Ok (pi, A, B)
  | _, _, _ => Throw TypeError
  end.

(** With no observation the first write, into row 0 of a matrix with no
    rows, throws. *)
Definition forwardBackward `{Runtime} (observations : list nat) (this : HMMAnalyzer)
  : result ForwardBackward :=
  (p <- parameters this ;;
   let '(pi, A, B) := p in
   match observations with
   | [] => Throw TypeError
   | _ =>
       let T := length observations in
       let alpha := forward pi A B observations in
       let beta := backward A B observations in
       let likelihood := nsum_map (fun i => mget alpha (T - 1) i) (seq 0 numStates) in
       Ok {| alpha := alpha; beta := beta; likelihood := Math_log likelihood |}
   end)%result.

(** ** Re-estimation (the M-step) *)

(** The state posteriors: [gamma.get(t, i)]. *)
Definition gamma_of (alpha beta : matrix) (T : nat) : matrix :=
  map (fun t =>
         let normalizer :=
           nsum_map (fun i => mget alpha t i * mget beta t i) (seq 0 numStates) in
         map (fun i => (mget alpha t i * mget beta t i) / normalizer) (seq 0 numStates))
      (seq 0 T).

(** [for (i ...) this.initialProbs[i] = gamma.get(0, i)] *)
Definition update_initial (gamma : matrix) (pi : list num) : list num :=
  fold_left (fun pi i => aset pi i (mget gamma 0 i)) (seq 0 numStates) pi.

(** The transition matrix is rewritten in place, entry by entry: the
    numerator of entry [(i, j)] reads the matrix as the entries before
    it have left it. *)
Definition xi (observations : list nat) (alpha beta A B : matrix) (t i j : nat) : num :=
  (mget alpha t i * mget A i j * emission_at B j observations (t + 1) * mget beta (t + 1) j)
  / (mget alpha t i * mget beta t i).

Definition update_transition (observations : list nat) (alpha beta gamma : matrix)
    (A B : matrix) : matrix :=
  let T := length observations in
  fold_left
    (fun A i =>
       let denominator := nsum_map (fun t => mget gamma t i) (seq 0 (T - 1)) in
       fold_left
         (fun A j =>
            let numerator :=
              nsum_map (fun t => xi observations alpha beta A B t i j) (seq 0 (T - 1)) in
            mset A i j (numerator / denominator))
         (seq 0 numStates) A)
    (seq 0 numStates) A.

Definition update_emission (observations : list nat) (gamma : matrix)
    (numSymbols : nat) (B : matrix) : matrix :=
  let T := length observations in
  fold_left
    (fun B i =>
       let denominator := nsum_map (fun t => mget gamma t i) (seq 0 T) in
       fold_left
         (fun B k =>
            let numerator :=
              fold_left
                (fun numerator t =>
                   match nth_error observations t with
                   | Some o => if (o =? k)%nat then numerator + mget gamma t i else numerator
                   | None => numerator
                   end)
                (seq 0 T) nzero in
            mset B i k (numerator / denominator))
         (seq 0 numSymbols) B)
    (seq 0 numStates) B.

(** [updateParameters] is only called on the parameters that
    [forwardBackward] has just read, so none of them is [null]; an
    undefined [this.numSymbols] leaves the emission loop empty. *)
Definition updateParameters (observations : list nat) (alpha beta : matrix) : M unit :=
  fun this =>
    match parameters this with
    | Throw e => (Throw e, this)
    | Ok (pi, A, B) =>
        let T := length observations in
        let gamma := gamma_of alpha beta T in
        let pi' := update_initial gamma pi in
        let A' := update_transition observations alpha beta gamma A B in
        let B' :=
          update_emission observations gamma
            (match numSymbols this with Some n => n | None => 0%nat end) B in
        (Ok tt, set_emissionMatrix B' (set_transitionMatrix A' (set_initialProbs pi' this)))
    end.

(** ** Baum-Welch *)

Record TrainingResult : Type := {
  iterations : nat;
  tr_likelihood : num;
  converged : bool
}.

(** The loop [for (iteration = 0; iteration < maxIterations; iteration++)],
    with [remaining = maxIterations - iteration]. *)
Fixpoint baumWelchLoop `{Runtime} (remaining iteration : nat) (prevLikelihood : num)
    (observations : list nat) : M TrainingResult :=
  match remaining with
  | O =>
      ret {| iterations := iteration;
             tr_likelihood := prevLikelihood;
             converged := false |}
  | S remaining' =>
      (fb <- (fun this => (forwardBackward observations this, this)) ;;
       updateParameters observations (alpha fb) (beta fb) ;;
       if nabs (likelihood fb - prevLikelihood) <? convergenceThreshold config
       then ret {| iterations := iteration + 1;
                   tr_likelihood := likelihood fb;
                   converged := true |}
       else baumWelchLoop remaining' (iteration + 1) (likelihood fb) observations)%method
  end.

Definition baumWelchTraining `{Runtime} (observations : list nat) : M TrainingResult :=
  baumWelchLoop (maxIterations config) 0 NInf observations.

(** ** Training *)

Record TrainModelResult : Type := {
  success : bool;
  tm_iterations : nat;
  tm_likelihood : num;
  tm_converged : bool;
  tm_states : list Regime
}.

(** [trainModel]: its [catch] logs and rethrows. *)
Definition trainModel `{Runtime} (priceData : list Candle) : M TrainModelResult :=
  (if (length priceData <? minTrainingData config)%nat
   then throw (InsufficientData (minTrainingData config) (length priceData))
   else
     features <- lift (extractHMMFeatures priceData) ;;
     observations <- discretizeObservations features ;;
     initializeParameters observations ;;
     trainingResult <- baumWelchTraining observations ;;
     write (set_trained {| tr_timestamp := Date_now;
                           dataPoints := length priceData;
                           tr_iterations := iterations trainingResult;
                           finalLikelihood := tr_likelihood trainingResult;
                           convergence := converged trainingResult |}) ;;
     ret {| success := true;
            tm_iterations := iterations trainingResult;
            tm_likelihood := tr_likelihood trainingResult;
            tm_converged := converged trainingResult;
            tm_states := states |})%method.

(** ** Viterbi decoding *)

(** [let maxValue = -Infinity; let maxIndex = 0;
     for (i ...) { if (value(i) > maxValue) { maxValue = value(i); maxIndex = i } }] *)
Definition argmax (value : nat -> num) : num * nat :=
  fold_left
    (fun best i => if value i >? fst best then (value i, i) else best)
    (seq 0 numStates) (NInf, 0%nat).

Definition viterbi_init `{Runtime} (pi : list num) (B : matrix) (o : nat) : list num :=
  map (fun i => Math_log (nget pi i) + Math_log (mget B i o)) (seq 0 numStates).

(** Row [t] of delta and of psi from row [t-1] of delta. *)
Definition viterbi_step `{Runtime} (A B : matrix) (prev : list num) (o : nat)
  : list num * list nat :=
  let cells :=
    map (fun j =>
           let best := argmax (fun i => nget prev i + Math_log (mget A i j)) in
           (fst best + Math_log (mget B j o), snd best))
        (seq 0 numStates) in
  (map fst cells, map snd cells).

(** Rows [1 ..] of delta and psi. *)
Fixpoint viterbi_rows `{Runtime} (A B : matrix) (prev : list num) (observations : list nat)
  : list (list num * list nat) :=
  match observations with
  | [] => []
  | o :: rest =>
      let row := viterbi_step A B prev o in
      row :: viterbi_rows A B (fst row) rest
  end.

(** The traceback: [stateSequence[t] = psi.get(t + 1, stateSequence[t + 1])],
    over the rows of psi from the last to row 1. *)
Fixpoint traceback (psi_rev : list (list nat)) (state : nat) : list nat :=
  match psi_rev with
  | [] => [state]
  | row :: rest => state :: traceback rest (nth state row 0%nat)
  end.

Definition viterbiDecode `{Runtime} (observations : list nat) (this : HMMAnalyzer)
  : result (list nat) :=
  (p <- parameters this ;;
   let '(pi, A, B) := p in
   match observations with
   | [] => Throw TypeError
   | o :: rest =>
       let delta0 := viterbi_init pi B o in
       let rows := viterbi_rows A B delta0 rest in
       let delta_last := List.last (map fst rows) delta0 in
       let best := argmax (fun i => nget delta_last i) in
       Ok (rev (traceback (rev (map snd rows)) (snd best)))
   end)%result.

(** ** Filtering and prediction *)

Definition calculateStateProbabilities `{Runtime} (observations : list nat)
    (this : HMMAnalyzer) : result matrix :=
  (fb <- forwardBackward observations this ;;
   let T := length observations in
   Ok (map (fun t =>
              let normalizer :=
                nsum_map (fun i => mget (alpha fb) t i) (seq 0 numStates) in
              map (fun i => mget (alpha fb) t i / normalizer) (seq 0 numStates))
           (seq 0 T)))%result.

(** [this.transitionMatrix.get(currentState, i)] for each state [i]:
    the row of [currentState], which has to exist. *)
Definition predictNextState (currentState : nat) (this : HMMAnalyzer) : result (list num) :=
  match transitionMatrix this with
  | Some A =>
      (row <- mrow A currentState ;;
       Ok (map (fun i => nget row i) (seq 0 numStates)))%result
  | None => Throw TypeError
  end.

Record Persistence : Type := {
  consecutivePeriods : nat;
  expectedDuration : num;
  probabilityOfContinuation : num;
  stabilityScore : num
}.

(** The length of the run of [currentState] that ends the sequence. *)
Fixpoint run_length (currentState : nat) (reversed : list nat) : nat :=
  match reversed with
  | s :: rest => if (s =? currentState)%nat then S (run_length currentState rest) else 0
  | [] => 0
  end.

(** With no state in the sequence [currentState] is [undefined], and
    the read of the transition matrix at a row it does not have (that
    one, or a state past its rows) throws. *)
Definition calculateRegimePersistence (stateSequence : list nat) (this : HMMAnalyzer)
  : result Persistence :=
  match transitionMatrix this, stateSequence with
  | Some A, _ :: _ =>
      let currentState := List.last stateSequence 0%nat in
      let consecutive := run_length currentState (rev stateSequence) in
      (row <- mrow A currentState ;;
       let selfTransitionProb := nget row currentState in
       let expectedDuration := nunit / (nunit - selfTransitionProb) in
       Ok {| consecutivePeriods := consecutive;
             expectedDuration := expectedDuration;
             probabilityOfContinuation := selfTransitionProb;
             stabilityScore := of_nat consecutive / expectedDuration |})%result
  | _, _ => Throw TypeError
  end.

(** ** Recommendations *)

Inductive Action : Type :=
  A_HOLD | A_BUY | A_WEAK_BUY | A_SELL | A_WEAK_SELL | A_CAUTION.
Inductive RiskLevel : Type := R_LOW | R_MEDIUM | R_HIGH | R_VERY_HIGH.
Inductive Sizing : Type := S_NORMAL | S_LARGE | S_SMALL | S_MINIMAL.

Record Recommendation : Type := {
  regime : option Regime;
  rec_confidence : num;
  action : Action;
  reasoning : string;
  riskLevel : RiskLevel;
  positionSizing : Sizing
}.

(** [this.states[currentState]] is [undefined] past the four states,
    and then no case of the [switch] applies. *)
Definition generateRegimeBasedRecommendation (currentState : nat) (stateProbs : list num)
  : Recommendation :=
  let regimeName := nth_error states currentState in
  let confidence := nget stateProbs currentState in
  match regimeName with
  | Some BULL =>
      {| regime := regimeName; rec_confidence := confidence;
         action := if confidence >? lit 0.7 then A_BUY else A_WEAK_BUY;
         reasoning := "Bull market regime detected - favorable for long positions";
         riskLevel := R_LOW;
         positionSizing := if confidence >? lit 0.8 then S_LARGE else S_NORMAL |}
  | Some BEAR =>
      {| regime := regimeName; rec_confidence := confidence;
         action := if confidence >? lit 0.7 then A_SELL else A_WEAK_SELL;
         reasoning := "Bear market regime detected - avoid long positions";
         riskLevel := R_HIGH;
         positionSizing := S_SMALL |}
  | Some SIDEWAYS =>
      {| regime := regimeName; rec_confidence := confidence;
         action := A_HOLD;
         reasoning := "Sideways/consolidation regime - wait for breakout";
         riskLevel := R_MEDIUM;
         positionSizing := S_SMALL |}
  | Some HIGH_VOLATILITY =>
      {| regime := regimeName; rec_confidence := confidence;
         action := A_CAUTION;
         reasoning := "High volatility regime - reduce position sizes";
         riskLevel := R_VERY_HIGH;
         positionSizing := S_MINIMAL |}
  | None =>
      {| regime := regimeName; rec_confidence := confidence;
         action := A_HOLD;
         reasoning := EmptyString;
         riskLevel := R_MEDIUM;
         positionSizing := S_NORMAL |}
  end.

(** ** The prediction and the heuristic fallback *)

Inductive Method : Type := HEURISTIC.

(** The object both paths return; the fields only one of them sets are
    optional.  A mapping from regime names to probabilities is the list
    of its entries in insertion order. *)
Record RegimePrediction : Type := {
  currentRegime : option Regime;
  confidence : num;
  stateProbabilities : list (Regime * num);
  nextStateProbabilities : option (list (Regime * num));
  persistence : option Persistence;
  stateSequence : option (list (option Regime));
  features : option (list FeatureVector);
  method : option Method;
  recommendation : Recommendation
}.

(** [this.states.indexOf(regime)] *)
Definition indexOf (regime : Regime) : nat :=
  match regime with
  | BULL => 0
  | BEAR => 1
  | SIDEWAYS => 2
  | HIGH_VOLATILITY => 3
  end.

Definition heuristicClassification (recentData : list Candle) : result RegimePrediction :=
  (let closes := map close recentData in
   let returns := returns_of closes in
   avgReturn <- ss.mean returns ;;
   volatility <- ss.standardDeviation returns ;;
   let priceChange := (nlast closes - nget closes 0) / nget closes 0 in
   let '(regime, confidence) :=
     if (avgReturn >? lit 0.01) && (priceChange >? lit 0.05) then (BULL, lit 0.7)
     else if (avgReturn <? nopp (lit 0.01)) && (priceChange <? nopp (lit 0.05))
          then (BEAR, lit 0.7)
     else if volatility >? lit 0.05 then (HIGH_VOLATILITY, lit 0.8)
     else (SIDEWAYS, lit 0.6) in
   Ok {| currentRegime := Some regime;
         confidence := confidence;
         stateProbabilities := [(regime, confidence)];
         nextStateProbabilities := None;
         persistence := None;
         stateSequence := None;
         features := None;
         method := Some HEURISTIC;
         recommendation :=
           generateRegimeBasedRecommendation
             (indexOf regime)
             (map (fun s => if Regime_eqb s regime then confidence
                            else (nunit - confidence) / of_nat 3)
                  states) |})%result.

(** [this.states.reduce((obj, state, i) => { obj[state] = probs[i]; return obj }, {})] *)
Definition by_state (probs : list num) : list (Regime * num) :=
  map (fun si => (fst si, nget probs (snd si))) (combine states (seq 0 numStates)).

(** The body of the [try] of [predictMarketRegime] once the model is
    trained. *)
Definition predictTrained `{Runtime} (recentData : list Candle) : M RegimePrediction :=
  (features <- lift (extractHMMFeatures recentData) ;;
   observations <- discretizeObservations features ;;
   stateSequence <- (fun this => (viterbiDecode observations this, this)) ;;
   let currentState := List.last stateSequence 0%nat in
   stateProbs <- (fun this => (calculateStateProbabilities observations this, this)) ;;
   nextStateProbs <- (fun this => (predictNextState currentState this, this)) ;;
   persistence <- (fun this => (calculateRegimePersistence stateSequence this, this)) ;;
   let lastProbs := List.last stateProbs [] in
   ret {| currentRegime := nth_error states currentState;
          confidence := max_list lastProbs;
          stateProbabilities := by_state lastProbs;
          nextStateProbabilities := Some (by_state nextStateProbs);
          persistence := Some persistence;
          stateSequence :=
            Some (map (fun s => nth_error states s) (slice_last 10 stateSequence));
          features := Some (slice_last 5 features);
          method := None;
          recommendation := generateRegimeBasedRecommendation currentState lastProbs |}
  )%method.

Definition predictMarketRegime `{Runtime} (recentData : list Candle) : M RegimePrediction :=
  try_catch
    (this_isTrained <- read isTrained ;;
     if negb this_isTrained
     then lift (heuristicClassification recentData)
     else predictTrained recentData)%method
    (fun _ => lift (heuristicClassification recentData)).

End HMM.

(* ================================================================== *)
(** * MLTechnicalAnalyzer (features, aggregation and the combiner) *)
(* ================================================================== *)

Module MLTA.

Import HMM.
Local Open Scope result_scope.

(** ** Helper calculations *)

(** [xs.reduce((a, b) => a + b, 0)] *)
Definition reduce_add (xs : list num) : num := fold_left nadd xs nzero.

Definition calculateMomentum (prices : list num) (period : nat) : num :=
  if (length prices <? period + 1)%nat then nzero
  else
    (nlast prices - nget prices (length prices - 1 - period))
    / nget prices (length prices - 1 - period).

(** The loop of [calculatePVT], from [i = 1]; [prev] is [data[i-1]]. *)
Fixpoint pvt_loop (pvt : num) (prev : Candle) (rest : list Candle) : num :=
  match rest with
  | [] => pvt
  | d :: rest' =>
      let change := (close d - close prev) / close prev in
      pvt_loop (pvt + change * volume d) d rest'
  end.

Definition calculatePVT (data : list Candle) : num :=
  match data with
  | [] => nzero
  | d0 :: rest => pvt_loop nzero d0 rest
  end.

Definition calculateVWAP (data : list Candle) : num :=
  let totals :=
    fold_left
      (fun acc d =>
         let typicalPrice := (high d + low d + close d) / of_nat 3 in
         (fst acc + volume d, snd acc + typicalPrice * volume d))
      data (nzero, nzero) in
  let totalVolume := fst totals in
  let totalVolumePrice := snd totals in
  if totalVolume >? nzero then totalVolumePrice / totalVolume else nzero.

Definition calculateCorrelation (x y : list num) : num :=
  if negb (length x =? length y)%nat || (length x <? 2)%nat then nzero
  else
    let n := of_nat (length x) in
    let sumX := reduce_add x in
    let sumY := reduce_add y in
    let sumXY := fold_left (fun s xy => s + fst xy * snd xy) (combine x y) nzero in
    let sumXX := fold_left (fun s xi => s + xi * xi) x nzero in
    let sumYY := fold_left (fun s yi => s + yi * yi) y nzero in
    let numerator := n * sumXY - sumX * sumY in
    let denominator := nsqrt ((n * sumXX - sumX * sumX) * (n * sumYY - sumY * sumY)) in
    if nneb denominator nzero then numerator / denominator else nzero.

(** ** Volume features *)

Record VolumeFeatures : Type := {
  volumeRatio : num;
  volumeMA : num;
  volumeStd : num;
  priceVolumeCorr : num;
  pvt : num;
  vwap : num;
  currentVolume : num
}.

Definition extractVolumeFeatures (data : list Candle) : result VolumeFeatures :=
  let volumes := map volume data in
  let prices := map close data in
  avgVolume20 <- ss.mean (slice_last 20 volumes) ;;
  let currentVolume' := nlast volumes in
  let pvt' := calculatePVT data in
  let vwap' := calculateVWAP (slice_last 20 data) in
  volumeStd' <- ss.standardDeviation (slice_last 20 volumes) ;;
  Ok {| volumeRatio := currentVolume' / avgVolume20;
        volumeMA := avgVolume20;
        volumeStd := volumeStd';
        priceVolumeCorr :=
          calculateCorrelation (slice_last 20 prices) (slice_last 20 volumes);
        pvt := pvt';
        vwap := vwap';
        currentVolume := currentVolume' |}.

(** The fields of [features.technical] that the trend-strength score
    reads; they come from the traditional analysis. *)
Record TechnicalFeatures : Type := {
  tf_rsi : num;
  macdHistogram : num;
  adx : num
}.

(** [predictTrendStrength]: nothing in its [try] throws. *)
Definition predictTrendStrength (technical : TechnicalFeatures) (volume : VolumeFeatures)
  : num :=
  let rsiStrength := nabs (tf_rsi technical - of_nat 50) / of_nat 50 in
  let macdStrength := nabs (macdHistogram technical) * of_nat 10 in
  let adxStrength := adx technical / of_nat 100 in
  let volumeStrength := nmin (volumeRatio volume) (of_nat 3) / of_nat 3 in
  let trendStrength :=
    rsiStrength * lit 0.3 + macdStrength * lit 0.3
    + adxStrength * lit 0.25 + volumeStrength * lit 0.15 in
  nmin nunit trendStrength.

(** ** The multi-timeframe aggregator *)

Inductive Trend : Type := BULLISH | BEARISH | T_NEUTRAL.






(** One entry of [results]; its [volume] field, the empty object of the
    placeholder [analyzeVolumeProfile], is left out. *)
Record TimeframeResult : Type := {
  trend : Trend;
  tr_momentum : num;
  tr_strength : num
}.

Inductive Alignment : Type := AL_NEUTRAL | STRONG_BULLISH | STRONG_BEARISH | MIXED.

Record MultiTimeframe : Type := {
  individual : list (string * TimeframeResult);
  consensus : Trend;
  strength : num;
  alignment : Alignment
}.






(** ** The component scores *)

(** What the combiner reads of the traditional analysis, which the
    indicator engine produces. *)
Record TraditionalAnalysis : Type := {
  technicalScore_overall : num;
  ta_confidence : num
}.

Inductive Direction : Type := UP | DOWN | D_NEUTRAL.

Record MLPredictions : Type := {
  priceDirection_direction : Direction;
  priceDirection_probability : num;
  trendStrength : num;
  ml_volatility : num;
  ml_confidence : num
}.

(** [hmm.regime]: the regime label and its confidence.  A label other
    than the four regimes ([UNKNOWN] after an error) is [None]. *)
Record RegimeInfo : Type := {
  ri_currentRegime : option Regime;
  ri_confidence : num
}.

(** The result of the regime analysis; [hmm_regime] is [None] when the
    object has no [regime]. *)
Record HMMAnalysis : Type := {
  hmm_regime : option RegimeInfo
}.

Definition scoreTraditionalAnalysis (analysis : TraditionalAnalysis) : num :=
  technicalScore_overall analysis.

Definition scoreMLAnalysis (ml : MLPredictions) : num :=
  let directionScore :=
    match priceDirection_direction ml with
    | UP => of_nat 75
    | DOWN => of_nat 25
    | D_NEUTRAL => of_nat 50
    end in
  directionScore * ml_confidence ml.

Definition scoreMultiTimeframe (mtf : MultiTimeframe) : num :=
  let consensusScore :=
    match consensus mtf with
    | BULLISH => of_nat 75
    | BEARISH => of_nat 25
    | T_NEUTRAL => of_nat 50
    end in
  consensusScore * strength mtf.

(** [scorePatterns] ignores its argument. *)
Definition scorePatterns : num := of_nat 50.

Definition scoreHMMAnalysis (hmm : option HMMAnalysis) : num :=
  match hmm with
  | None => of_nat 50
  | Some h =>
      match hmm_regime h with
      | None => of_nat 50
      | Some r =>
          let confidence := or_default (ri_confidence r) (lit 0.5) in
          let baseScore :=
            match ri_currentRegime r with
            | Some BULL => of_nat 75
            | Some BEAR => of_nat 25
            | Some SIDEWAYS => of_nat 45
            | Some HIGH_VOLATILITY => of_nat 35
            | None => of_nat 50
            end in
          let adjustment := (confidence - lit 0.5) * of_nat 20 in
          nmax nzero (nmin (of_nat 100) (baseScore + adjustment))
      end
  end.

(** ** The combination *)

Inductive Signal : Type :=
  STRONG_BUY | BUY | WEAK_BUY | NEUTRAL | WEAK_SELL | SELL | STRONG_SELL.

Definition determineOverallSignal (score : num) : Signal :=
  if score >=? of_nat 75 then STRONG_BUY
  else if score >=? of_nat 60 then BUY
  else if score >=? of_nat 55 then WEAK_BUY
  else if score >=? of_nat 45 then NEUTRAL
  else if score >=? of_nat 40 then WEAK_SELL
  else if score >=? of_nat 25 then SELL
  else STRONG_SELL.

(** [signal.includes('BUY')] and [signal.includes('SELL')] *)
Definition includes_BUY (signal : Signal) : bool :=
  match signal with
  | STRONG_BUY | BUY | WEAK_BUY => true
  | _ => false
  end.
Definition includes_SELL (signal : Signal) : bool :=
  match signal with
  | WEAK_SELL | SELL | STRONG_SELL => true
  | _ => false
  end.

Record Analyses : Type := {
  traditional : TraditionalAnalysis;
  ml : MLPredictions;
  multiTimeframe : MultiTimeframe;
  hmm : option HMMAnalysis
}.

Record Scores : Type := {
  s_traditional : num;
  s_ml : num;
  s_multiTimeframe : num;
  s_patterns : num;
  s_hmm : num
}.

Definition calculateOverallConfidence (analyses : Analyses) : num :=
  let tradConfidence := ta_confidence (traditional analyses) in
  let mlConfidence := ml_confidence (ml analyses) in
  tradConfidence * lit 0.6 + mlConfidence * lit 0.4.

Inductive RecAction : Type := RA_BUY | RA_SELL | RA_HOLD.
Inductive PositionSize : Type := LARGE | NORMAL | SMALL | REDUCE | PS_HOLD.

Definition calculatePositionSize (signal : Signal) (confidence : num) : PositionSize :=
  if (match signal with STRONG_BUY => true | _ => false end) && (confidence >? lit 0.8)
  then LARGE
  else if includes_BUY signal && (confidence >? lit 0.7) then NORMAL
  else if includes_BUY signal then SMALL
  else if includes_SELL signal then REDUCE
  else PS_HOLD.

(** The recommendation; [reasoning_percent] is the number its
    [reasoning] text prints, [Math.round(confidence * 100)]. *)
Record MLRecommendation : Type := {
  r_action : RecAction;
  r_signal : Signal;
  r_score : num;
  r_confidence : num;
  reasoning_percent : num;
  positionSize : PositionSize
}.

Definition generateMLRecommendation (signal : Signal) (score confidence : num)
  : MLRecommendation :=
  {| r_action := if includes_BUY signal then RA_BUY
                 else if includes_SELL signal then RA_SELL
                 else RA_HOLD;
     r_signal := signal;
     r_score := score;
     r_confidence := confidence;
     reasoning_percent := nround (confidence * of_nat 100);
     positionSize := calculatePositionSize signal confidence |}.

(** The combined analysis; the copies of its inputs that the object
    also carries (the analyses, the features, a timestamp) are left out. *)
Record CombinedAnalysis : Type := {
  overallSignal : Signal;
  overallScore : num;
  ca_confidence : num;
  ca_recommendation : MLRecommendation;
  scores : Scores
}.

Definition combineAnalyses (analyses : Analyses) : CombinedAnalysis :=
  let scores' :=
    {| s_traditional := scoreTraditionalAnalysis (traditional analyses);
       s_ml := scoreMLAnalysis (ml analyses);
       s_multiTimeframe := scoreMultiTimeframe (multiTimeframe analyses);
       s_patterns := scorePatterns;
       s_hmm := scoreHMMAnalysis (hmm analyses) |} in
  let overallScore' :=
    s_traditional scores' * lit 0.35
    + s_ml scores' * lit 0.25
    + s_multiTimeframe scores' * lit 0.15
    + s_patterns scores' * lit 0.1
    + s_hmm scores' * lit 0.15 in
  let overallSignal' := determineOverallSignal overallScore' in
  let confidence := calculateOverallConfidence analyses in
  let recommendation := generateMLRecommendation overallSignal' overallScore' confidence in
  {| overallSignal := overallSignal';
     overallScore := overallScore';
     ca_confidence := confidence;
     ca_recommendation := recommendation;
     scores := scores' |}.

End MLTA.

(* ================================================================== *)
(** * Sample inputs *)
(* ================================================================== *)

Module Samples.

Import HMM MLTA.

(** A runtime to run the model with: the first-order logarithm
    [x - 1], a clustering that deals the points round the [K] clusters
    in turn, and a fixed clock.  The theorems hold for every runtime;
    this one instantiates them. *)
Definition sample_log (x : num) : num :=
  match x with
  | Fin q =>
      match q ?= 0 with
      | Lt => NaN
      | Eq => NInf
      | Gt => Fin (Qred (q - 1))
      end
  | PInf => PInf
  | _ => NaN
  end.

Definition round_robin (data : list (list num)) (K : nat)
  : option (list nat * list (list num)) :=
  Some (map (fun i => Nat.modulo i K) (seq 0 (length data)), firstn K data).

#[export] Instance sample_runtime : Runtime := {|
  Math_log := sample_log;
  kmeans_clustering := round_robin;
  Date_now := "2025-01-01T00:00:00.000Z"
|}.

(** A candle that opens and closes at [c], with volume [v]. *)
Definition candle (t c v : nat) : Candle := {|
  timestamp := Z.of_nat t;
  open := of_nat c;
  high := of_nat c;
  low := of_nat c;
  close := of_nat c;
  volume := of_nat v
|}.

(** [n] candles at price 100 with volume 1000, 1001, ... *)
Definition steady (n : nat) : list Candle :=
  map (fun t => candle t 100 (1000 + t)) (seq 0 n).

(** [n] candles at price 100 that trade nothing. *)
Definition silent (n : nat) : list Candle :=
  map (fun t => candle t 100 0) (seq 0 n).

(** [n] candles whose price climbs from 100 by one a candle. *)
Definition rising (n : nat) : list Candle :=
  map (fun t => candle t (100 + t) 1000) (seq 0 n).

(** A short observation sequence and the analyzer that
    [initializeParameters] leaves for it. *)
Definition two_symbols : list nat := [0; 1; 1; 0; 1]%nat.
Definition initialised : HMMAnalyzer :=
  snd (initializeParameters two_symbols constructor).

(** The analyzer after training on a hundred steady candles. *)
Definition trained : HMMAnalyzer := snd (trainModel (steady 100) constructor).


Definition sample_technical : TechnicalFeatures := {|
  tf_rsi := of_nat 55;
  macdHistogram := lit 0.01;
  adx := of_nat 30
|}.

End Samples.

(* ================================================================== *)
(** * Notions the properties are stated with *)
(* ================================================================== *)

Module Notions.

Import HMM MLTA.

(** A clustering that returns labels every point it was given, as
    ml-kmeans does. *)
Definition labels_every_point `{Runtime} : Prop :=
  forall (data : list (list num)) (K : nat) (labels : list nat)
         (centroids : list (list num)),
    kmeans_clustering data K = Some (labels, centroids) ->
    length labels = length data.

(** The points [discretizeObservations] has clustered: five entries of
    each feature vector. *)
Definition feature_rows (features : list FeatureVector) : list (list num) :=
  map (fun f => [meanReturn f; returnVolatility f; priceChange f;
                 HMM.volumeRatio f; momentum f])
      features.

(** The clustering of the feature vectors of a series returns, with a
    label for each of them. *)
Definition clusters `{Runtime} (priceData : list Candle) : Prop :=
  exists features labels centroids,
    extractHMMFeatures priceData = Ok features
    /\ kmeans_clustering (feature_rows features) 8 = Some (labels, centroids)
    /\ length labels = length features.

(** The steps of [trainModel] that follow the clustering. *)
Definition train_on `{Runtime} (priceData : list Candle) (observations : list nat)
  : M TrainModelResult :=
  (initializeParameters observations ;;
   trainingResult <- baumWelchTraining observations ;;
   write (set_trained {| tr_timestamp := Date_now;
                         dataPoints := length priceData;
                         tr_iterations := iterations trainingResult;
                         finalLikelihood := tr_likelihood trainingResult;
                         convergence := converged trainingResult |}) ;;
   ret {| success := true;
          tm_iterations := iterations trainingResult;
          tm_likelihood := tr_likelihood trainingResult;
          tm_converged := converged trainingResult;
          tm_states := states |})%method.




(** The value a call returned, if it returned. *)
Definition returned {A : Type} (r : result A) : option A :=
  match r with
  | Ok a => Some a
  | Throw _ => None
  end.


(** The sum of row [i] of a matrix. *)
Definition row_sum (m : matrix) (i : nat) : num := nsum (nth i m []).

(** One pass of the loop of [baumWelchTraining] without its convergence
    test: the E-step on the current parameters, then the M-step. *)
Definition reestimate `{Runtime} (observations : list nat) (this : HMMAnalyzer)
  : HMMAnalyzer :=
  match forwardBackward observations this with
  | Ok fb => snd (updateParameters observations (alpha fb) (beta fb) this)
  | Throw _ => this
  end.

(** The analyzer after [n] passes. *)
Definition analyzer_after `{Runtime} (observations : list nat) (n : nat)
    (this : HMMAnalyzer) : HMMAnalyzer :=
  Nat.iter n (reestimate observations) this.

(** The log-likelihood that pass [n] (counted from 0) computes, and the
    one it compares it with. *)
Definition likelihood_at `{Runtime} (observations : list nat) (n : nat)
    (this : HMMAnalyzer) : num :=
  match forwardBackward observations (analyzer_after observations n this) with
  | Ok fb => likelihood fb
  | Throw _ => NaN
  end.

Definition previous_likelihood `{Runtime} (observations : list nat) (n : nat)
    (this : HMMAnalyzer) : num :=
  match n with
  | O => NInf
  | S k => likelihood_at observations k this
  end.

(** The convergence test of pass [n]. *)
Definition close_at `{Runtime} (observations : list nat) (n : nat)
    (this : HMMAnalyzer) : bool :=
  nabs (likelihood_at observations n this - previous_likelihood observations n this)
  <? convergenceThreshold config.

(** ** Parameters that do not tell the states apart

    The vocabulary of the analysis of the training loop: parameters in
    which the four states are interchangeable, and the values the
    forward and backward passes take on them. *)

(** A row of four equal entries, four such rows, and an emission matrix
    of four equal rows. *)
Definition uniform_row (q : Q) : list num := repeat (lit q) numStates.
Definition uniform_matrix (a : Q) : matrix := repeat (uniform_row a) numStates.
Definition emission_rows (b : list Q) : matrix := repeat (map lit b) numStates.

(** The analyzer holds uniform initial probabilities, a transition
    matrix whose entries are all [a], and the same emission row [b] for
    every state. *)
Definition symmetric (a : Q) (b : list Q) (this : HMMAnalyzer) : Prop :=
  initialProbs this = Some (uniform_row (1 # 4))
  /\ transitionMatrix this = Some (uniform_matrix a)
  /\ emissionMatrix this = Some (emission_rows b)
  /\ numSymbols this = Some (length b).

(** Such parameters give every observed symbol a positive probability. *)
Definition admissible (a : Q) (b : list Q) (observations : list nat) : Prop :=
  (0 < a)%Q
  /\ Forall (fun o => (o < length b)%nat /\ (0 < nth o b 0)%Q) observations.

(** The common value of each row of alpha, from row 1 on and from row 0
    on, and of each row of beta. *)
Fixpoint alphaQ (a : Q) (b : list Q) (prev : Q) (observations : list nat) : list Q :=
  match observations with
  | [] => []
  | o :: rest =>
      let q := (4 * (prev * a) * nth o b 0)%Q in
      q :: alphaQ a b q rest
  end.

Definition alphas (a : Q) (b : list Q) (observations : list nat) : list Q :=
  match observations with
  | [] => []
  | o :: rest =>
      let q := ((1 # 4) * nth o b 0)%Q in
      q :: alphaQ a b q rest
  end.

Fixpoint betaQ (a : Q) (b : list Q) (observations : list nat) : list Q :=
  match observations with
  | [] => []
  | _ :: rest =>
      match rest with
      | [] => [1%Q]
      | o :: _ =>
          let qs := betaQ a b rest in
          (4 * (a * nth o b 0 * nth 0 qs 0))%Q :: qs
      end
  end.

(** [xi] at an entry of the transition matrix that holds [x], and the
    value the M-step writes there. *)
Definition xi_entry (observations : list nat) (alpha beta B : matrix)
    (t i j : nat) (x : num) : num :=
  (mget alpha t i * x * emission_at B j observations (t + 1) * mget beta (t + 1) j)
  / (mget alpha t i * mget beta t i).

Definition transition_entry (observations : list nat) (alpha beta gamma B : matrix)
    (i j : nat) (x : num) : num :=
  let T := length observations in
  nsum_map (fun t => xi_entry observations alpha beta B t i j x) (seq 0 (T - 1))
  / nsum_map (fun t => mget gamma t i) (seq 0 (T - 1)).

(** The value the M-step writes at entry [(i, k)] of the emission
    matrix. *)
Definition emission_entry (observations : list nat) (gamma : matrix) (i k : nat) : num :=
  let T := length observations in
  fold_left
    (fun numerator t =>
       match nth_error observations t with
       | Some o => if (o =? k)%nat then numerator + mget gamma t i else numerator
       | None => numerator
       end)
    (seq 0 T) nzero
  / nsum_map (fun t => mget gamma t i) (seq 0 T).

(** The relative frequency of each of the first [K] symbols. *)
Definition frequencies (observations : list nat) (K : nat) : list Q :=
  map (fun k => (inject_Z (Z.of_nat (count_occ Nat.eq_dec observations k))
                 / inject_Z (Z.of_nat (length observations)))%Q)
      (seq 0 K).

(** [m.set(i, k, v)] seen from row [i]. *)
Definition row_set (row : list num) (k : nat) (v : num) : list num :=
  if (k <? length row)%nat then firstn k row ++ v :: skipn (S k) row else row.

End Notions.

(* ================================================================== *)
(** * HMMAnalyzer: the report on the model *)
(* ================================================================== *)

Module HMMInfo.

Import HMM.

(** [parameters] of the report: copies of the two matrices, and the
    array of initial probabilities itself. *)
Record ModelParameters : Type := {
  mp_transitionMatrix : matrix;
  mp_emissionMatrix : matrix;
  mp_initialProbs : option (list num)
}.

Record ModelInfo : Type := {
  mi_states : list Regime;
  mi_numStates : nat;
  mi_isTrained : bool;
  mi_trainingHistory : list TrainingRecord;
  mi_parameters : option ModelParameters
}.

(** [getModelInfo]: [to2DArray] of a matrix that is still [null]
    throws; the initial probabilities are passed on as they are. *)
Definition getModelInfo (this : HMMAnalyzer) : result ModelInfo :=
  if isTrained this then
    match transitionMatrix this, emissionMatrix this with
    | Some A, Some B =>
        Ok {| mi_states := states;
              mi_numStates := numStates;
              mi_isTrained := isTrained this;
              mi_trainingHistory := trainingHistory this;
              mi_parameters :=
                Some {| mp_transitionMatrix := A;
                        mp_emissionMatrix := B;
                        mp_initialProbs := initialProbs this |} |}
    | _, _ => Throw TypeError
    end
  else
    Ok {| mi_states := states;
          mi_numStates := numStates;
          mi_isTrained := isTrained this;
          mi_trainingHistory := trainingHistory this;
          mi_parameters := None |}.

End HMMInfo.

(* ================================================================== *)
(** * Notions of the further properties *)
(* ================================================================== *)

Module Lifecycle.

Import HMM.

(** The analyzers a program can hold: a new one, and what a call of
    [trainModel] or of [predictMarketRegime] leaves of one, whether the
    call returned or threw. *)
Inductive reachable `{Runtime} : HMMAnalyzer -> Prop :=
| reachable_new : reachable constructor
| reachable_train (priceData : list Candle) (this : HMMAnalyzer) :
    reachable this -> reachable (snd (trainModel priceData this))
| reachable_predict (recentData : list Candle) (this : HMMAnalyzer) :
    reachable this -> reachable (snd (predictMarketRegime recentData this)).

(** What training learns and prediction reads. *)
Definition learned (this : HMMAnalyzer)
  : option matrix * option matrix * option (list num) * option nat :=
  (transitionMatrix this, emissionMatrix this, initialProbs this, numSymbols this).

(** What no step of the Baum-Welch loop touches. *)
Definition bookkeeping (this : HMMAnalyzer)
  : option (list (list num)) * bool * list TrainingRecord :=
  (clusterCenters this, isTrained this, trainingHistory this).


End Lifecycle.

(* ================================================================== *)
(** * Exact values *)
(* ================================================================== *)

Module Exact.

(** [x] is the finite number [q], whichever fraction represents it. *)
Definition is_q (x : num) (q : Q) : Prop :=
  exists q', x = Fin q' /\ (q' == q)%Q.

(** The numbers of [xs] are the rationals [qs], one by one. *)
Definition are_q (xs : list num) (qs : list Q) : Prop := Forall2 is_q xs qs.

(** The sum of a list of rationals. *)
Definition Qsum (qs : list Q) : Q := fold_right Qplus 0%Q qs.

(** [x] is a finite number of magnitude at most [bound]. *)
Definition within (bound : Q) (x : num) : Prop :=
  exists q, is_q x q /\ (Qabs q <= bound)%Q.

End Exact.

(* ================================================================== *)
(** * MLTechnicalAnalyzer: price features and the prediction models *)
(* ================================================================== *)

Module MLModels.

Import HMM MLTA.
Local Open Scope result_scope.

(** ** Helper calculations *)

(** The loop of [calculateATR], from [i = 1]; [prev] is [data[i-1]]. *)
Fixpoint atr_loop (atr : num) (prev : Candle) (rest : list Candle) : num :=
  match rest with
  | [] => atr
  | d :: rest' =>
      let tr :=
        nmax (nmax (high d - low d) (nabs (high d - close prev)))
             (nabs (low d - close prev)) in
      atr_loop (atr + tr) d rest'
  end.

Definition calculateATR (data : list Candle) : num :=
  if (length data <? 2)%nat then nzero
  else
    match data with
    | [] => nzero
    | d0 :: rest => atr_loop nzero d0 rest / of_nat (length data - 1)
    end.


(** ** Price features *)

Record PriceFeatures : Type := {
  currentPrice : num;
  priceChange1 : num;
  priceChange5 : num;
  priceChange20 : num;
  pf_highLowRatio : num;
  pricePosition : num;
  avgTrueRange : num;
  pf_momentum : num;
  rateOfChange : num
}.


(** ** Statistical features *)

Record StatisticalFeatures : Type := {
  volatility : num;
  skewness : num;
  kurtosis : num;
  sharpeRatio : num;
  maxDrawdown : num;
  meanReversion : num
}.

(** Placeholders of the class: each returns 0. *)
Definition calculateSkewness (data : list num) : num := nzero.
Definition calculateKurtosis (data : list num) : num := nzero.
Definition calculateSharpeRatio (returns : list num) : num := nzero.
Definition calculateMaxDrawdown (prices : list num) : num := nzero.
Definition calculateMeanReversionStrength (prices : list num) : num := nzero.

Definition extractStatisticalFeatures (data : list Candle) : result StatisticalFeatures :=
  let closes := map close data in
  let returns := returns_of closes in
  volatility' <- ss.standardDeviation returns ;;
  Ok {| volatility := volatility';
        skewness := calculateSkewness returns;
        kurtosis := calculateKurtosis returns;
        sharpeRatio := calculateSharpeRatio returns;
        maxDrawdown := calculateMaxDrawdown closes;
        meanReversion := calculateMeanReversionStrength closes |}.

(** ** The prediction models *)

(** The parts of the feature set that the models read. *)
Record Features : Type := {
  price : PriceFeatures;
  technical : TechnicalFeatures;
  f_volume : VolumeFeatures;
  statistical : StatisticalFeatures
}.

(** [new SLR(x, y).predict(at)] of ml-regression: the value at [at] of
    the line fitted to the points, or what the library throws. *)
Class Regression : Type := {
  SLR_predict : list num -> list num -> num -> result num
}.

Record PriceDirection : Type := {
  direction : Direction;
  probability : num;
  predictedChange : option num;
  nextPrice : option num
}.

(** [predictPriceDirection]: its [catch] answers as its short-series
    branch does. *)
Definition predictPriceDirection `{Regression} (priceData : list Candle) : PriceDirection :=
  let neutral := {| direction := D_NEUTRAL; probability := lit 0.5;
                    predictedChange := None; nextPrice := None |} in
  let closes := map close priceData in
  let x := map of_nat (seq 0 (length closes)) in
  let y := closes in
  if (10 <=? length x)%nat then
    match SLR_predict (slice_last 20 x) (slice_last 20 y) (of_nat (length x)) with
    | Ok nextPrediction =>
        let currentPrice := nlast closes in
        let change := (nextPrediction - currentPrice) / currentPrice in
        {| direction := if change >? lit 0.01 then UP
                        else if change <? nopp (lit 0.01) then DOWN
                        else D_NEUTRAL;
           probability := nmin (lit 0.9) (lit 0.5 + nabs change * of_nat 10);
           predictedChange := Some change;
           nextPrice := Some nextPrediction |}
    | Throw _ => neutral
    end
  else neutral.

(** [predictVolatility] and [calculateMLConfidence]: nothing in their
    [try] throws. *)
Definition predictVolatility (features : Features) : num :=
  let atr := avgTrueRange (price features) in
  let currentPrice := currentPrice (price features) in
  let historicalVol := volatility (statistical features) in
  let atrVolatility := atr / currentPrice in
  let predictedVolatility := atrVolatility * lit 0.6 + historicalVol * lit 0.4 in
  nmin (lit 0.2) (nmax (lit 0.005) predictedVolatility).

Definition calculateMLConfidence (features : Features) : num :=
  let confidence := lit 0.5 in
  let confidence :=
    if MLTA.volumeRatio (f_volume features) >? lit 1.5
    then confidence + lit 0.1 else confidence in
  let rsi := tf_rsi (technical features) in
  let macd := macdHistogram (technical features) in
  let confidence :=
    if ((rsi >? of_nat 70) && (macd <? nzero)) || ((rsi <? of_nat 30) && (macd >? nzero))
    then confidence + lit 0.15 else confidence in
  let confidence :=
    if adx (technical features) >? of_nat 25
    then confidence + lit 0.1 else confidence in
  let confidence :=
    if volatility (statistical features) <? lit 0.02
    then confidence + lit 0.05 else confidence in
  nmin (lit 0.95) (nmax (lit 0.1) confidence).

(** [runMLModels]: the four models; none of them throws, so the
    defaults of its [catch] are never returned.  The predicted change
    and the next price stay with [predictPriceDirection]. *)
Definition runMLModels `{Regression} (features : Features) (priceData : list Candle)
  : MLPredictions :=
  let priceDirection := predictPriceDirection priceData in
  {| priceDirection_direction := direction priceDirection;
     priceDirection_probability := probability priceDirection;
     trendStrength := predictTrendStrength (technical features) (f_volume features);
     ml_volatility := predictVolatility features;
     ml_confidence := calculateMLConfidence features |}.

End MLModels.

(* ================================================================== *)
(** * Notions of the scores *)
(* ================================================================== *)

Module Scoring.

Import HMM MLTA.



End Scoring.

(* ================================================================== *)
(** * MLTechnicalAnalyzer: the regime analysis *)
(* ================================================================== *)

Module RegimeAnalysis.

Import HMM HMMInfo MLTA.

(** [this.priceCollector.collectHistoricalData(tokenAddress, timeframe,
    limit)]: the candles the collector resolves to, or what it throws
    (it fetches them over the network). *)
Class Collector : Type := {
  collectHistoricalData : string -> string -> nat -> result (list Candle)
}.

(** What [runHMMAnalysis] returns: the prediction with the report on
    the model and the number of candles, or, from its [catch], the
    regime [UNKNOWN] with confidence 0.5 and the error. *)
Inductive RegimeReport : Type :=
| Analysed (regime : RegimePrediction) (modelInfo : ModelInfo) (dataPoints : nat)
| Failed (e : error).

(** The candles the analysis runs on: the longer history, if the
    primary series is shorter than 200 candles and the collector
    returns more. *)
Definition extendedData `{Collector} (primaryData : list Candle) (tokenAddress : string)
  : list Candle :=
  if (length primaryData <? 200)%nat then
    match collectHistoricalData tokenAddress "1h" 300 with
    | Ok moreData =>
        if (length primaryData <? length moreData)%nat then moreData else primaryData
    | Throw _ => primaryData
    end
  else primaryData.

Definition runHMMAnalysis `{Runtime} `{Collector} (primaryData : list Candle)
    (tokenAddress : string) : M RegimeReport :=
  try_catch
    (let extendedData := extendedData primaryData tokenAddress in
     (if (100 <=? length extendedData)%nat
      then try_catch (trainModel extendedData ;; ret tt) (fun _ => ret tt)
      else ret tt) ;;
     let recentData := slice_last 50 extendedData in
     regimePrediction <- predictMarketRegime recentData ;;
     modelInfo <- (fun this => (getModelInfo this, this)) ;;
     ret (Analysed regimePrediction modelInfo (length extendedData)))%method
    (fun e => ret (Failed e)).

(** What [scoreHMMAnalysis] reads of the report. *)
Definition analysis_of (report : RegimeReport) : HMMAnalysis :=
  {| hmm_regime :=
       Some match report with
            | Analysed regime _ _ =>
                {| ri_currentRegime := currentRegime regime;
                   ri_confidence := confidence regime |}
            | Failed _ =>
                {| ri_currentRegime := None; ri_confidence := lit 0.5 |}
            end |}.

End RegimeAnalysis.

(* ================================================================== *)
(** * Further sample inputs *)
(* ================================================================== *)

Module OfflineSamples.

Import HMM RegimeAnalysis.

(** A collector without a network: every request throws. *)
Definition offline_collector : Collector := {|
  collectHistoricalData := fun _ _ _ => Throw TypeError
|}.

End OfflineSamples.

(* ================================================================== *)
(** * PriceDataCollector: cleaning the candles *)
(* ================================================================== *)

Module PriceCollector.

Import HMM.

(** The test of the [filter] of [validateAndCleanData]. *)
Definition valid_candle (candle : Candle) : bool :=
  (open candle >? nzero)
  && (high candle >? nzero)
  && (low candle >? nzero)
  && (close candle >? nzero)
  && (high candle >=? low candle)
  && (high candle >=? open candle)
  && (high candle >=? close candle)
  && (low candle <=? open candle)
  && (low candle <=? close candle)
  && (volume candle >=? nzero)
  && (0 <? timestamp candle)%Z.

(** [data.sort((a, b) => a.timestamp - b.timestamp)]: the sort of
    [Array.prototype.sort] is stable, so candles are ordered by
    timestamp and candles of equal timestamp keep their order. *)
Fixpoint insert_by_timestamp (candle : Candle) (sorted : list Candle) : list Candle :=
  match sorted with
  | [] => [candle]
  | d :: rest =>
      if (timestamp candle <=? timestamp d)%Z then candle :: d :: rest
      else d :: insert_by_timestamp candle rest
  end.

Definition sort_by_timestamp (data : list Candle) : list Candle :=
  fold_right insert_by_timestamp [] data.

(** [validateAndCleanData] on an array. *)
Definition validateAndCleanData (data : list Candle) : list Candle :=
  sort_by_timestamp (filter valid_candle data).

End PriceCollector.

(* ================================================================== *)
(** * Properties *)
(* ================================================================== *)

Import HMM MLTA Notions Samples.

(** ** Arithmetic on finite numbers *)

Section NumFacts.

Local Open Scope Q_scope.

Lemma Fin_Qred_eq (a b : Q) : a == b -> Fin (Qred a) = Fin (Qred b).
Proof. intros E. f_equal. now apply Qred_complete. Qed.

Lemma Qcompare_Qred_l (a b : Q) : (Qred a ?= b) = (a ?= b).
Proof. now rewrite (Qred_correct a). Qed.

Lemma ngeb_Fin (a b : Q) : ngeb (Fin a) (Fin b) = true <-> b <= a.
Proof.
  unfold ngeb, nleb; simpl. rewrite Qle_alt.
  destruct (b ?= a); split; intros; try discriminate; try reflexivity;
    congruence.
Qed.

Lemma ngeb_Fin_false (a b : Q) : ngeb (Fin a) (Fin b) = false <-> a < b.
Proof.
  unfold ngeb, nleb; simpl. rewrite (Qgt_alt b a).
  destruct (b ?= a); split; intros; try discriminate; reflexivity.
Qed.

Lemma ngtb_Fin (a b : Q) : ngtb (Fin a) (Fin b) = true <-> b < a.
Proof.
  unfold ngtb, nltb; simpl. rewrite Qlt_alt.
  destruct (b ?= a); split; intros; try discriminate; reflexivity.
Qed.

Lemma nltb_Fin (a b : Q) : nltb (Fin a) (Fin b) = true <-> a < b.
Proof.
  unfold nltb; simpl. rewrite Qlt_alt.
  destruct (a ?= b); split; intros; try discriminate; reflexivity.
Qed.

End NumFacts.

(** ** The signal thresholds *)

Section Thresholds.

Import MLTA.
Local Open Scope Q_scope.

Lemma geb_of_nat_reflect (s : Q) (n : nat) :
  reflect (inject_Z (Z.of_nat n) <= s) (ngeb (Fin s) (of_nat n)).
Proof.
  unfold of_nat. destruct (ngeb (Fin s) (Fin (inject_Z (Z.of_nat n)))) eqn:E.
  - constructor. now apply ngeb_Fin.
  - constructor. apply ngeb_Fin_false in E. now apply Qlt_not_le.
Qed.

(** C5. For every numeric overall score [s] the label is STRONG_BUY
    iff [s >= 75], BUY iff [60 <= s < 75], WEAK_BUY iff [55 <= s < 60],
    NEUTRAL iff [45 <= s < 55], WEAK_SELL iff [40 <= s < 45], SELL iff
    [25 <= s < 40] and STRONG_SELL iff [s < 25]; 75.0 gives STRONG_BUY,
    74.999 BUY, 60.0 BUY and 59.999 WEAK_BUY. *)
Theorem determineOverallSignal_thresholds (s : Q) :
  (determineOverallSignal (Fin s) = STRONG_BUY <-> 75 <= s)
  /\ (determineOverallSignal (Fin s) = BUY <-> 60 <= s < 75)
  /\ (determineOverallSignal (Fin s) = WEAK_BUY <-> 55 <= s < 60)
  /\ (determineOverallSignal (Fin s) = NEUTRAL <-> 45 <= s < 55)
  /\ (determineOverallSignal (Fin s) = WEAK_SELL <-> 40 <= s < 45)
  /\ (determineOverallSignal (Fin s) = SELL <-> 25 <= s < 40)
  /\ (determineOverallSignal (Fin s) = STRONG_SELL <-> s < 25)
  /\ determineOverallSignal (lit 75.0) = STRONG_BUY
  /\ determineOverallSignal (lit 74.999) = BUY
  /\ determineOverallSignal (lit 60.0) = BUY
  /\ determineOverallSignal (lit 59.999) = WEAK_BUY.
Proof.
  unfold determineOverallSignal.
  destruct (geb_of_nat_reflect s 75) as [H75|H75];
  destruct (geb_of_nat_reflect s 60) as [H60|H60];
  destruct (geb_of_nat_reflect s 55) as [H55|H55];
  destruct (geb_of_nat_reflect s 45) as [H45|H45];
  destruct (geb_of_nat_reflect s 40) as [H40|H40];
  destruct (geb_of_nat_reflect s 25) as [H25|H25];
  unfold inject_Z in *; simpl in *;
  repeat match goal with
         | |- _ /\ _ => split
         | |- _ <-> _ => split; intros
         | |- _ = _ => first [ reflexivity | discriminate | exfalso; lra ]
         | H : _ = _ |- _ => discriminate H
         | |- _ => lra
         end.
Qed.

End Thresholds.

(** ** The weighted combination *)

Section Combiner.

Import MLTA Samples.
Local Open Scope Q_scope.

Lemma nadd_Qred (a b : Q) : nadd (Fin (Qred a)) (Fin (Qred b)) = Fin (Qred (a + b)).
Proof. simpl. f_equal. apply Qred_complete. now rewrite !Qred_correct. Qed.

(** C4. The overall score of the combiner is
    traditional x 0.35 + ml x 0.25 + multiTimeframe x 0.15
    + patterns x 0.10 + hmm x 0.15 of the five component scores it
    reports, the products and the sum taken from left to right as the
    source writes them; the five scores are those of its five analyses,
    the pattern score being the constant 50. *)
Theorem combineAnalyses_overallScore (a : Analyses) :
  overallScore (combineAnalyses a)
  = (s_traditional (scores (combineAnalyses a)) * lit 0.35
     + s_ml (scores (combineAnalyses a)) * lit 0.25
     + s_multiTimeframe (scores (combineAnalyses a)) * lit 0.15
     + s_patterns (scores (combineAnalyses a)) * lit 0.10
     + s_hmm (scores (combineAnalyses a)) * lit 0.15)%num
  /\ scores (combineAnalyses a)
     = {| s_traditional := scoreTraditionalAnalysis (traditional a);
          s_ml := scoreMLAnalysis (ml a);
          s_multiTimeframe := scoreMultiTimeframe (multiTimeframe a);
          s_patterns := scorePatterns;
          s_hmm := scoreHMMAnalysis (hmm a) |}
  /\ scorePatterns = of_nat 50.
Proof. split; [reflexivity|]. split; reflexivity. Qed.

End Combiner.

(** ** Which calls return *)

Section Totality.

Import HMM.
Local Open Scope nat_scope.

Lemma mean_ok (xs : list num) : xs <> [] -> exists v, ss.mean xs = Ok v.
Proof. destruct xs; [congruence|]. intros _. eexists. reflexivity. Qed.

Lemma variance_ok (xs : list num) : xs <> [] -> exists v, ss.variance xs = Ok v.
Proof.
  destruct xs as [|x xs]; [congruence|]. intros _.
  unfold ss.variance, ss.sumSquaredDeviations.
  destruct (@mean_ok (x :: xs)) as [m E]; [congruence|].
  rewrite E. eexists. reflexivity.
Qed.

Lemma standardDeviation_ok (xs : list num) :
  xs <> [] -> exists v, ss.standardDeviation xs = Ok v.
Proof.
  intros N. unfold ss.standardDeviation.
  destruct (length xs =? 1)%nat; [eexists; reflexivity|].
  destruct (variance_ok N) as [v E]. rewrite E. eexists. reflexivity.
Qed.

Lemma calculateSkewness_ok (xs : list num) :
  xs <> [] -> exists v, calculateSkewness xs = Ok v.
Proof.
  intros N. unfold calculateSkewness.
  destruct (mean_ok N) as [m ->], (standardDeviation_ok N) as [s ->].
  eexists. reflexivity.
Qed.

Lemma calculateKurtosis_ok (xs : list num) :
  xs <> [] -> exists v, calculateKurtosis xs = Ok v.
Proof.
  intros N. unfold calculateKurtosis.
  destruct (mean_ok N) as [m ->], (standardDeviation_ok N) as [s ->].
  eexists. reflexivity.
Qed.

Lemma calculateSimpleRSI_ok (prices : list num) :
  exists v, calculateSimpleRSI prices = Ok v.
Proof.
  unfold calculateSimpleRSI.
  destruct (length prices <? 14 + 1)%nat; [eexists; reflexivity|].
  unfold rsi_changes. cbn [seq map].
  cbn [ss.mean rbind].
  match goal with |- context [if ?c then _ else _] => destruct c end;
    eexists; reflexivity.
Qed.

Lemma returns_of_nonempty (a b : num) (rest : list num) :
  returns_of (a :: b :: rest) <> [].
Proof. simpl. congruence. Qed.

Lemma windowFeatures_ok (window : list Candle) (ts : option Z) :
  2 <= length window -> exists f, windowFeatures window ts = Ok f.
Proof.
  destruct window as [|c1 [|c2 rest]]; simpl length; try lia. intros _.
  unfold windowFeatures.
  cbn [map].
  pose proof (@returns_of_nonempty (close c1) (close c2) (map close rest)) as Nr.
  destruct (mean_ok Nr) as [v1 ->]; cbn [rbind].
  destruct (standardDeviation_ok Nr) as [v2 ->]; cbn [rbind].
  destruct (calculateSkewness_ok Nr) as [v3 ->]; cbn [rbind].
  destruct (calculateKurtosis_ok Nr) as [v4 ->]; cbn [rbind].
  destruct (@standardDeviation_ok (close c1 :: close c2 :: map close rest))
    as [v5 ->]; [congruence|]; cbn [rbind].
  destruct (@mean_ok (close c1 :: close c2 :: map close rest))
    as [v6 ->]; [congruence|]; cbn [rbind].
  destruct (@mean_ok (volume c1 :: volume c2 :: map volume rest))
    as [v7 ->]; [congruence|]; cbn [rbind].
  destruct (@standardDeviation_ok (volume c1 :: volume c2 :: map volume rest))
    as [v8 ->]; [congruence|]; cbn [rbind].
  cbn [length seq map].
  match goal with
  | |- context [ss.mean (?x :: ?xs)] =>
      destruct (@mean_ok (x :: xs)) as [v9 ->]; [congruence|]; cbn [rbind]
  end.
  destruct (calculateSimpleRSI_ok (close c1 :: close c2 :: map close rest))
    as [v10 ->]; cbn [rbind].
  eexists. reflexivity.
Qed.

Lemma map_result_ok {A B : Type} (f : A -> result B) (xs : list A) :
  (forall x, In x xs -> exists y, f x = Ok y) ->
  exists ys, map_result f xs = Ok ys /\ length ys = length xs.
Proof.
  induction xs as [|x xs IH]; intros Hf.
  - exists []. split; reflexivity.
  - destruct (Hf x (or_introl eq_refl)) as [y Ey].
    destruct IH as [ys [Eys L]]; [intros; apply Hf; now right|].
    exists (y :: ys). cbn [map_result]. rewrite Ey, Eys. cbn [rbind].
    split; [reflexivity|]. simpl. now rewrite L.
Qed.

Lemma slice_length {A : Type} (from to : nat) (xs : list A) :
  from <= to -> to <= length xs -> length (slice from to xs) = to - from.
Proof.
  intros. unfold slice. rewrite length_firstn, length_skipn. lia.
Qed.

(** Feature extraction returns for every series: each window holds
    twenty candles. *)
Lemma extractHMMFeatures_ok (priceData : list Candle) :
  exists fs, extractHMMFeatures priceData = Ok fs
             /\ length fs = length priceData - 20.
Proof.
  unfold extractHMMFeatures. change (windowSize config) with 20.
  destruct (@map_result_ok _ _
              (fun i => windowFeatures (slice (i - 20) i priceData)
                          (option_map timestamp (nth_error priceData i)))
              (seq 20 (length priceData - 20))) as [fs [E L]].
  - intros i Hi. apply in_seq in Hi. apply windowFeatures_ok.
    rewrite slice_length; lia.
  - exists fs. split; [exact E|]. now rewrite L, length_seq.
Qed.

End Totality.

(** ** The Baum-Welch loop *)

Section BaumWelchLoop.

Import HMM Notions Samples.
Local Open Scope nat_scope.
Context `{R : Runtime}.

Lemma forwardBackward_ok (observations : list nat) (this : HMMAnalyzer) p :
  observations <> [] -> parameters this = Ok p ->
  exists fb, forwardBackward observations this = Ok fb.
Proof.
  intros N P. unfold forwardBackward. rewrite P. cbn [rbind].
  destruct p as [[pi A] B]. destruct observations; [congruence|].
  eexists. reflexivity.
Qed.

Lemma updateParameters_ok (observations : list nat) (a b : matrix)
    (this : HMMAnalyzer) p :
  parameters this = Ok p ->
  exists this' p',
    updateParameters observations a b this = (Ok tt, this')
    /\ parameters this' = Ok p'.
Proof.
  intros P. unfold updateParameters. rewrite P. destruct p as [[pi A] B].
  eexists. eexists. split; reflexivity.
Qed.

Lemma reestimate_parameters (observations : list nat) (this : HMMAnalyzer) p :
  parameters this = Ok p ->
  exists p', parameters (reestimate observations this) = Ok p'.
Proof.
  intros P. unfold reestimate.
  destruct (forwardBackward observations this) as [fb|e]; [|eauto].
  destruct (updateParameters_ok observations (alpha fb) (beta fb) this P)
    as (this' & p' & E & P').
  rewrite E. eauto.
Qed.

Lemma analyzer_after_parameters (observations : list nat) (n : nat)
    (this : HMMAnalyzer) p :
  parameters this = Ok p ->
  exists p', parameters (analyzer_after observations n this) = Ok p'.
Proof.
  intros P. induction n as [|n [p' IH]]; [eauto|].
  exact (reestimate_parameters observations _ IH).
Qed.

(** The loop from pass [iteration] on, when no earlier pass converged. *)
Lemma baumWelchLoop_spec (observations : list nat) (this0 : HMMAnalyzer) p :
  observations <> [] -> parameters this0 = Ok p ->
  forall remaining iteration,
    (forall n, n < iteration -> close_at observations n this0 = false) ->
    exists r,
      baumWelchLoop remaining iteration
        (previous_likelihood observations iteration this0) observations
        (analyzer_after observations iteration this0)
      = (Ok r, analyzer_after observations (iterations r) this0)
      /\ iteration <= iterations r <= iteration + remaining
      /\ (remaining <> 0 -> iteration < iterations r)
      /\ (forall n, n < iterations r - 1 -> close_at observations n this0 = false)
      /\ (remaining <> 0 ->
          converged r = close_at observations (iterations r - 1) this0)
      /\ (converged r = false -> iterations r = iteration + remaining)
      /\ tr_likelihood r = previous_likelihood observations (iterations r) this0.
Proof.
  intros N P remaining.
  induction remaining as [|remaining IH]; intros iteration Hprev.
  - exists {| iterations := iteration;
              tr_likelihood := previous_likelihood observations iteration this0;
              converged := false |}.
    cbn [baumWelchLoop ret iterations converged tr_likelihood].
    split; [reflexivity|]. repeat split; try lia; try congruence.
    intros n Hn. apply Hprev. lia.
  - destruct (analyzer_after_parameters observations iteration this0 P) as [p' P'].
    destruct (forwardBackward_ok (analyzer_after observations iteration this0) N P')
      as [fb Efb].
    destruct (updateParameters_ok observations (alpha fb) (beta fb) _ P')
      as (this' & p'' & Eup & _).
    assert (Enext : analyzer_after observations (S iteration) this0 = this').
    { change (reestimate observations (analyzer_after observations iteration this0)
              = this').
      unfold reestimate. now rewrite Efb, Eup. }
    assert (Elik : likelihood_at observations iteration this0 = likelihood fb).
    { unfold likelihood_at. now rewrite Efb. }
    cbn [baumWelchLoop]. unfold bind at 1. rewrite Efb.
    unfold bind at 1. rewrite Eup.
    assert (Eclose :
              (nabs (nsub (likelihood fb)
                          (previous_likelihood observations iteration this0))
               <? convergenceThreshold config)%num
              = close_at observations iteration this0).
    { unfold close_at. now rewrite Elik. }
    rewrite Eclose.
    destruct (close_at observations iteration this0) eqn:C.
    + exists {| iterations := iteration + 1;
                tr_likelihood := likelihood fb;
                converged := true |}.
      cbn [ret iterations converged tr_likelihood].
      replace (iteration + 1) with (S iteration) by lia.
      rewrite <- Enext. split; [reflexivity|].
      replace (S iteration - 1) with iteration by lia.
      repeat split; try lia; try congruence.
      * intros n Hn. apply Hprev. lia.
      * cbn [previous_likelihood]. now rewrite Elik.
    + replace (iteration + 1) with (S iteration) by lia.
      rewrite <- Elik, <- Enext.
      change (likelihood_at observations iteration this0)
        with (previous_likelihood observations (S iteration) this0).
      destruct (IH (S iteration)) as (r & E & Hr).
      { intros n Hn. destruct (Nat.eq_dec n iteration) as [->|]; [exact C|].
        apply Hprev. lia. }
      exists r. split; [exact E|].
      destruct Hr as (H1 & H2 & H3 & H4 & H5 & H6).
      repeat split; try lia; try assumption.
      * intros _. destruct remaining as [|remaining'].
        -- cbn [baumWelchLoop ret] in E. inversion E; subst r.
           cbn [converged iterations]. replace (S iteration - 1) with iteration by lia.
           now rewrite C.
        -- apply H4. lia.
      * intros Hc. rewrite (H5 Hc). lia.
Qed.

(** The loop returns, having run at least one pass. *)
Lemma baumWelchTraining_returns (observations : list nat) (this : HMMAnalyzer) p :
  observations <> [] -> parameters this = Ok p ->
  exists r,
    baumWelchTraining observations this
    = (Ok r, analyzer_after observations (iterations r) this)
    /\ 1 <= iterations r.
Proof.
  intros N P.
  destruct (baumWelchLoop_spec this N P (maxIterations config) (iteration := 0))
    as (r & E & _ & H2 & _); [intros n Hn; lia|].
  exists r. split; [exact E|]. apply H2. cbv. discriminate.
Qed.


End BaumWelchLoop.


(** ** Training and its minimum of data *)

Section Training.

Local Open Scope nat_scope.
Context `{R : Runtime}.

Lemma parameters_throws (this : HMMAnalyzer) e : parameters this = Throw e -> e = TypeError.
Proof.
  unfold parameters.
  destruct (initialProbs this), (transitionMatrix this), (emissionMatrix this);
    intros E; inversion E; reflexivity.
Qed.

Lemma forwardBackward_throws (observations : list nat) (this : HMMAnalyzer) e :
  forwardBackward observations this = Throw e -> e = TypeError.
Proof.
  unfold forwardBackward.
  destruct (parameters this) as [[[pi A] B]|e'] eqn:P; cbn [rbind].
  - destruct observations; intros E; inversion E; reflexivity.
  - intros E; inversion E; subst. eapply parameters_throws; eassumption.
Qed.

Lemma updateParameters_throws (observations : list nat) (a b : matrix)
    (this this' : HMMAnalyzer) e :
  updateParameters observations a b this = (Throw e, this') -> e = TypeError.
Proof.
  unfold updateParameters.
  destruct (parameters this) as [[[pi A] B]|e'] eqn:P; intros E; inversion E; subst.
  eapply parameters_throws; eassumption.
Qed.

Lemma baumWelchLoop_throws (observations : list nat) (remaining : nat) :
  forall iteration prev this this' e,
    baumWelchLoop remaining iteration prev observations this = (Throw e, this') ->
    e = TypeError.
Proof.
  induction remaining as [|remaining IH]; intros iteration prev this this' e.
  - cbn [baumWelchLoop ret]. intros E; inversion E.
  - cbn [baumWelchLoop]. unfold bind at 1.
    destruct (forwardBackward observations this) as [fb|e'] eqn:Efb.
    + unfold bind at 1.
      destruct (updateParameters observations (alpha fb) (beta fb) this)
        as [[[]|e''] this''] eqn:Eup.
      * destruct (nabs (likelihood fb - prev) <? convergenceThreshold config)%num.
        -- cbn [ret]. intros E; inversion E.
        -- apply IH.
      * intros E; inversion E; subst. eapply updateParameters_throws; eassumption.
    + intros E; inversion E; subst. eapply forwardBackward_throws; eassumption.
Qed.

Lemma initializeParameters_nonempty (o : nat) (observations : list nat)
    (this : HMMAnalyzer) :
  exists this' p,
    initializeParameters (o :: observations) this = (Ok tt, this')
    /\ parameters this' = Ok p
    /\ isTrained this' = isTrained this.
Proof.
  unfold initializeParameters, bind, write, parameters.
  cbn [set_transitionMatrix set_emissionMatrix set_initialProbs set_numSymbols
       initialProbs transitionMatrix emissionMatrix isTrained].
  eexists. eexists. split; [reflexivity|]. split; reflexivity.
Qed.

Lemma initializeParameters_throws (observations : list nat) (this this' : HMMAnalyzer) e :
  initializeParameters observations this = (Throw e, this') -> e = TypeError.
Proof.
  destruct observations as [|o rest].
  - intros E; inversion E; reflexivity.
  - destruct (initializeParameters_nonempty o rest this) as (t & p & E & _).
    rewrite E. intros E'; inversion E'.
Qed.

(** With eight feature vectors or more the clustering passes the check
    of ml-kmeans; the labels are those it returns, if it returns. *)
Lemma discretizeObservations_ok (features : list FeatureVector) (this : HMMAnalyzer) :
  8 <= length features ->
  discretizeObservations features this
  = match kmeans_clustering (feature_rows features) 8 with
    | Some (observations, centroids) =>
        (Ok observations, set_clusterCenters centroids this)
    | None => (Throw ClusteringError, this)
    end.
Proof.
  intros L. unfold discretizeObservations, kmeans, feature_rows.
  rewrite length_map.
  replace (length features <? 8) with false
    by (symmetry; apply Nat.ltb_ge; exact L).
  cbn [Nat.eqb orb]. unfold bind, lift, write, ret.
  destruct (kmeans_clustering _ 8) as [[observations centroids]|]; reflexivity.
Qed.

(** With enough data [trainModel] reaches the clustering of its
    feature vectors, at least eighty of them; when that returns, it
    goes on to the initialisation and the Baum-Welch loop on the labels
    returned, and when that throws, so does [trainModel]. *)
Lemma trainModel_enough (priceData : list Candle) :
  100 <= length priceData ->
  exists features,
    extractHMMFeatures priceData = Ok features
    /\ length features = length priceData - 20
    /\ forall this,
         trainModel priceData this
         = match kmeans_clustering (feature_rows features) 8 with
           | Some (observations, centroids) =>
               train_on priceData observations (set_clusterCenters centroids this)
           | None => (Throw ClusteringError, this)
           end.
Proof.
  intros L.
  destruct (extractHMMFeatures_ok priceData) as (fs & Efs & Lfs).
  exists fs. split; [exact Efs|]. split; [exact Lfs|]. intros this.
  unfold trainModel. change (minTrainingData config) with 100.
  replace (length priceData <? 100) with false
    by (symmetry; apply Nat.ltb_ge; exact L).
  unfold bind at 1. unfold lift at 1. rewrite Efs.
  unfold bind at 1. rewrite discretizeObservations_ok by lia.
  destruct (kmeans_clustering _ 8) as [[observations centroids]|]; reflexivity.
Qed.

Lemma feature_rows_length (features : list FeatureVector) :
  length (feature_rows features) = length features.
Proof. unfold feature_rows. apply length_map. Qed.

(** What [train_on] throws, if it throws, is a [TypeError]. *)
Lemma train_on_throws (priceData : list Candle) (observations : list nat)
    (this this' : HMMAnalyzer) (e : error) :
  train_on priceData observations this = (Throw e, this') -> e = TypeError.
Proof.
  unfold train_on. unfold bind at 1.
  destruct (initializeParameters observations this) as [[[]|e1] this2] eqn:Ei.
  - unfold bind at 1.
    destruct (baumWelchTraining observations this2) as [[tr|e2] this3] eqn:Eb.
    + cbn. discriminate.
    + intros E; inversion E; subst.
      unfold baumWelchTraining in Eb. now apply baumWelchLoop_throws in Eb.
  - intros E; inversion E; subst. now apply initializeParameters_throws in Ei.
Qed.

(** On labels that are not empty [train_on] returns. *)
Lemma train_on_returns (priceData : list Candle) (o : nat) (rest : list nat)
    (this : HMMAnalyzer) :
  exists r this',
    train_on priceData (o :: rest) this = (Ok r, this')
    /\ success r = true /\ isTrained this' = true.
Proof.
  destruct (initializeParameters_nonempty o rest this) as (this2 & p & Ei & P & _).
  unfold train_on. unfold bind at 1. rewrite Ei.
  destruct (@baumWelchTraining_returns R (o :: rest) this2 p) as (tr & Eb & _);
    [discriminate|exact P|].
  unfold bind at 1. rewrite Eb.
  eexists. eexists. cbn. repeat split.
Qed.

(** C2. A series of fewer than 100 candles (99 in particular) makes
    [trainModel] throw the insufficient-data error and leaves the
    analyzer as it was.  With 100 candles or more that error is not
    thrown: training goes on to the clustering of the feature vectors,
    and it returns, trained, whenever the clustering returns a label
    for each of them; when the clustering throws (as ml-kmeans does on
    feature vectors that hold NaN), [trainModel] throws that error and
    leaves the analyzer as it was. *)
Theorem trainModel_minimum_length (priceData : list Candle) (this : HMMAnalyzer) :
  (length priceData < 100 ->
   trainModel priceData this
   = (Throw (InsufficientData 100 (length priceData)), this))
  /\ (100 <= length priceData ->
      (forall need got,
          fst (trainModel priceData this) <> Throw (InsufficientData need got))
      /\ (clusters priceData ->
          exists r this',
            trainModel priceData this = (Ok r, this')
            /\ success r = true /\ isTrained this' = true)
      /\ (forall features,
            extractHMMFeatures priceData = Ok features ->
            kmeans_clustering (feature_rows features) 8 = None ->
            trainModel priceData this = (Throw ClusteringError, this))).
Proof.
  split.
  - intros L. unfold trainModel. change (minTrainingData config) with 100.
    replace (length priceData <? 100) with true
      by (symmetry; apply Nat.ltb_lt; exact L).
    reflexivity.
  - intros L.
    destruct (trainModel_enough priceData L) as (features & Ef & Lf & E).
    rewrite E. clear E. split; [|split].
    + intros need got.
      destruct (kmeans_clustering _ 8) as [[observations centroids]|];
        [|cbn; discriminate].
      destruct (train_on priceData observations (set_clusterCenters centroids this))
        as [[r|e] this'] eqn:Et; [cbn; discriminate|].
      apply train_on_throws in Et. subst e. cbn. discriminate.
    + intros (features' & labels & centroids & Ef' & Ek & Ll).
      rewrite Ef in Ef'. inversion Ef'; subst features'. rewrite Ek.
      destruct labels as [|o rest]; [cbn in Ll; lia|].
      apply train_on_returns.
    + intros features' Ef' Ek.
      rewrite Ef in Ef'. inversion Ef'; subst features'. now rewrite Ek.
Qed.

End Training.

Lemma round_robin_labels_every_point : @labels_every_point sample_runtime.
Proof.
  intros data K labels centroids E. cbn in E. inversion E.
  now rewrite length_map, length_seq.
Qed.

Lemma steady_clusters (n : nat) : @clusters sample_runtime (steady n).
Proof.
  destruct (extractHMMFeatures_ok (steady n)) as (features & E & _).
  exists features. do 2 eexists. split; [exact E|]. split; [reflexivity|].
  now rewrite length_map, length_seq, feature_rows_length.
Qed.

Lemma trainModel_boundary :
  trainModel (steady 99) constructor = (Throw (InsufficientData 100 99), constructor)
  /\ exists r this',
       trainModel (steady 100) constructor = (Ok r, this')
       /\ success r = true /\ isTrained this' = true.
Proof.
  split.
  - refine (proj1 (@trainModel_minimum_length sample_runtime (steady 99) constructor) _).
    vm_compute. lia.
  - refine (proj1 (proj2 (proj2 (@trainModel_minimum_length sample_runtime (steady 100)
                                   constructor) _))
              (steady_clusters 100)).
    vm_compute. lia.
Defined.

(** ** The prediction and its fallback *)

Section Prediction.

Local Open Scope nat_scope.
Context `{R : Runtime}.

(** The heuristic returns on every series of two candles or more, and
    throws on a shorter one: it takes the mean of the returns. *)
Lemma heuristicClassification_ok (recentData : list Candle) :
  2 <= length recentData ->
  exists r,
    heuristicClassification recentData = Ok r
    /\ method r = Some HEURISTIC
    /\ nextStateProbabilities r = None
    /\ stateProbabilities r
       = match currentRegime r with
         | Some regime => [(regime, confidence r)]
         | None => []
         end
    /\ (confidence r = lit 0.6 \/ confidence r = lit 0.7 \/ confidence r = lit 0.8).
Proof.
  destruct recentData as [|c1 [|c2 rest]]; simpl length; try lia. intros _.
  unfold heuristicClassification. cbn [map].
  pose proof (@returns_of_nonempty (close c1) (close c2) (map close rest)) as Nr.
  destruct (mean_ok Nr) as [avg ->]; cbn [rbind].
  destruct (standardDeviation_ok Nr) as [vol ->]; cbn [rbind].
  repeat match goal with
         | |- context [if ?c then _ else _] => destruct c
         end;
    eexists; (split; [reflexivity|]);
    cbn [method nextStateProbabilities stateProbabilities currentRegime confidence];
    repeat split; auto.
Qed.

Lemma heuristicClassification_short (recentData : list Candle) :
  length recentData < 2 -> heuristicClassification recentData = Throw EmptySample.
Proof.
  destruct recentData as [|c1 [|c2 rest]]; simpl length; try lia; reflexivity.
Qed.

Lemma predictMarketRegime_untrained_eq (recentData : list Candle) (this : HMMAnalyzer) :
  isTrained this = false ->
  predictMarketRegime recentData this = (heuristicClassification recentData, this).
Proof.
  intros U. unfold predictMarketRegime, try_catch, bind, read, lift.
  rewrite U. cbn [negb].
  destruct (heuristicClassification recentData); reflexivity.
Qed.

(** C3, as the code has it. Before any successful training,
    [predictMarketRegime] on a series of at least two candles returns
    the heuristic classification, tagged HEURISTIC, and leaves the
    analyzer as it was; on a shorter series it throws. *)
Theorem predictMarketRegime_untrained (recentData : list Candle) (this : HMMAnalyzer) :
  isTrained this = false ->
  (2 <= length recentData ->
   exists r,
     predictMarketRegime recentData this = (Ok r, this)
     /\ heuristicClassification recentData = Ok r
     /\ method r = Some HEURISTIC)
  /\ (length recentData < 2 ->
      predictMarketRegime recentData this = (Throw EmptySample, this)).
Proof.
  intros U. rewrite (predictMarketRegime_untrained_eq recentData this U). split.
  - intros L. destruct (heuristicClassification_ok recentData L) as (r & E & Hm & _).
    exists r. rewrite E. auto.
  - intros L. now rewrite (heuristicClassification_short recentData L).
Qed.

(** C10, as the code has it. When the trained path throws, the call
    ends as the heuristic classification of the same series does: on a
    series of at least two candles it returns that classification,
    tagged HEURISTIC, and on a shorter one the heuristic throws in its
    turn. *)
Theorem predictMarketRegime_fallback (recentData : list Candle)
    (this this' : HMMAnalyzer) (e : error) :
  isTrained this = true ->
  predictTrained recentData this = (Throw e, this') ->
  predictMarketRegime recentData this = (heuristicClassification recentData, this')
  /\ (2 <= length recentData ->
      exists r,
        predictMarketRegime recentData this = (Ok r, this')
        /\ heuristicClassification recentData = Ok r
        /\ method r = Some HEURISTIC)
  /\ (length recentData < 2 ->
      predictMarketRegime recentData this = (Throw EmptySample, this')).
Proof.
  intros T E.
  assert (Eq : predictMarketRegime recentData this
               = (heuristicClassification recentData, this')).
  { unfold predictMarketRegime, try_catch, bind, read.
    rewrite T. cbn [negb]. rewrite E. reflexivity. }
  rewrite Eq. split; [reflexivity|]. split.
  - intros L. destruct (heuristicClassification_ok recentData L) as (r & Er & Hm & _).
    exists r. rewrite Er. auto.
  - intros L. now rewrite (heuristicClassification_short recentData L).
Qed.

End Prediction.

(** Untrained, on no candle at all, the call throws. *)
Lemma predictMarketRegime_untrained_empty :
  isTrained constructor = false
  /\ predictMarketRegime [] constructor = (Throw EmptySample, constructor).
Proof. split; reflexivity. Qed.

Lemma predictMarketRegime_untrained_sample :
  exists r,
    predictMarketRegime (steady 2) constructor = (Ok r, constructor)
    /\ heuristicClassification (steady 2) = Ok r
    /\ method r = Some HEURISTIC.
Proof.
  refine (proj1 (@predictMarketRegime_untrained sample_runtime (steady 2) constructor
                   eq_refl) _).
  vm_compute. lia.
Defined.

(** Trained, on no candle at all: the trained path throws (the
    clustering has no point to cluster), and so does the fallback. *)
Lemma predictMarketRegime_fallback_empty :
  isTrained trained = true
  /\ predictTrained [] trained = (Throw KMeansArgument, trained)
  /\ predictMarketRegime [] trained = (Throw EmptySample, trained).
Proof. vm_compute. repeat split. Qed.

Lemma predictMarketRegime_fallback_sample :
  exists r,
    predictMarketRegime (steady 25) trained = (Ok r, trained)
    /\ heuristicClassification (steady 25) = Ok r
    /\ method r = Some HEURISTIC.
Proof.
  refine (proj1 (proj2 (@predictMarketRegime_fallback sample_runtime (steady 25)
                          trained trained KMeansArgument _ _)) _).
  - vm_compute. reflexivity.
  - vm_compute. reflexivity.
  - vm_compute. lia.
Defined.

(** ** The multi-timeframe aggregator *)

Section MultiTimeframe.

Local Open Scope nat_scope.




End MultiTimeframe.


(** ** Ratios over a zero denominator *)

Section ZeroVolume.

Local Open Scope nat_scope.

Lemma sum_loop_zeros (n : nat) : ss.sum_loop nzero nzero (repeat nzero n) = nzero.
Proof. induction n as [|n IH]; [reflexivity|exact IH]. Qed.

Lemma mean_zeros (n : nat) : ss.mean (repeat nzero (S n)) = Ok nzero.
Proof.
  unfold ss.mean. cbn [repeat]. unfold ss.sum. rewrite sum_loop_zeros.
  reflexivity.
Qed.

Lemma all_zero_repeat (xs : list num) :
  Forall (fun x => x = nzero) xs -> xs = repeat nzero (length xs).
Proof. induction 1 as [|x xs -> _ IH]; [reflexivity|]. simpl. now f_equal. Qed.

Lemma slice_last_map {A B : Type} (f : A -> B) (n : nat) (xs : list A) :
  slice_last n (map f xs) = map f (slice_last n xs).
Proof. unfold slice_last. now rewrite length_map, skipn_map. Qed.

Lemma last_append {A : Type} (xs ys : list A) (d : A) :
  ys <> [] -> List.last (xs ++ ys) d = List.last ys d.
Proof.
  intros N. induction xs as [|x xs IH]; [reflexivity|].
  cbn [app]. rewrite <- IH.
  destruct (xs ++ ys) eqn:E; [|reflexivity].
  apply app_eq_nil in E. destruct E. congruence.
Qed.

Lemma last_slice_last (n : nat) (xs : list num) :
  0 < n -> nlast (slice_last n xs) = nlast xs.
Proof.
  intros Hn. unfold nlast, slice_last.
  destruct (Nat.le_gt_cases (length xs) n) as [L|L].
  - replace (length xs - n) with 0 by lia. reflexivity.
  - transitivity (List.last (firstn (length xs - n) xs ++ skipn (length xs - n) xs) NaN);
      [|now rewrite firstn_skipn].
    symmetry. apply last_append.
    intros E. apply (f_equal (@length num)) in E.
    rewrite length_skipn in E. simpl in E. lia.
Qed.

Lemma last_repeat (x : num) (n : nat) : nlast (repeat x (S n)) = x.
Proof. unfold nlast. induction n as [|n IH]; [reflexivity|exact IH]. Qed.

Lemma predictTrendStrength_NaN (technical : TechnicalFeatures) (volume : VolumeFeatures) :
  volumeRatio volume = NaN -> predictTrendStrength technical volume = NaN.
Proof.
  intros E. unfold predictTrendStrength. rewrite E.
  change (nmin NaN (of_nat 3) / of_nat 3 * lit 0.15)%num with NaN.
  match goal with |- nmin nunit (?x + NaN)%num = NaN => destruct x; reflexivity end.
Qed.

(** C7, at the inputs that break it. When the last twenty candles
    traded nothing, the volume ratio that [extractVolumeFeatures]
    returns is 0/0 = NaN, and the trend-strength score computed from it
    is NaN. *)
Theorem extractVolumeFeatures_zero_volume (data : list Candle)
    (technical : TechnicalFeatures) :
  data <> [] ->
  Forall (fun c => volume c = nzero) (slice_last 20 data) ->
  exists f,
    extractVolumeFeatures data = Ok f
    /\ volumeMA f = nzero
    /\ volumeRatio f = NaN
    /\ predictTrendStrength technical f = NaN.
Proof.
  intros N Z.
  assert (Zv : slice_last 20 (map volume data)
               = repeat nzero (length (slice_last 20 data))).
  { rewrite slice_last_map, <- (length_map volume). apply all_zero_repeat.
    apply Forall_map. exact Z. }
  assert (Ls : exists n, length (slice_last 20 data) = S n).
  { unfold slice_last. rewrite length_skipn.
    destruct data as [|c rest]; [congruence|]. simpl length.
    exists (S (length rest) - (S (length rest) - 20) - 1). lia. }
  destruct Ls as [n Ls]. rewrite Ls in Zv.
  unfold extractVolumeFeatures. rewrite Zv, mean_zeros. cbn [rbind].
  destruct (@standardDeviation_ok (repeat nzero (S n))) as [sd ->]; [discriminate|].
  cbn [rbind].
  assert (Lv : nlast (map volume data) = nzero).
  { rewrite <- (@last_slice_last 20) by lia. rewrite Zv. apply last_repeat. }
  eexists. split; [reflexivity|].
  cbn [volumeMA volumeRatio]. split; [reflexivity|].
  assert (En : (nlast (map volume data) / nzero)%num = NaN) by now rewrite Lv.
  split; [exact En|].
  apply predictTrendStrength_NaN. exact En.
Qed.

End ZeroVolume.

Lemma extractVolumeFeatures_zero_volume_sample :
  exists f,
    extractVolumeFeatures (silent 21) = Ok f
    /\ volumeMA f = nzero
    /\ volumeRatio f = NaN
    /\ predictTrendStrength sample_technical f = NaN.
Proof.
  refine (@extractVolumeFeatures_zero_volume (silent 21) sample_technical _ _).
  - discriminate.
  - vm_compute. repeat constructor.
Defined.

(** The same series through the feature extraction of the regime
    model: the volume ratio and the volume volatility of its window are
    0/0, and the flat prices make the skewness and the kurtosis 0/0 too. *)
Lemma extractHMMFeatures_zero_volume :
  option_map
    (map (fun f => (HMM.volumeRatio f, volumeVolatility f,
                    returnSkewness f, returnKurtosis f)))
    (returned (extractHMMFeatures (silent 21)))
  = Some [(NaN, NaN, NaN, NaN)].
Proof. vm_compute. reflexivity. Qed.

(** ** The probabilities a prediction reports *)

Section Probabilities.

Local Open Scope nat_scope.
Context `{R : Runtime}.





Lemma mrow_mget (A : matrix) (i : nat) (row : list num) :
  mrow A i = Ok row -> i < length A /\ forall j, mget A i j = nget row j.
Proof.
  unfold mrow, mget. destruct (nth_error A i) as [row'|] eqn:E; [|discriminate].
  intros H; inversion H; subst row'. split.
  - apply nth_error_Some. rewrite E. discriminate.
  - intros j. now rewrite (nth_error_nth A i [] E).
Qed.




End Probabilities.



(** ** Baum-Welch on parameters that do not tell the states apart *)

Section Lit.
Local Open Scope Q_scope.

Lemma lit_eq (a b : Q) : a == b -> lit a = lit b.
Proof. apply Fin_Qred_eq. Qed.

Lemma lit_add (a b : Q) : nadd (lit a) (lit b) = lit (a + b).
Proof. apply nadd_Qred. Qed.

Lemma lit_mul (a b : Q) : nmul (lit a) (lit b) = lit (a * b).
Proof. unfold lit, nmul. apply Fin_Qred_eq. now rewrite !Qred_correct. Qed.

Lemma lit_div (a b : Q) : ~ b == 0 -> ndiv (lit a) (lit b) = lit (a / b).
Proof.
  intros Nb. unfold lit, ndiv. rewrite Qcompare_Qred_l.
  destruct (b ?= 0) eqn:C.
  - apply Qeq_alt in C. contradiction.
  - apply Fin_Qred_eq. now rewrite !Qred_correct.
  - apply Fin_Qred_eq. now rewrite !Qred_correct.
Qed.

Lemma of_nat_lit (n : nat) : of_nat n = lit (inject_Z (Z.of_nat n)).
Proof.
  unfold of_nat, lit. f_equal. symmetry. apply Qcanon.Qred_identity.
  simpl. apply Z.gcd_1_r.
Qed.

Lemma positive_count (n : nat) : (0 < n)%nat -> 0 < inject_Z (Z.of_nat n).
Proof. intros. change 0 with (inject_Z 0). rewrite <- Zlt_Qlt. lia. Qed.

End Lit.

Section Uniform.
Local Open Scope nat_scope.

Ltac below4 i := do 4 (destruct i as [|i]; [reflexivity|]); lia.

Lemma nget_uniform_row (q : Q) (i : nat) : i < 4 -> nget (uniform_row q) i = lit q.
Proof. intros L. below4 i. Qed.

Lemma mget_uniform_matrix (a : Q) (i j : nat) :
  i < 4 -> j < 4 -> mget (uniform_matrix a) i j = lit a.
Proof.
  intros Li Lj. unfold mget.
  replace (nth i (uniform_matrix a) []) with (uniform_row a) by (symmetry; below4 i).
  now apply nget_uniform_row.
Qed.

Lemma nget_map_lit (b : list Q) (o : nat) :
  o < length b -> nget (map lit b) o = lit (nth o b 0%Q).
Proof.
  intros L. unfold nget. rewrite (nth_indep _ NaN (lit 0%Q)) by now rewrite length_map.
  apply map_nth.
Qed.

Lemma mget_emission_rows (b : list Q) (i o : nat) :
  i < 4 -> o < length b -> mget (emission_rows b) i o = lit (nth o b 0%Q).
Proof.
  intros Li Lo. unfold mget.
  replace (nth i (emission_rows b) []) with (map lit b) by (symmetry; below4 i).
  now apply nget_map_lit.
Qed.

Lemma nsum_map_ext {A : Type} (f g : A -> num) (xs : list A) :
  (forall x, In x xs -> f x = g x) -> nsum_map f xs = nsum_map g xs.
Proof.
  unfold nsum_map. generalize nzero.
  induction xs as [|x xs IH]; intros s H; [reflexivity|].
  cbn [fold_left]. rewrite (H x) by now left. apply IH. intros; apply H; now right.
Qed.

Lemma fold_add_const {A : Type} (c s : Q) (xs : list A) :
  fold_left (fun acc _ => nadd acc (lit c)) xs (lit s)
  = lit (s + inject_Z (Z.of_nat (length xs)) * c).
Proof.
  revert s. induction xs as [|x xs IH]; intros s.
  - cbn. apply lit_eq. ring.
  - cbn [fold_left]. rewrite lit_add, IH. apply lit_eq.
    cbn [length]. rewrite Nat2Z.inj_succ, <- Z.add_1_r, inject_Z_plus. ring.
Qed.

Lemma nsum_map_const {A : Type} (c : Q) (xs : list A) :
  nsum_map (fun _ => lit c) xs = lit (inject_Z (Z.of_nat (length xs)) * c).
Proof.
  unfold nsum_map. change nzero with (lit 0). rewrite fold_add_const.
  apply lit_eq. ring.
Qed.

Lemma uniform_map (f : nat -> num) (q : Q) :
  (forall i, i < 4 -> f i = lit q) -> map f (seq 0 numStates) = uniform_row q.
Proof.
  intros H. change (seq 0 numStates) with [0; 1; 2; 3]. cbn [map].
  rewrite !H by lia. reflexivity.
Qed.

Lemma sum_uniform (f : nat -> num) (q : Q) :
  (forall i, i < 4 -> f i = lit q) ->
  nsum_map f (seq 0 numStates) = lit (4 * q).
Proof.
  intros H. rewrite (@nsum_map_ext _ f (fun _ => lit q)).
  - rewrite nsum_map_const. reflexivity.
  - intros i Hi. apply in_seq in Hi. apply H. change numStates with 4 in Hi. lia.
Qed.

Lemma forward_init_uniform (b : list Q) (o : nat) :
  o < length b ->
  forward_init (uniform_row (1 # 4)) (emission_rows b) o
  = uniform_row ((1 # 4) * nth o b 0)%Q.
Proof.
  intros Lo. unfold forward_init. apply uniform_map. intros i Li.
  rewrite nget_uniform_row, mget_emission_rows by assumption. apply lit_mul.
Qed.

Lemma forward_step_uniform (a : Q) (b : list Q) (prev : Q) (o : nat) :
  o < length b ->
  forward_step (uniform_matrix a) (emission_rows b) (uniform_row prev) o
  = uniform_row (4 * (prev * a) * nth o b 0)%Q.
Proof.
  intros Lo. unfold forward_step. apply uniform_map. intros j Lj.
  rewrite (@sum_uniform _ (prev * a)%Q).
  - rewrite mget_emission_rows by assumption. apply lit_mul.
  - intros i Li. rewrite nget_uniform_row, mget_uniform_matrix by assumption.
    apply lit_mul.
Qed.

Lemma forward_rows_uniform (a : Q) (b : list Q) (observations : list nat) :
  Forall (fun o => o < length b) observations ->
  forall prev,
    forward_rows (uniform_matrix a) (emission_rows b) (uniform_row prev) observations
    = map uniform_row (alphaQ a b prev observations).
Proof.
  induction 1 as [|o rest Ho _ IH]; intros prev; [reflexivity|].
  cbn [forward_rows alphaQ map]. rewrite forward_step_uniform by assumption.
  f_equal. apply IH.
Qed.

Lemma backward_step_uniform (a : Q) (b : list Q) (next : Q) (o : nat) :
  o < length b ->
  backward_step (uniform_matrix a) (emission_rows b) (uniform_row next) o
  = uniform_row (4 * (a * nth o b 0 * next))%Q.
Proof.
  intros Lo. unfold backward_step. apply uniform_map. intros i Li.
  apply sum_uniform. intros j Lj.
  rewrite mget_uniform_matrix, mget_emission_rows, nget_uniform_row by assumption.
  now rewrite !lit_mul.
Qed.

Lemma backward_uniform (a : Q) (b : list Q) (observations : list nat) :
  Forall (fun o => o < length b) observations ->
  backward (uniform_matrix a) (emission_rows b) observations
  = map uniform_row (betaQ a b observations).
Proof.
  induction 1 as [|o rest Ho Hrest IH]; [reflexivity|].
  cbn [backward betaQ]. destruct rest as [|o' rest']; [reflexivity|].
  rewrite IH. cbn [map].
  inversion Hrest as [|? ? Ho' _]; subst.
  replace (nth 0 (map uniform_row (betaQ a b (o' :: rest'))) [])
    with (uniform_row (nth 0 (betaQ a b (o' :: rest')) 0%Q)).
  - rewrite backward_step_uniform by assumption. reflexivity.
  - cbn [betaQ]. destruct rest'; reflexivity.
Qed.

Lemma mget_uniform_rows (qs : list Q) (t i : nat) :
  t < length qs -> i < 4 -> mget (map uniform_row qs) t i = lit (nth t qs 0%Q).
Proof.
  intros Lt Li. unfold mget.
  rewrite (nth_indep _ [] (uniform_row 0%Q)) by now rewrite length_map.
  rewrite map_nth. now apply nget_uniform_row.
Qed.

Lemma alphaQ_length (a : Q) (b : list Q) (observations : list nat) :
  forall prev, length (alphaQ a b prev observations) = length observations.
Proof. induction observations as [|o rest IH]; intros prev; cbn; [|rewrite IH]; reflexivity. Qed.

Lemma alphas_length (a : Q) (b : list Q) (observations : list nat) :
  length (alphas a b observations) = length observations.
Proof. destruct observations; cbn; [|rewrite alphaQ_length]; reflexivity. Qed.

Lemma betaQ_length (a : Q) (b : list Q) (observations : list nat) :
  length (betaQ a b observations) = length observations.
Proof.
  induction observations as [|o rest IH]; [reflexivity|].
  cbn [betaQ]. destruct rest; [reflexivity|]. cbn [length] in *. now rewrite IH.
Qed.

Lemma alphaQ_positive (a : Q) (b : list Q) (observations : list nat) :
  (0 < a)%Q -> Forall (fun o => (0 < nth o b 0)%Q) observations ->
  forall prev, (0 < prev)%Q -> Forall (fun q => (0 < q)%Q) (alphaQ a b prev observations).
Proof.
  intros Ha. induction 1 as [|o rest Ho _ IH]; intros prev Hp; [constructor|].
  cbn [alphaQ].
  assert (0 < 4 * (prev * a) * nth o b 0)%Q.
  { apply Qmult_lt_0_compat; [|assumption].
    apply Qmult_lt_0_compat; [reflexivity|]. now apply Qmult_lt_0_compat. }
  constructor; [assumption|]. now apply IH.
Qed.

Lemma alphas_positive (a : Q) (b : list Q) (observations : list nat) :
  (0 < a)%Q -> Forall (fun o => (0 < nth o b 0)%Q) observations ->
  Forall (fun q => (0 < q)%Q) (alphas a b observations).
Proof.
  intros Ha H. destruct H as [|o rest Ho Hrest]; [constructor|].
  cbn [alphas].
  assert (0 < (1 # 4) * nth o b 0)%Q by (apply Qmult_lt_0_compat; [reflexivity|assumption]).
  constructor; [assumption|]. now apply alphaQ_positive.
Qed.

Lemma betaQ_positive (a : Q) (b : list Q) (observations : list nat) :
  (0 < a)%Q -> Forall (fun o => (0 < nth o b 0)%Q) observations ->
  Forall (fun q => (0 < q)%Q) (betaQ a b observations).
Proof.
  intros Ha. induction 1 as [|o rest Ho Hrest IH]; [constructor|].
  cbn [betaQ]. destruct rest as [|o' rest']; [repeat constructor|].
  constructor; [|exact IH].
  inversion Hrest as [|? ? Ho' _]; subst.
  assert (0 < nth 0 (betaQ a b (o' :: rest')) 0)%Q.
  { apply (proj1 (Forall_nth _ _) IH). rewrite betaQ_length. cbn. lia. }
  apply Qmult_lt_0_compat; [reflexivity|].
  apply Qmult_lt_0_compat; [|assumption]. now apply Qmult_lt_0_compat.
Qed.

Lemma betaQ_nth (a : Q) (b : list Q) (observations : list nat) :
  forall t, t + 1 < length observations ->
    nth t (betaQ a b observations) 0%Q
    = (4 * (a * nth (nth (t + 1) observations 0%nat) b 0
            * nth (t + 1) (betaQ a b observations) 0))%Q.
Proof.
  induction observations as [|o rest IH]; intros t Lt; [cbn in Lt; lia|].
  destruct rest as [|o' rest']; [cbn in Lt; lia|].
  destruct t as [|t].
  - change (betaQ a b (o :: o' :: rest'))
      with ((4 * (a * nth o' b 0 * nth 0 (betaQ a b (o' :: rest')) 0))%Q
              :: betaQ a b (o' :: rest')).
    reflexivity.
  - change (betaQ a b (o :: o' :: rest'))
      with ((4 * (a * nth o' b 0 * nth 0 (betaQ a b (o' :: rest')) 0))%Q
              :: betaQ a b (o' :: rest')).
    cbn [nth Nat.add]. apply IH. cbn [length] in *. lia.
Qed.

End Uniform.

Section MStep.

Local Open Scope nat_scope.

Lemma update_transition_entries (observations : list nat) (alpha beta gamma B : matrix)
    (x00 x01 x02 x03 x10 x11 x12 x13 x20 x21 x22 x23 x30 x31 x32 x33 : num) :
  let e := transition_entry observations alpha beta gamma B in
  update_transition observations alpha beta gamma
    [[x00; x01; x02; x03]; [x10; x11; x12; x13];
     [x20; x21; x22; x23]; [x30; x31; x32; x33]] B
  = [[e 0 0 x00; e 0 1 x01; e 0 2 x02; e 0 3 x03];
     [e 1 0 x10; e 1 1 x11; e 1 2 x12; e 1 3 x13];
     [e 2 0 x20; e 2 1 x21; e 2 2 x22; e 2 3 x23];
     [e 3 0 x30; e 3 1 x31; e 3 2 x32; e 3 3 x33]].
Proof. reflexivity. Qed.

Lemma fold_row_set (h : nat -> num) (n : nat) :
  forall row, n <= length row ->
    fold_left (fun r k => row_set r k (h k)) (seq 0 n) row
    = map h (seq 0 n) ++ skipn n row.
Proof.
  induction n as [|n IH]; intros row L; [reflexivity|].
  rewrite seq_S, fold_left_app, IH by lia. cbn [fold_left Nat.add].
  unfold row_set.
  assert (Ln : length (map h (seq 0 n) ++ skipn n row) = length row).
  { rewrite length_app, length_map, length_seq, length_skipn. lia. }
  rewrite Ln. replace (n <? length row) with true by (symmetry; apply Nat.ltb_lt; lia).
  rewrite map_app. cbn [map]. rewrite <- app_assoc. cbn [app].
  rewrite firstn_app, length_map, length_seq, Nat.sub_diag. cbn [firstn].
  rewrite app_nil_r, firstn_all2 by (rewrite length_map, length_seq; lia).
  f_equal. f_equal.
  rewrite skipn_app, length_map, length_seq.
  rewrite (skipn_all2 (map h (seq 0 n))) by (rewrite length_map, length_seq; lia).
  cbn [app]. replace (S n - n) with 1 by lia.
  rewrite skipn_skipn. reflexivity.
Qed.

Lemma fold_mset_row (h : nat -> num) (i : nat) (ks : list nat) :
  i < 4 ->
  forall r0 r1 r2 r3,
    fold_left (fun M k => mset M i k (h k)) ks [r0; r1; r2; r3]
    = match i with
      | 0 => [fold_left (fun r k => row_set r k (h k)) ks r0; r1; r2; r3]
      | 1 => [r0; fold_left (fun r k => row_set r k (h k)) ks r1; r2; r3]
      | 2 => [r0; r1; fold_left (fun r k => row_set r k (h k)) ks r2; r3]
      | _ => [r0; r1; r2; fold_left (fun r k => row_set r k (h k)) ks r3]
      end.
Proof.
  intros Li. induction ks as [|k ks IH]; intros r0 r1 r2 r3.
  - do 4 (destruct i as [|i]; [reflexivity|]). lia.
  - cbn [fold_left].
    do 4 (destruct i as [|i];
          [unfold mset at 2; cbn [nth_error]; unfold row_set at 2;
           destruct (k <? _); apply IH|]).
    lia.
Qed.

Lemma update_emission_rows (observations : list nat) (gamma : matrix) (K : nat)
    (r0 r1 r2 r3 : list num) :
  length r0 = K -> length r1 = K -> length r2 = K -> length r3 = K ->
  update_emission observations gamma K [r0; r1; r2; r3]
  = [map (emission_entry observations gamma 0) (seq 0 K);
     map (emission_entry observations gamma 1) (seq 0 K);
     map (emission_entry observations gamma 2) (seq 0 K);
     map (emission_entry observations gamma 3) (seq 0 K)].
Proof.
  intros L0 L1 L2 L3. unfold update_emission.
  change (seq 0 numStates) with [0; 1; 2; 3]. cbn [fold_left].
  fold (emission_entry observations gamma 0).
  fold (emission_entry observations gamma 1).
  fold (emission_entry observations gamma 2).
  fold (emission_entry observations gamma 3).
  rewrite (@fold_mset_row (emission_entry observations gamma 0) 0) by lia.
  rewrite (@fold_mset_row (emission_entry observations gamma 1) 1) by lia.
  rewrite (@fold_mset_row (emission_entry observations gamma 2) 2) by lia.
  rewrite (@fold_mset_row (emission_entry observations gamma 3) 3) by lia.
  rewrite !fold_row_set by lia.
  rewrite !skipn_all2, !app_nil_r by lia. reflexivity.
Qed.

End MStep.

Section Counting.

Local Open Scope nat_scope.

Lemma fold_left_ext_in {S X : Type} (f g : S -> X -> S) (xs : list X) :
  (forall acc x, In x xs -> f acc x = g acc x) ->
  forall s, fold_left f xs s = fold_left g xs s.
Proof.
  induction xs as [|x xs IH]; intros H s; [reflexivity|].
  cbn [fold_left]. rewrite (H s x) by now left.
  apply IH. intros; apply H; now right.
Qed.

Lemma fold_left_map {S X Y : Type} (f : S -> Y -> S) (g : X -> Y) (xs : list X) :
  forall s, fold_left f (map g xs) s = fold_left (fun acc x => f acc (g x)) xs s.
Proof. induction xs as [|x xs IH]; intros s; [reflexivity|apply IH]. Qed.

Lemma fold_seq_nth_error {S X : Type} (g : S -> X -> S) (xs : list X) :
  forall s,
    fold_left (fun acc t => match nth_error xs t with
                            | Some x => g acc x
                            | None => acc
                            end)
              (seq 0 (length xs)) s
    = fold_left g xs s.
Proof.
  induction xs as [|x xs IH]; intros s; [reflexivity|].
  cbn [length seq fold_left nth_error].
  rewrite <- seq_shift, fold_left_map. cbn [nth_error]. apply IH.
Qed.

Lemma fold_count (k : nat) (c : Q) (observations : list nat) :
  forall s,
    fold_left (fun acc o => if o =? k then nadd acc (lit c) else acc) observations (lit s)
    = lit (s + inject_Z (Z.of_nat (count_occ Nat.eq_dec observations k)) * c).
Proof.
  induction observations as [|o rest IH]; intros s.
  - cbn. apply lit_eq. ring.
  - cbn [fold_left count_occ].
    destruct (Nat.eq_dec o k) as [E|E].
    + replace (o =? k) with true by (symmetry; now apply Nat.eqb_eq).
      rewrite lit_add, IH. apply lit_eq.
      rewrite Nat2Z.inj_succ, <- Z.add_1_r, inject_Z_plus. ring.
    + replace (o =? k) with false by (symmetry; now apply Nat.eqb_neq).
      apply IH.
Qed.

Lemma indicator_sum (o K : nat) :
  list_sum (map (fun k => if Nat.eq_dec o k then 1 else 0) (seq 0 K))
  = if o <? K then 1 else 0.
Proof.
  induction K as [|K IH]; [reflexivity|].
  rewrite seq_S, map_app, list_sum_app, IH. cbn [map list_sum Nat.add].
  destruct (Nat.eq_dec o K) as [->|Ne].
  - rewrite Nat.ltb_irrefl.
    replace (K <? S K) with true by (symmetry; apply Nat.ltb_lt; lia). reflexivity.
  - destruct (o <? K) eqn:E.
    + apply Nat.ltb_lt in E.
      replace (o <? S K) with true by (symmetry; apply Nat.ltb_lt; lia). reflexivity.
    + apply Nat.ltb_ge in E.
      replace (o <? S K) with false by (symmetry; apply Nat.ltb_ge; lia). reflexivity.
Qed.

Lemma list_sum_map_add {X : Type} (f g : X -> nat) (xs : list X) :
  list_sum (map (fun x => f x + g x) xs) = list_sum (map f xs) + list_sum (map g xs).
Proof.
  unfold list_sum. induction xs as [|x xs IH]; [reflexivity|].
  cbn [map fold_right]. rewrite IH. lia.
Qed.

(** The symbols below [K] partition a sequence whose symbols are all
    below [K]. *)
Lemma count_total (observations : list nat) (K : nat) :
  Forall (fun o => o < K) observations ->
  list_sum (map (count_occ Nat.eq_dec observations) (seq 0 K)) = length observations.
Proof.
  induction 1 as [|o rest Ho _ IH]; cbn [length].
  - induction (seq 0 K) as [|k ks IHk]; [reflexivity|exact IHk].
  - rewrite (map_ext _ (fun k => count_occ Nat.eq_dec rest k
                                 + if Nat.eq_dec o k then 1 else 0)).
    + rewrite list_sum_map_add, IH, indicator_sum.
      replace (o <? K) with true by (symmetry; now apply Nat.ltb_lt). lia.
    + intros k. cbn [count_occ]. destruct (Nat.eq_dec o k); lia.
Qed.

Lemma nsum_map_lit (qs : list Q) : nsum (map lit qs) = lit (fold_left Qplus qs 0%Q).
Proof.
  unfold nsum, nsum_map. change nzero with (lit 0). generalize 0%Q.
  induction qs as [|q qs IH]; intros s; [reflexivity|].
  cbn [map fold_left]. rewrite lit_add. apply IH.
Qed.

Lemma fold_Qplus_ratio (c : nat -> nat) (t : Q) (ks : list nat) :
  forall s,
    (fold_left Qplus (map (fun k => inject_Z (Z.of_nat (c k)) / t) ks) s
     == s + inject_Z (Z.of_nat (list_sum (map c ks))) / t)%Q.
Proof.
  induction ks as [|k ks IH]; intros s.
  - cbn. unfold Qdiv. ring.
  - cbn [map fold_left]. rewrite IH.
    change (list_sum (c k :: map c ks)) with (c k + list_sum (map c ks))%nat.
    rewrite Nat2Z.inj_add, inject_Z_plus. unfold Qdiv. ring.
Qed.

Lemma frequencies_total (observations : list nat) (K : nat) :
  observations <> [] ->
  Forall (fun o => o < K) observations ->
  nsum (map lit (frequencies observations K)) = lit 1.
Proof.
  intros N H. rewrite nsum_map_lit. apply lit_eq. unfold frequencies.
  rewrite fold_Qplus_ratio, (count_total H).
  assert (0 < inject_Z (Z.of_nat (length observations)))%Q.
  { apply positive_count. destruct observations; [congruence|cbn; lia]. }
  field. lra.
Qed.

End Counting.

Section EStep.

Local Open Scope nat_scope.

Variables (a : Q) (b : list Q) (observations : list nat).
Hypothesis Hadm : admissible a b observations.

Let T := length observations.
Let alpha : matrix := map uniform_row (alphas a b observations).
Let beta : matrix := map uniform_row (betaQ a b observations).
Let B : matrix := emission_rows b.

Lemma adm_symbols : Forall (fun o => o < length b) observations.
Proof. destruct Hadm as [_ H]. eapply Forall_impl; [|exact H]. intros o [? _]; assumption. Qed.

Lemma adm_positive : Forall (fun o => (0 < nth o b 0)%Q) observations.
Proof. destruct Hadm as [_ H]. eapply Forall_impl; [|exact H]. intros o [_ ?]; assumption. Qed.

Lemma alpha_at (t i : nat) :
  t < T -> i < 4 -> mget alpha t i = lit (nth t (alphas a b observations) 0%Q).
Proof.
  intros Lt Li. unfold alpha.
  apply mget_uniform_rows; [now rewrite alphas_length|assumption].
Qed.

Lemma alpha_pos (t : nat) : t < T -> (0 < nth t (alphas a b observations) 0)%Q.
Proof.
  intros Lt.
  apply (proj1 (Forall_nth _ _) (@alphas_positive a b observations (proj1 Hadm) adm_positive)).
  now rewrite alphas_length.
Qed.

Lemma beta_at (t i : nat) :
  t < T -> i < 4 -> mget beta t i = lit (nth t (betaQ a b observations) 0%Q).
Proof.
  intros Lt Li. unfold beta.
  apply mget_uniform_rows; [now rewrite betaQ_length|assumption].
Qed.

Lemma beta_pos (t : nat) : t < T -> (0 < nth t (betaQ a b observations) 0)%Q.
Proof.
  intros Lt.
  apply (proj1 (Forall_nth _ _) (@betaQ_positive a b observations (proj1 Hadm) adm_positive)).
  now rewrite betaQ_length.
Qed.

Lemma map_seq_const {X : Type} (f : nat -> X) (x : X) (n : nat) :
  (forall t, t < n -> f t = x) -> map f (seq 0 n) = repeat x n.
Proof.
  intros H. induction n as [|n IH]; [reflexivity|].
  rewrite seq_S, map_app, IH by (intros; apply H; lia).
  cbn [map Nat.add]. rewrite (H n) by lia.
  change [x] with (repeat x 1). rewrite <- repeat_app. f_equal. lia.
Qed.

Lemma gamma_uniform : gamma_of alpha beta T = repeat (uniform_row (1 # 4)) T.
Proof.
  unfold gamma_of. apply map_seq_const. intros t Lt.
  pose proof (alpha_pos Lt) as Pa. pose proof (beta_pos Lt) as Pb.
  apply uniform_map. intros i Li.
  rewrite (@sum_uniform _ (nth t (alphas a b observations) 0
                           * nth t (betaQ a b observations) 0)%Q).
  - rewrite alpha_at, beta_at, lit_mul, lit_div by (assumption || nra).
    apply lit_eq. field. nra.
  - intros i' Li'. rewrite alpha_at, beta_at by assumption. apply lit_mul.
Qed.

Lemma mget_gamma (t i : nat) :
  t < T -> i < 4 -> mget (gamma_of alpha beta T) t i = lit (1 # 4).
Proof.
  intros Lt Li. rewrite gamma_uniform. unfold mget.
  rewrite (nth_indep _ [] (uniform_row (1 # 4))) by now rewrite repeat_length.
  rewrite nth_repeat. now apply nget_uniform_row.
Qed.

Lemma emission_at_uniform (t j : nat) :
  t < T -> j < 4 ->
  emission_at B j observations t = lit (nth (nth t observations 0) b 0%Q).
Proof.
  intros Lt Lj. unfold emission_at.
  rewrite (@nth_error_nth' _ observations t 0 Lt).
  apply mget_emission_rows; [assumption|].
  apply (proj1 (Forall_nth _ _) adm_symbols). exact Lt.
Qed.

Lemma xi_entry_uniform (t i j : nat) :
  t + 1 < T -> i < 4 -> j < 4 ->
  xi_entry observations alpha beta B t i j (lit a) = lit (1 # 4).
Proof.
  intros Lt Li Lj. unfold xi_entry.
  assert (Lt' : t < T) by lia.
  pose proof (alpha_pos Lt') as Pa. pose proof (beta_pos Lt') as Pb.
  pose proof (beta_pos Lt) as Pb'.
  assert (Po : (0 < nth (nth (t + 1) observations 0%nat) b 0)%Q).
  { apply (proj1 (Forall_nth _ _) adm_positive). exact Lt. }
  rewrite !alpha_at, !beta_at, emission_at_uniform by (assumption || lia).
  pose proof (@betaQ_nth a b observations t Lt) as Eb.
  destruct Hadm as [Pa' _].
  rewrite !lit_mul, lit_div by nra.
  apply lit_eq. rewrite Eb in *. field. repeat split; nra.
Qed.

Lemma transition_entry_uniform (i j : nat) :
  2 <= T -> i < 4 -> j < 4 ->
  transition_entry observations alpha beta (gamma_of alpha beta T) B i j (lit a)
  = lit 1.
Proof.
  intros L2 Li Lj. unfold transition_entry. fold T.
  rewrite (@nsum_map_ext _ _ (fun _ => lit (1 # 4))).
  2: { intros t Ht. apply in_seq in Ht. apply xi_entry_uniform; lia || assumption. }
  rewrite (@nsum_map_ext _ (fun t => mget _ t i) (fun _ => lit (1 # 4))).
  2: { intros t Ht. apply in_seq in Ht. apply mget_gamma; lia || assumption. }
  assert (0 < inject_Z (Z.of_nat (T - 1)))%Q by (apply positive_count; lia).
  rewrite nsum_map_const, length_seq, lit_div by lra.
  apply lit_eq. field. lra.
Qed.

End EStep.

Section Reestimation.

Local Open Scope nat_scope.

Variables (a : Q) (b : list Q) (observations : list nat).
Hypothesis Hadm : admissible a b observations.
Hypothesis Hlong : 2 <= length observations.

Let T := length observations.
Let alpha : matrix := map uniform_row (alphas a b observations).
Let beta : matrix := map uniform_row (betaQ a b observations).
Let B : matrix := emission_rows b.
Let gamma : matrix := gamma_of alpha beta T.

Lemma update_initial_uniform :
  update_initial gamma (uniform_row (1 # 4)) = uniform_row (1 # 4).
Proof.
  unfold update_initial. change (seq 0 numStates) with [0; 1; 2; 3].
  cbn [fold_left]. unfold gamma, alpha, beta, T.
  rewrite !(mget_gamma Hadm) by lia. reflexivity.
Qed.

Lemma update_transition_uniform :
  update_transition observations alpha beta gamma (uniform_matrix a) B
  = uniform_matrix 1.
Proof.
  change (uniform_matrix a)
    with [[lit a; lit a; lit a; lit a]; [lit a; lit a; lit a; lit a];
          [lit a; lit a; lit a; lit a]; [lit a; lit a; lit a; lit a]].
  rewrite update_transition_entries. cbv zeta.
  unfold gamma, alpha, beta, B, T.
  rewrite !(transition_entry_uniform Hadm) by lia. reflexivity.
Qed.

Lemma emission_entry_uniform (i k : nat) :
  i < 4 ->
  emission_entry observations gamma i k
  = lit (inject_Z (Z.of_nat (count_occ Nat.eq_dec observations k))
         / inject_Z (Z.of_nat T)).
Proof.
  intros Li. unfold emission_entry. fold T.
  rewrite (@fold_left_ext_in _ _ _
             (fun numerator t =>
                match nth_error observations t with
                | Some o => (fun acc o' => if o' =? k then nadd acc (lit (1 # 4)) else acc)
                              numerator o
                | None => numerator
                end)).
  2: { intros acc t Ht. apply in_seq in Ht.
       destruct (nth_error observations t); [|reflexivity].
       unfold gamma, alpha, beta, T. rewrite (mget_gamma Hadm) by (lia || assumption).
       reflexivity. }
  unfold T at 1. rewrite fold_seq_nth_error.
  change nzero with (lit 0). rewrite fold_count.
  rewrite (@nsum_map_ext _ (fun t => mget gamma t i) (fun _ => lit (1 # 4))).
  2: { intros t Ht. apply in_seq in Ht. unfold gamma, alpha, beta, T.
       apply (mget_gamma Hadm); lia || assumption. }
  assert (0 < inject_Z (Z.of_nat T))%Q by (apply positive_count; unfold T; lia).
  rewrite nsum_map_const, length_seq, lit_div by lra.
  apply lit_eq. field. lra.
Qed.

Lemma update_emission_uniform :
  update_emission observations gamma (length b) B
  = emission_rows (frequencies observations (length b)).
Proof.
  unfold B. change (emission_rows b) with [map lit b; map lit b; map lit b; map lit b].
  rewrite update_emission_rows by apply length_map.
  assert (E : forall i, i < 4 ->
                map (emission_entry observations gamma i) (seq 0 (length b))
                = map lit (frequencies observations (length b))).
  { intros i Li. unfold frequencies. rewrite map_map. apply map_ext.
    intros k. now apply emission_entry_uniform. }
  rewrite !E by lia. reflexivity.
Qed.

Lemma frequencies_length (K : nat) : length (frequencies observations K) = K.
Proof. unfold frequencies. now rewrite length_map, length_seq. Qed.

Lemma frequencies_admissible :
  admissible 1 (frequencies observations (length b)) observations.
Proof.
  split; [reflexivity|].
  pose proof (adm_symbols Hadm) as Hs.
  apply Forall_forall. intros o Ho.
  assert (Lo : o < length b) by (rewrite Forall_forall in Hs; now apply Hs).
  split; [now rewrite frequencies_length|].
  unfold frequencies.
  set (f := fun k => (inject_Z (Z.of_nat (count_occ Nat.eq_dec observations k))
                      / inject_Z (Z.of_nat (length observations)))%Q).
  rewrite (nth_indep _ 0%Q (f 0)) by now rewrite length_map, length_seq.
  rewrite (map_nth f), seq_nth by assumption. unfold f. cbn [Nat.add].
  assert (0 < count_occ Nat.eq_dec observations o) by now apply count_occ_In.
  apply Qlt_shift_div_l; [apply positive_count; lia|].
  rewrite Qmult_0_l. apply positive_count. lia.
Qed.

End Reestimation.

Section SymmetricTraining.

Local Open Scope nat_scope.
Context `{R : Runtime}.

Lemma forward_uniform (a : Q) (b : list Q) (observations : list nat) :
  Forall (fun o => o < length b) observations ->
  forward (uniform_row (1 # 4)) (uniform_matrix a) (emission_rows b) observations
  = map uniform_row (alphas a b observations).
Proof.
  intros H. destruct H as [|o rest Ho Hrest]; [reflexivity|].
  cbn [forward alphas map]. rewrite forward_init_uniform by assumption.
  f_equal. now apply forward_rows_uniform.
Qed.

(** One pass on parameters that do not tell the states apart: the
    transition matrix becomes all ones. *)
Lemma reestimate_symmetric (a : Q) (b : list Q) (observations : list nat)
    (this : HMMAnalyzer) :
  admissible a b observations -> 2 <= length observations ->
  symmetric a b this ->
  symmetric 1 (frequencies observations (length b)) (reestimate observations this)
  /\ admissible 1 (frequencies observations (length b)) observations.
Proof.
  intros Hadm Hlong (Epi & EA & EB & EK).
  split; [|exact (frequencies_admissible Hadm Hlong)].
  pose proof (adm_symbols Hadm) as Hs.
  unfold reestimate, forwardBackward, parameters. rewrite Epi, EA, EB. cbn [rbind].
  destruct observations as [|o rest] eqn:Eo; [cbn in Hlong; lia|]. rewrite <- Eo in *.
  cbn [alpha beta]. unfold updateParameters, parameters. rewrite Epi, EA, EB, EK.
  cbn [snd]. rewrite forward_uniform, backward_uniform by assumption.
  rewrite (update_initial_uniform Hadm Hlong), (update_transition_uniform Hadm Hlong),
    (update_emission_uniform Hadm Hlong).
  unfold symmetric.
  cbn [initialProbs transitionMatrix emissionMatrix numSymbols
       set_emissionMatrix set_transitionMatrix set_initialProbs].
  rewrite frequencies_length. repeat split. exact EK.
Qed.

Lemma frequencies_idempotent (observations : list nat) (K : nat) :
  frequencies observations (length (frequencies observations K))
  = frequencies observations K.
Proof. now rewrite frequencies_length. Qed.

Lemma analyzer_after_symmetric (a : Q) (b : list Q) (observations : list nat)
    (this : HMMAnalyzer) (n : nat) :
  admissible a b observations -> 2 <= length observations ->
  symmetric a b this -> 1 <= n ->
  symmetric 1 (frequencies observations (length b))
    (analyzer_after observations n this).
Proof.
  intros Hadm Hlong Hsym Hn.
  destruct n as [|n]; [lia|]. clear Hn.
  induction n as [|n IH].
  - exact (proj1 (reestimate_symmetric Hadm Hlong Hsym)).
  - change (analyzer_after observations (S (S n)) this)
      with (reestimate observations (analyzer_after observations (S n) this)).
    pose proof (frequencies_admissible Hadm Hlong) as Hadm'.
    pose proof (proj1 (reestimate_symmetric Hadm' Hlong IH)) as H.
    now rewrite frequencies_idempotent in H.
Qed.

Lemma max_bound (observations : list nat) :
  forall m, Forall (fun o => o <= fold_left Nat.max observations m) observations
            /\ m <= fold_left Nat.max observations m.
Proof.
  induction observations as [|o rest IH]; intros m; [split; [constructor|cbn; lia]|].
  cbn [fold_left]. destruct (IH (Nat.max m o)) as [H1 H2]. split; [|lia].
  constructor; [lia|exact H1].
Qed.

Lemma nth_repeat_below {X : Type} (x d : X) (n i : nat) :
  i < n -> nth i (repeat x n) d = x.
Proof.
  intros L. rewrite (nth_indep _ d x) by now rewrite repeat_length.
  apply nth_repeat.
Qed.

(** The uniform start does not tell the states apart. *)
Lemma initializeParameters_symmetric (o : nat) (rest : list nat) (this : HMMAnalyzer) :
  let observations := o :: rest in
  let K := fold_left Nat.max observations 0 + 1 in
  let b := repeat (1 / inject_Z (Z.of_nat K))%Q K in
  exists this',
    initializeParameters observations this = (Ok tt, this')
    /\ symmetric (1 # 4) b this'
    /\ admissible (1 # 4) b observations.
Proof.
  cbv zeta.
  exists (snd (initializeParameters (o :: rest) this)).
  split; [reflexivity|].
  set (observations := o :: rest).
  set (K := fold_left Nat.max observations 0 + 1).
  assert (PK : (0 < inject_Z (Z.of_nat K))%Q) by (apply positive_count; unfold K; lia).
  split.
  - unfold symmetric, initializeParameters, bind, write, observations.
    cbn [snd initialProbs transitionMatrix emissionMatrix numSymbols
         set_emissionMatrix set_transitionMatrix set_initialProbs set_numSymbols].
    fold observations. fold K.
    rewrite repeat_length. repeat split.
    f_equal. unfold mones_mul, emission_rows. f_equal.
    rewrite map_repeat. f_equal.
    rewrite of_nat_lit. change nunit with (lit 1).
    rewrite lit_div, lit_mul by lra. apply lit_eq. field. lra.
  - split; [reflexivity|].
    destruct (max_bound observations 0) as [H _].
    eapply Forall_impl; [|exact H]. intros x Hx. cbv beta in Hx.
    rewrite repeat_length. fold K. split; [unfold K; lia|].
    rewrite nth_repeat_below by (unfold K; lia).
    apply Qlt_shift_div_l; [exact PK|]. rewrite Qmult_0_l. reflexivity.
Qed.

Lemma set_trained_parameters (h : TrainingRecord) (this : HMMAnalyzer) :
  transitionMatrix (set_trained h this) = transitionMatrix this
  /\ emissionMatrix (set_trained h this) = emissionMatrix this
  /\ initialProbs (set_trained h this) = initialProbs this.
Proof. repeat split. Qed.

(** C1, as the code runs.  Whenever [trainModel] succeeds (the
    clustering labelling every feature vector), the analyzer it leaves
    holds a transition matrix whose sixteen entries are all 1, so that
    each of its rows sums to 4 and not to 1; every row of the emission
    matrix and the initial probabilities do sum to exactly 1.  The
    M-step divides [xi] by [alpha(t,i) * beta(t,i)], the quantity that
    normalises [gamma], instead of by the likelihood of the sequence. *)
Theorem trainModel_transition_rows (priceData : list Candle) (this this' : HMMAnalyzer)
    (r : TrainModelResult) :
  labels_every_point ->
  trainModel priceData this = (Ok r, this') ->
  exists A B pi,
    transitionMatrix this' = Some A
    /\ emissionMatrix this' = Some B
    /\ initialProbs this' = Some pi
    /\ A = [[Fin 1; Fin 1; Fin 1; Fin 1]; [Fin 1; Fin 1; Fin 1; Fin 1];
            [Fin 1; Fin 1; Fin 1; Fin 1]; [Fin 1; Fin 1; Fin 1; Fin 1]]
    /\ (forall i, i < numStates -> row_sum A i = Fin 4)
    /\ (forall i, i < numStates -> row_sum B i = Fin 1)
    /\ nsum pi = Fin 1.
Proof.
  intros Hk E.
  assert (L : 100 <= length priceData).
  { destruct (Nat.le_gt_cases 100 (length priceData)) as [L|L]; [exact L|].
    unfold trainModel in E. change (minTrainingData config) with 100 in E.
    replace (length priceData <? 100) with true in E
      by (symmetry; now apply Nat.ltb_lt).
    discriminate E. }
  destruct (trainModel_enough priceData L) as (features & _ & Lf & Et).
  rewrite Et in E. clear Et.
  destruct (kmeans_clustering (feature_rows features) 8)
    as [[observations centroids]|] eqn:Ek; [|discriminate E].
  assert (Lo : 80 <= length observations).
  { rewrite (Hk _ _ _ _ Ek), feature_rows_length. lia. }
  set (this1 := set_clusterCenters centroids this) in E.
  unfold train_on in E.
  destruct observations as [|o rest] eqn:Eo; [cbn in Lo; lia|].
  destruct (initializeParameters_symmetric o rest this1) as (this2 & Ei & Hsym & Hadm).
  rewrite <- Eo in *.
  cbv zeta in Hsym, Hadm.
  set (b := repeat _ _) in Hsym, Hadm.
  assert (P : exists p, parameters this2 = Ok p).
  { destruct Hsym as (Epi & EA & EB & _). unfold parameters.
    rewrite Epi, EA, EB. eauto. }
  destruct P as [p P].
  destruct (@baumWelchTraining_returns _ observations this2 p) as (tr & Eb & Hit);
    [rewrite Eo; discriminate|exact P|].
  unfold bind at 1 in E. rewrite Ei in E.
  unfold bind at 1 in E. rewrite Eb in E.
  cbn in E. inversion E; subst r this'. clear E.
  assert (Hfin : symmetric 1 (frequencies observations (length b))
                   (analyzer_after observations (iterations tr) this2)).
  { apply (@analyzer_after_symmetric (1 # 4) b); try assumption; lia. }
  destruct Hfin as (Epi & EA & EB & _).
  eexists. eexists. eexists.
  cbn [transitionMatrix emissionMatrix initialProbs set_trained].
  rewrite Epi, EA, EB.
  split; [reflexivity|]. split; [reflexivity|]. split; [reflexivity|].
  split; [reflexivity|]. split; [|split].
  - intros i Li. change numStates with 4 in Li.
    do 4 (destruct i as [|i]; [reflexivity|]). lia.
  - intros i Li. unfold row_sum, emission_rows.
    replace (nth i (repeat _ numStates) [])
      with (map lit (frequencies observations (length b)))
      by (symmetry; apply nth_repeat_below; exact Li).
    change (lit 1) with (Fin 1). apply frequencies_total.
    + rewrite Eo. discriminate.
    + destruct Hadm as [_ H]. eapply Forall_impl; [|exact H].
      intros x [Hx _]. exact Hx.
  - reflexivity.
Qed.

End SymmetricTraining.

(** The theorem at a hundred candles of constant price: the training
    succeeds there, and leaves rows that sum to 4. *)
Lemma trainModel_transition_rows_sample :
  exists A B pi,
    transitionMatrix trained = Some A
    /\ emissionMatrix trained = Some B
    /\ initialProbs trained = Some pi
    /\ A = [[Fin 1; Fin 1; Fin 1; Fin 1]; [Fin 1; Fin 1; Fin 1; Fin 1];
            [Fin 1; Fin 1; Fin 1; Fin 1]; [Fin 1; Fin 1; Fin 1; Fin 1]]
    /\ (forall i, (i < numStates)%nat -> row_sum A i = Fin 4)
    /\ (forall i, (i < numStates)%nat -> row_sum B i = Fin 1)
    /\ nsum pi = Fin 1.
Proof.
  eapply (@trainModel_transition_rows sample_runtime (steady 100) constructor trained).
  - exact round_robin_labels_every_point.
  - vm_compute; reflexivity.
Defined.

(* ================================================================== *)
(** * Further properties of the two classes and of the collector *)
(* ================================================================== *)

Import HMMInfo Lifecycle Exact Scoring.

(** ** Viterbi decoding *)

Section Viterbi.

Local Open Scope nat_scope.
Context `{R : Runtime}.

Lemma argmax_bound (value : nat -> num) : snd (argmax value) < numStates.
Proof.
  unfold argmax. change numStates with 4. cbn [seq fold_left].
  repeat match goal with
         | |- context [if ?c then _ else _] => destruct c; cbn [fst snd]
         end; lia.
Qed.

Lemma viterbi_step_states (A B : matrix) (prev : list num) (o : nat) :
  length (snd (viterbi_step A B prev o)) = numStates
  /\ Forall (fun s => s < numStates) (snd (viterbi_step A B prev o)).
Proof.
  unfold viterbi_step. cbn [snd]. rewrite !length_map, length_seq.
  split; [reflexivity|].
  rewrite map_map. apply Forall_forall. intros s Hs.
  apply in_map_iff in Hs. destruct Hs as (j & <- & _). cbn [snd].
  apply argmax_bound.
Qed.

Lemma viterbi_rows_states (A B : matrix) (observations : list nat) :
  forall prev,
    length (viterbi_rows A B prev observations) = length observations
    /\ Forall (fun row => Forall (fun s => s < numStates) row)
              (map snd (viterbi_rows A B prev observations)).
Proof.
  induction observations as [|o rest IH]; intros prev; cbn [viterbi_rows].
  - split; [reflexivity|constructor].
  - destruct (IH (fst (viterbi_step A B prev o))) as [L F].
    cbn [length map]. split; [now rewrite L|].
    constructor; [apply viterbi_step_states|exact F].
Qed.

Lemma traceback_states (psi_rev : list (list nat)) :
  forall state,
    state < numStates ->
    Forall (fun row => Forall (fun s => s < numStates) row) psi_rev ->
    length (traceback psi_rev state) = S (length psi_rev)
    /\ Forall (fun s => s < numStates) (traceback psi_rev state).
Proof.
  induction psi_rev as [|row rest IH]; intros state Ls F; cbn [traceback].
  - split; [reflexivity|]. constructor; [exact Ls|constructor].
  - inversion F as [|? ? Frow Frest]; subst.
    assert (Ln : nth state row 0 < numStates).
    { destruct (Nat.lt_ge_cases state (length row)) as [Lt|Ge].
      - rewrite Forall_forall in Frow. apply Frow. now apply nth_In.
      - rewrite nth_overflow by exact Ge. cbv. lia. }
    destruct (IH _ Ln Frest) as [L F'].
    cbn [length]. split; [now rewrite L|].
    constructor; assumption.
Qed.

Lemma viterbiDecode_ok (observations : list nat) (this : HMMAnalyzer) p :
  parameters this = Ok p -> observations <> [] ->
  exists stateSequence,
    viterbiDecode observations this = Ok stateSequence
    /\ length stateSequence = length observations
    /\ Forall (fun s => s < numStates) stateSequence.
Proof.
  destruct p as [[pi A] B]. intros P Hne.
  destruct observations as [|o rest]; [congruence|].
  unfold viterbiDecode. rewrite P. cbn [rbind].
  eexists. split; [reflexivity|].
  destruct (viterbi_rows_states A B rest (viterbi_init pi B o)) as [L F].
  destruct (@traceback_states (rev (map snd (viterbi_rows A B (viterbi_init pi B o) rest)))
              (snd (argmax (fun i =>
                 nget (last (map fst (viterbi_rows A B (viterbi_init pi B o) rest))
                            (viterbi_init pi B o)) i))))
    as [L' F'].
  - apply argmax_bound.
  - apply Forall_rev. exact F.
  - split.
    + rewrite length_rev, L', length_rev, length_map, L. reflexivity.
    + apply Forall_rev. exact F'.
Qed.

(** X1. On an analyzer whose parameters are set, [viterbiDecode] returns
    one state for each observation, and every state it returns is an
    index of [states]; with no observation, or with parameters that are
    still [null], it throws. *)
Theorem viterbiDecode_states (observations : list nat) (this : HMMAnalyzer) :
  (forall p, parameters this = Ok p -> observations <> [] ->
     exists stateSequence,
       viterbiDecode observations this = Ok stateSequence
       /\ length stateSequence = length observations
       /\ Forall (fun s => s < numStates) stateSequence
       /\ Forall (fun s => nth_error states s <> None) stateSequence)
  /\ (observations = [] -> viterbiDecode observations this = Throw TypeError)
  /\ (forall e, parameters this = Throw e ->
        viterbiDecode observations this = Throw TypeError).
Proof.
  split; [|split].
  - intros p P Hne.
    destruct (@viterbiDecode_ok observations this p P Hne) as (stateSequence & E & L & F).
    exists stateSequence. split; [exact E|]. split; [exact L|]. split; [exact F|].
    eapply Forall_impl; [|exact F]. intros s Hs. cbv beta in Hs.
    apply nth_error_Some. exact Hs.
  - intros ->. unfold viterbiDecode.
    destruct (parameters this) as [[[pi A] B]|e] eqn:P; cbn [rbind]; [reflexivity|].
    apply parameters_throws in P. now subst.
  - intros e P. unfold viterbiDecode. rewrite P. cbn [rbind].
    apply parameters_throws in P. now subst.
Qed.

End Viterbi.

(** ** Exact arithmetic on finite numbers *)

Section ExactArithmetic.

Local Open Scope Q_scope.

Lemma is_q_Fin (q : Q) : is_q (Fin q) q.
Proof. exists q. split; reflexivity. Qed.

Lemma is_q_lit (q : Q) : is_q (lit q) q.
Proof. exists (Qred q). split; [reflexivity|apply Qred_correct]. Qed.

Lemma is_q_of_nat (n : nat) : is_q (of_nat n) (inject_Z (Z.of_nat n)).
Proof. apply is_q_Fin. Qed.

Lemma is_q_eq (x : num) (a b : Q) : is_q x a -> a == b -> is_q x b.
Proof. intros (q & -> & E) H. exists q. split; [reflexivity|]. now rewrite E. Qed.

Lemma is_q_finite (x : num) (a : Q) : is_q x a -> is_finite x = true.
Proof. intros (q & -> & _). reflexivity. Qed.

Lemma finite_is_q (x : num) : is_finite x = true -> exists a, is_q x a.
Proof. destruct x; try discriminate. intros _. eexists. apply is_q_Fin. Qed.

Lemma is_q_add (x y : num) (a b : Q) :
  is_q x a -> is_q y b -> is_q (x + y)%num (a + b).
Proof.
  intros (p & -> & Ep) (q & -> & Eq). exists (Qred (p + q)).
  split; [reflexivity|]. now rewrite Qred_correct, Ep, Eq.
Qed.

Lemma is_q_sub (x y : num) (a b : Q) :
  is_q x a -> is_q y b -> is_q (x - y)%num (a - b).
Proof.
  intros (p & -> & Ep) (q & -> & Eq). exists (Qred (p - q)).
  split; [reflexivity|]. now rewrite Qred_correct, Ep, Eq.
Qed.

Lemma is_q_mul (x y : num) (a b : Q) :
  is_q x a -> is_q y b -> is_q (x * y)%num (a * b).
Proof.
  intros (p & -> & Ep) (q & -> & Eq). exists (Qred (p * q)).
  split; [reflexivity|]. now rewrite Qred_correct, Ep, Eq.
Qed.

Lemma is_q_opp (x : num) (a : Q) : is_q x a -> is_q (nopp x) (- a).
Proof.
  intros (p & -> & Ep). exists (Qred (- p)).
  split; [reflexivity|]. now rewrite Qred_correct, Ep.
Qed.

Lemma is_q_abs (x : num) (a : Q) : is_q x a -> is_q (nabs x) (Qabs a).
Proof.
  intros (p & -> & Ep). exists (Qred (Qabs p)).
  split; [reflexivity|]. now rewrite Qred_correct, Ep.
Qed.

Lemma is_q_div (x y : num) (a b : Q) :
  is_q x a -> is_q y b -> ~ b == 0 -> is_q (x / y)%num (a / b).
Proof.
  intros (p & -> & Ep) (q & -> & Eq) Hb. cbn [ndiv].
  destruct (q ?= 0) eqn:C.
  - apply Qeq_alt in C. rewrite Eq in C. contradiction.
  - exists (Qred (p / q)). split; [reflexivity|]. now rewrite Qred_correct, Ep, Eq.
  - exists (Qred (p / q)). split; [reflexivity|]. now rewrite Qred_correct, Ep, Eq.
Qed.

Lemma is_q_div_zero (x y : num) (a b : Q) :
  is_q x a -> is_q y b -> b == 0 ->
  (x / y)%num = match a ?= 0 with Eq => NaN | Lt => NInf | Gt => PInf end.
Proof.
  intros (p & -> & Ep) (q & -> & Eq) Hb. cbn [ndiv].
  rewrite <- Eq in Hb. apply Qeq_alt in Hb. rewrite Hb.
  now rewrite Ep.
Qed.

Lemma is_q_compare (x y : num) (a b : Q) :
  is_q x a -> is_q y b -> ncompare x y = Some (a ?= b).
Proof.
  intros (p & -> & Ep) (q & -> & Eq). cbn [ncompare]. now rewrite Ep, Eq.
Qed.

Lemma is_q_ltb (x y : num) (a b : Q) :
  is_q x a -> is_q y b -> ((x <? y)%num = true <-> a < b).
Proof.
  intros Hx Hy. unfold nltb. rewrite (is_q_compare Hx Hy).
  rewrite Qlt_alt. destruct (a ?= b); split; congruence.
Qed.

Lemma is_q_gtb (x y : num) (a b : Q) :
  is_q x a -> is_q y b -> ((x >? y)%num = true <-> b < a).
Proof. intros Hx Hy. unfold ngtb. now apply is_q_ltb. Qed.

Lemma is_q_leb (x y : num) (a b : Q) :
  is_q x a -> is_q y b -> ((x <=? y)%num = true <-> a <= b).
Proof.
  intros Hx Hy. unfold nleb. rewrite (is_q_compare Hx Hy).
  rewrite Qle_alt. destruct (a ?= b); split; congruence.
Qed.

Lemma is_q_geb (x y : num) (a b : Q) :
  is_q x a -> is_q y b -> ((x >=? y)%num = true <-> b <= a).
Proof. intros Hx Hy. unfold ngeb. now apply is_q_leb. Qed.

Lemma is_q_eqb (x y : num) (a b : Q) :
  is_q x a -> is_q y b -> (neqb x y = true <-> a == b).
Proof.
  intros Hx Hy. unfold neqb. rewrite (is_q_compare Hx Hy).
  rewrite Qeq_alt. destruct (a ?= b); split; congruence.
Qed.

Lemma is_q_max (x y : num) (a b : Q) :
  is_q x a -> is_q y b ->
  exists m, is_q (nmax x y) m /\ a <= m /\ b <= m /\ (m == a \/ m == b).
Proof.
  intros Hx Hy. unfold nmax. rewrite (is_q_compare Hx Hy).
  destruct (a ?= b) eqn:C.
  - apply Qeq_alt in C. exists a. repeat split; auto with qarith; try lra.
  - apply Qlt_alt in C. exists b. repeat split; auto with qarith; try lra.
  - apply Qgt_alt in C. exists a. repeat split; auto with qarith; try lra.
Qed.

Lemma is_q_min (x y : num) (a b : Q) :
  is_q x a -> is_q y b ->
  exists m, is_q (nmin x y) m /\ m <= a /\ m <= b /\ (m == a \/ m == b).
Proof.
  intros Hx Hy. unfold nmin. rewrite (is_q_compare Hx Hy).
  destruct (a ?= b) eqn:C.
  - apply Qeq_alt in C. exists a. repeat split; auto with qarith; try lra.
  - apply Qlt_alt in C. exists a. repeat split; auto with qarith; try lra.
  - apply Qgt_alt in C. exists b. repeat split; auto with qarith; try lra.
Qed.

End ExactArithmetic.

(** ** How long a regime has lasted *)

Section Persistence.

Local Open Scope nat_scope.

Lemma run_length_spec (s : nat) (reversed : list nat) :
  run_length s reversed <= length reversed
  /\ Forall (fun x => x = s) (firstn (run_length s reversed) reversed)
  /\ (forall x, nth_error reversed (run_length s reversed) = Some x -> x <> s).
Proof.
  induction reversed as [|x rest IH]; cbn [run_length].
  - split; [cbn; lia|]. split; [constructor|]. intros x. cbn. discriminate.
  - destruct (x =? s) eqn:E.
    + apply Nat.eqb_eq in E. subst x. destruct IH as (L & F & M).
      cbn [length firstn nth_error]. split; [lia|]. split; [now constructor|exact M].
    + apply Nat.eqb_neq in E. cbn [length firstn nth_error].
      split; [lia|]. split; [constructor|]. intros y Hy. inversion Hy; subst. exact E.
Qed.

Lemma run_length_last (stateSequence : list nat) :
  stateSequence <> [] ->
  1 <= run_length (last stateSequence 0) (rev stateSequence).
Proof.
  intros Hne. destruct (exists_last Hne) as (front & s & ->).
  rewrite last_last, rev_app_distr. cbn [rev app run_length].
  rewrite Nat.eqb_refl. lia.
Qed.

Lemma calculateRegimePersistence_inv (stateSequence : list nat) (this : HMMAnalyzer)
    (p : Persistence) :
  calculateRegimePersistence stateSequence this = Ok p ->
  exists A row,
    transitionMatrix this = Some A
    /\ stateSequence <> []
    /\ mrow A (last stateSequence 0) = Ok row
    /\ p = {| consecutivePeriods := run_length (last stateSequence 0) (rev stateSequence);
              expectedDuration :=
                (nunit / (nunit - nget row (last stateSequence 0)))%num;
              probabilityOfContinuation := nget row (last stateSequence 0);
              stabilityScore :=
                (of_nat (run_length (last stateSequence 0) (rev stateSequence))
                 / (nunit / (nunit - nget row (last stateSequence 0))))%num |}.
Proof.
  unfold calculateRegimePersistence.
  destruct (transitionMatrix this) as [A|] eqn:EA; [|discriminate].
  destruct stateSequence as [|s rest] eqn:Es; [discriminate|]. rewrite <- Es.
  destruct (mrow A (last stateSequence 0)) as [row|e] eqn:Er; [|discriminate].
  cbn [rbind]. intros E. injection E as <-.
  exists A, row. split; [reflexivity|]. split; [rewrite Es; discriminate|].
  split; [exact Er|reflexivity].
Qed.

(** X2. [calculateRegimePersistence] returns exactly on a state
    sequence that is not empty and whose last state has a row in the
    transition matrix; on an empty sequence, on a state past the rows
    of the matrix and on a matrix that is still [null] it throws.  The
    [consecutivePeriods] it reports is the length of the run of the
    current (last) state that ends the sequence: it is at least 1 and
    at most the length of the sequence, the last [consecutivePeriods]
    states all equal the current state, and the state just before them,
    if there is one, differs from it. *)
Theorem calculateRegimePersistence_run (stateSequence : list nat) (this : HMMAnalyzer) :
  (forall A,
      transitionMatrix this = Some A -> stateSequence <> [] ->
      last stateSequence 0 < length A ->
      exists p, calculateRegimePersistence stateSequence this = Ok p)
  /\ (forall p,
        calculateRegimePersistence stateSequence this = Ok p ->
        1 <= consecutivePeriods p <= length stateSequence
        /\ Forall (fun s => s = last stateSequence 0)
                  (slice_last (consecutivePeriods p) stateSequence)
        /\ (forall s,
              consecutivePeriods p < length stateSequence ->
              nth_error stateSequence (length stateSequence - consecutivePeriods p - 1)
              = Some s ->
              s <> last stateSequence 0))
  /\ (stateSequence = [] ->
      calculateRegimePersistence stateSequence this = Throw TypeError)
  /\ (forall A,
        transitionMatrix this = Some A -> length A <= last stateSequence 0 ->
        calculateRegimePersistence stateSequence this = Throw TypeError)
  /\ (transitionMatrix this = None ->
      calculateRegimePersistence stateSequence this = Throw TypeError).
Proof.
  split; [|split; [|split; [|split]]].
  - intros A EA Hne L. unfold calculateRegimePersistence. rewrite EA.
    destruct stateSequence as [|s rest] eqn:Es; [congruence|]. rewrite <- Es in *.
    unfold mrow. destruct (nth_error A (last stateSequence 0)) as [row|] eqn:Er.
    + eexists. reflexivity.
    + apply nth_error_None in Er. lia.
  - intros p E.
    destruct (calculateRegimePersistence_inv _ _ E) as (A & row & _ & Hne & _ & ->).
    cbn [consecutivePeriods].
    set (current := last stateSequence 0).
    destruct (run_length_spec current (rev stateSequence)) as (L & F & M).
    rewrite length_rev in L.
    pose proof (run_length_last Hne) as L1. fold current in L1.
    set (k := run_length current (rev stateSequence)) in *.
    split; [lia|]. split.
    + unfold slice_last. rewrite firstn_rev in F.
      apply Forall_rev in F. rewrite rev_involutive in F. exact F.
    + intros s Lk Hs. apply (M s).
      rewrite nth_error_rev.
      replace (k <? length stateSequence) with true
        by (symmetry; apply Nat.ltb_lt; exact Lk).
      rewrite <- Hs. f_equal. lia.
  - intros ->. unfold calculateRegimePersistence.
    destruct (transitionMatrix this); reflexivity.
  - intros A EA L. unfold calculateRegimePersistence. rewrite EA.
    destruct stateSequence as [|s rest] eqn:Es; [reflexivity|]. rewrite <- Es in *.
    unfold mrow. destruct (nth_error A (last stateSequence 0)) as [row|] eqn:Er;
      [|reflexivity].
    assert (last stateSequence 0 < length A)
      by (apply nth_error_Some; rewrite Er; discriminate).
    lia.
  - intros EA. unfold calculateRegimePersistence. now rewrite EA.
Qed.

End Persistence.

Lemma calculateRegimePersistence_run_sample :
  exists p,
    calculateRegimePersistence [0; 2; 1; 1; 1]%nat initialised = Ok p
    /\ (1 <= consecutivePeriods p <= 5)%nat
    /\ Forall (fun s => s = 1%nat) (slice_last (consecutivePeriods p) [0; 2; 1; 1; 1]%nat)
    /\ (forall s,
          (consecutivePeriods p < 5)%nat ->
          nth_error [0; 2; 1; 1; 1]%nat (5 - consecutivePeriods p - 1) = Some s ->
          s <> 1%nat).
Proof.
  destruct (calculateRegimePersistence_run [0; 2; 1; 1; 1]%nat initialised)
    as (H1 & H2 & _).
  eexists. split; [vm_compute; reflexivity|].
  apply H2. vm_compute. reflexivity.
Defined.

Section Duration.

Local Open Scope Q_scope.

(** X3. What [calculateRegimePersistence] reports beside the run: the
    probability of continuation is the entry of the transition matrix
    at the current (last) state, the expected duration is
    [1 / (1 - p)] of that probability [p] and the stability score is
    the run divided by the expected duration.  A [p] of 1 (which is what
    training leaves) gives the duration +Infinity and the score 0; a
    [p] from 0 up to 1 gives a duration of at least 1 and a score
    between 0 and the length of the run; a [p] above 1 gives a negative
    duration. *)
Theorem calculateRegimePersistence_duration (stateSequence : list nat)
    (this : HMMAnalyzer) (r : Persistence) :
  calculateRegimePersistence stateSequence this = Ok r ->
  (exists A,
      transitionMatrix this = Some A
      /\ (last stateSequence 0 < length A)%nat
      /\ probabilityOfContinuation r
         = mget A (last stateSequence 0%nat) (last stateSequence 0%nat))
  /\ expectedDuration r = (nunit / (nunit - probabilityOfContinuation r))%num
  /\ stabilityScore r = (of_nat (consecutivePeriods r) / expectedDuration r)%num
  /\ forall p,
       probabilityOfContinuation r = Fin p ->
       (p == 1 -> expectedDuration r = PInf /\ stabilityScore r = nzero)
       /\ (0 <= p < 1 ->
           exists d s,
             is_q (expectedDuration r) d /\ 1 <= d
             /\ is_q (stabilityScore r) s
             /\ 0 <= s <= inject_Z (Z.of_nat (consecutivePeriods r)))
       /\ (1 < p -> exists d, is_q (expectedDuration r) d /\ d < 0).
Proof.
  intros E.
  destruct (calculateRegimePersistence_inv _ _ E) as (A & row & EA & Hne & Er & ->).
  destruct (mrow_mget _ _ Er) as [Lr Hr].
  cbn [probabilityOfContinuation expectedDuration stabilityScore consecutivePeriods].
  split; [exists A; split; [exact EA|split; [exact Lr|now rewrite Hr]]|].
  split; [reflexivity|]. split; [reflexivity|].
  intros p ->.
  set (k := run_length _ _).
  assert (D : ~ p == 1 -> is_q (nunit / (nunit - Fin p))%num (1 / (1 - p))).
  { intros Hp. apply is_q_div; [apply is_q_Fin| |lra].
    apply is_q_sub; apply is_q_Fin. }
  split; [|split].
  - intros Hp. unfold nunit, nsub.
    assert (Z0 : (Qred (1 - p) ?= 0) = Eq).
    { apply Qeq_alt. rewrite Qred_correct. lra. }
    cbn [ndiv]. rewrite Z0. cbn. split; reflexivity.
  - intros [P0 P1].
    assert (D1 : 1 <= 1 / (1 - p)) by (apply Qle_shift_div_l; lra).
    assert (K0 : 0 <= inject_Z (Z.of_nat k)).
    { change 0 with (inject_Z 0). rewrite <- Zle_Qle. lia. }
    exists (1 / (1 - p)), (inject_Z (Z.of_nat k) / (1 / (1 - p))).
    split; [apply D; lra|]. split; [exact D1|]. split.
    + apply is_q_div; [apply is_q_of_nat|apply D; lra|lra].
    + split; [apply Qle_shift_div_l; lra|apply Qle_shift_div_r; nra].
  - intros P1. exists (1 / (1 - p)). split; [apply D; lra|].
    assert (H : 1 / (1 - p) * (1 - p) == 1) by (field; lra).
    destruct (Qlt_le_dec (1 / (1 - p)) 0) as [Lt|Ge]; [exact Lt|]. nra.
Qed.

End Duration.

Lemma calculateRegimePersistence_duration_sample :
  exists r,
    calculateRegimePersistence [0; 2; 1; 1; 1]%nat trained = Ok r
    /\ consecutivePeriods r = 3%nat
    /\ probabilityOfContinuation r = Fin 1
    /\ expectedDuration r = PInf
    /\ stabilityScore r = nzero.
Proof.
  eexists. split; [vm_compute; reflexivity|].
  match goal with
  | |- consecutivePeriods ?r = _ /\ _ =>
      destruct (@calculateRegimePersistence_duration [0; 2; 1; 1; 1]%nat trained r)
        as (_ & _ & _ & H); [vm_compute; reflexivity|]
  end.
  split; [reflexivity|]. split; [reflexivity|].
  apply (H 1); [reflexivity|reflexivity].
Defined.

(** ** What the heuristic recommends *)

Section HeuristicRecommendation.

(** X4. The recommendation of the heuristic classification follows from
    its regime alone and is never an outright BUY or SELL nor a LARGE
    position: BULL gives WEAK_BUY at NORMAL size and LOW risk (its
    confidence 0.7 does not exceed 0.7), BEAR gives WEAK_SELL at SMALL
    size and HIGH risk, SIDEWAYS gives HOLD at SMALL size and MEDIUM
    risk, HIGH_VOLATILITY gives CAUTION at MINIMAL size and VERY_HIGH
    risk; the recommendation carries the regime and the confidence of
    the classification. *)
Theorem heuristicClassification_recommendation (recentData : list Candle)
    (r : RegimePrediction) :
  heuristicClassification recentData = Ok r ->
  regime (recommendation r) = currentRegime r
  /\ rec_confidence (recommendation r) = confidence r
  /\ (confidence r, action (recommendation r),
      positionSizing (recommendation r), riskLevel (recommendation r))
     = match currentRegime r with
       | Some BULL => (lit 0.7, A_WEAK_BUY, S_NORMAL, R_LOW)
       | Some BEAR => (lit 0.7, A_WEAK_SELL, S_SMALL, R_HIGH)
       | Some HIGH_VOLATILITY => (lit 0.8, A_CAUTION, S_MINIMAL, R_VERY_HIGH)
       | _ => (lit 0.6, A_HOLD, S_SMALL, R_MEDIUM)
       end
  /\ currentRegime r <> None
  /\ action (recommendation r) <> A_BUY
  /\ action (recommendation r) <> A_SELL
  /\ positionSizing (recommendation r) <> S_LARGE.
Proof.
  unfold heuristicClassification.
  destruct (ss.mean _) as [avgReturn|e]; cbn [rbind]; [|discriminate].
  destruct (ss.standardDeviation _) as [volatility|e]; cbn [rbind]; [|discriminate].
  destruct ((avgReturn >? lit 0.01) && _).
  { intros E; inversion E; subst r; clear E. vm_compute. repeat split; discriminate. }
  destruct ((avgReturn <? nopp (lit 0.01)) && _).
  { intros E; inversion E; subst r; clear E. vm_compute. repeat split; discriminate. }
  destruct (volatility >? lit 0.05).
  { intros E; inversion E; subst r; clear E. vm_compute. repeat split; discriminate. }
  intros E; inversion E; subst r; clear E. vm_compute. repeat split; discriminate.
Qed.

End HeuristicRecommendation.

Lemma heuristicClassification_recommendation_sample :
  exists r,
    heuristicClassification [candle 0 100 1000; candle 1 110 1000; candle 2 120 1000] = Ok r
    /\ regime (recommendation r) = currentRegime r
    /\ rec_confidence (recommendation r) = confidence r
    /\ (confidence r, action (recommendation r),
        positionSizing (recommendation r), riskLevel (recommendation r))
       = (lit 0.7, A_WEAK_BUY, S_NORMAL, R_LOW)
    /\ currentRegime r = Some BULL.
Proof.
  eexists. split; [vm_compute; reflexivity|].
  match goal with
  | |- context [recommendation ?r] =>
      pose proof (@heuristicClassification_recommendation
                    [candle 0 100 1000; candle 1 110 1000; candle 2 120 1000] r) as H
  end.
  destruct H as (H1 & H2 & H3 & _); [vm_compute; reflexivity|].
  split; [exact H1|]. split; [exact H2|]. split; [exact H3|]. reflexivity.
Defined.

(** ** What training and prediction write *)

Section Frames.

Local Open Scope nat_scope.
Context `{R : Runtime}.

Lemma updateParameters_bookkeeping (observations : list nat) (a b : matrix)
    (this : HMMAnalyzer) :
  bookkeeping (snd (updateParameters observations a b this)) = bookkeeping this.
Proof.
  unfold updateParameters.
  destruct (parameters this) as [[[pi A] B]|e]; reflexivity.
Qed.

Lemma baumWelchLoop_step (observations : list nat) (remaining iteration : nat)
    (prev : num) (this : HMMAnalyzer) :
  baumWelchLoop (S remaining) iteration prev observations this
  = match forwardBackward observations this with
    | Throw e => (Throw e, this)
    | Ok fb =>
        match updateParameters observations (alpha fb) (beta fb) this with
        | (Throw e, s) => (Throw e, s)
        | (Ok _, s) =>
            (if (nabs (likelihood fb - prev) <? convergenceThreshold config)%num
             then ret {| iterations := iteration + 1;
                         tr_likelihood := likelihood fb;
                         converged := true |}
             else baumWelchLoop remaining (iteration + 1) (likelihood fb) observations) s
        end
    end.
Proof.
  cbn [baumWelchLoop]. unfold bind.
  destruct (forwardBackward observations this) as [fb|e]; reflexivity.
Qed.

Lemma baumWelchLoop_bookkeeping (observations : list nat) (remaining : nat) :
  forall iteration prev this,
    bookkeeping (snd (baumWelchLoop remaining iteration prev observations this))
    = bookkeeping this.
Proof.
  induction remaining as [|remaining IH]; intros iteration prev this.
  - reflexivity.
  - rewrite baumWelchLoop_step.
    destruct (forwardBackward observations this) as [fb|e]; [|reflexivity].
    pose proof (updateParameters_bookkeeping observations (alpha fb) (beta fb) this) as U.
    destruct (updateParameters observations (alpha fb) (beta fb) this)
      as [[[]|e] this1]; cbn [snd] in U; [|exact U].
    destruct (nabs (likelihood fb - prev) <? convergenceThreshold config)%num.
    + exact U.
    + rewrite IH. exact U.
Qed.

Lemma parameters_learned (a b : HMMAnalyzer) :
  learned a = learned b -> parameters a = parameters b.
Proof.
  unfold learned, parameters. intros E. inversion E as [[E1 E2 E3 E4]].
  now rewrite E1, E2, E3.
Qed.

Lemma forwardBackward_learned (observations : list nat) (a b : HMMAnalyzer) :
  learned a = learned b ->
  forwardBackward observations a = forwardBackward observations b.
Proof.
  intros E. unfold forwardBackward. now rewrite (parameters_learned E).
Qed.

Lemma updateParameters_learned (observations : list nat) (al be : matrix)
    (a b : HMMAnalyzer) :
  learned a = learned b ->
  fst (updateParameters observations al be a) = fst (updateParameters observations al be b)
  /\ learned (snd (updateParameters observations al be a))
     = learned (snd (updateParameters observations al be b)).
Proof.
  intros E. unfold updateParameters. rewrite (parameters_learned E).
  destruct (parameters b) as [[[pi A] B]|e]; cbn [fst snd]; [|split; [reflexivity|exact E]].
  split; [reflexivity|].
  unfold learned in *. inversion E as [[E1 E2 E3 E4]].
  cbn [transitionMatrix emissionMatrix initialProbs numSymbols
       set_emissionMatrix set_transitionMatrix set_initialProbs].
  now rewrite E4.
Qed.

Lemma baumWelchLoop_learned (observations : list nat) (remaining : nat) :
  forall iteration prev a b,
    learned a = learned b ->
    fst (baumWelchLoop remaining iteration prev observations a)
    = fst (baumWelchLoop remaining iteration prev observations b)
    /\ learned (snd (baumWelchLoop remaining iteration prev observations a))
       = learned (snd (baumWelchLoop remaining iteration prev observations b)).
Proof.
  induction remaining as [|remaining IH]; intros iteration prev a b E.
  - cbn [baumWelchLoop ret fst snd]. split; [reflexivity|exact E].
  - rewrite !baumWelchLoop_step.
    rewrite (forwardBackward_learned observations E).
    destruct (forwardBackward observations b) as [fb|e];
      [|cbn [fst snd]; split; [reflexivity|exact E]].
    destruct (updateParameters_learned observations (alpha fb) (beta fb) E)
      as [U1 U2].
    destruct (updateParameters observations (alpha fb) (beta fb) a) as [[[]|e1] a1];
      destruct (updateParameters observations (alpha fb) (beta fb) b) as [[[]|e2] b1];
      cbn [fst snd] in U1, U2; try discriminate U1.
    + destruct (nabs (likelihood fb - prev) <? convergenceThreshold config)%num.
      * cbn [ret fst snd]. split; [reflexivity|exact U2].
      * apply IH. exact U2.
    + inversion U1; subst. cbn [fst snd]. split; [reflexivity|exact U2].
Qed.

Lemma train_on_eq (priceData : list Candle) (observations : list nat)
    (this : HMMAnalyzer) :
  train_on priceData observations this
  = match initializeParameters observations this with
    | (Throw e, s2) => (Throw e, s2)
    | (Ok _, s2) =>
        match baumWelchTraining observations s2 with
        | (Ok tr, s3) =>
            (Ok {| success := true;
                   tm_iterations := iterations tr;
                   tm_likelihood := tr_likelihood tr;
                   tm_converged := converged tr;
                   tm_states := states |},
             set_trained {| tr_timestamp := Date_now;
                            dataPoints := length priceData;
                            tr_iterations := iterations tr;
                            finalLikelihood := tr_likelihood tr;
                            convergence := converged tr |} s3)
        | (Throw e, s3) => (Throw e, s3)
        end
    end.
Proof.
  unfold train_on, bind.
  destruct (initializeParameters observations this) as [[[]|e] s2]; [|reflexivity].
  destruct (baumWelchTraining observations s2) as [[tr|e] s3]; reflexivity.
Qed.

(** The outcome of the steps after the clustering. *)
Lemma train_on_outcome (priceData : list Candle) (observations : list nat)
    (this : HMMAnalyzer) :
  (exists s, train_on priceData observations this = (Throw TypeError, s)
             /\ bookkeeping s = bookkeeping this
             /\ (forall p, parameters this = Ok p -> exists p', parameters s = Ok p'))
  \/ (exists tr s p,
        train_on priceData observations this
        = (Ok {| success := true;
                 tm_iterations := iterations tr;
                 tm_likelihood := tr_likelihood tr;
                 tm_converged := converged tr;
                 tm_states := states |},
           set_trained {| tr_timestamp := Date_now;
                          dataPoints := length priceData;
                          tr_iterations := iterations tr;
                          finalLikelihood := tr_likelihood tr;
                          convergence := converged tr |} s)
        /\ parameters s = Ok p
        /\ bookkeeping s = bookkeeping this
        /\ 1 <= iterations tr <= maxIterations config).
Proof.
  rewrite train_on_eq.
  destruct observations as [|o rest].
  - left. eexists. split; [reflexivity|]. split; [reflexivity|].
    intros [[pi A] B] P. unfold parameters in *.
    cbn [initialProbs transitionMatrix emissionMatrix set_transitionMatrix].
    destruct (initialProbs this), (transitionMatrix this), (emissionMatrix this);
      try discriminate P. eauto.
  - right.
    destruct (initializeParameters_nonempty o rest this) as (s2 & p & Ei & P & T).
    assert (B2 : bookkeeping s2 = bookkeeping this).
    { unfold initializeParameters, bind, write in Ei. cbn in Ei.
      inversion Ei. reflexivity. }
    rewrite Ei.
    assert (Hne : o :: rest <> []) by discriminate.
    destruct (@baumWelchLoop_spec R (o :: rest) s2 p Hne P (maxIterations config) 0)
      as (tr & Eb & Lit & L1 & _); [intros n Hn; lia|].
    change (previous_likelihood (o :: rest) 0 s2) with NInf in Eb.
    change (analyzer_after (o :: rest) 0 s2) with s2 in Eb.
    fold (baumWelchTraining (o :: rest)) in Eb.
    assert (Lit' : 1 <= iterations tr <= maxIterations config).
    { assert (maxIterations config <> 0) by (cbv; discriminate).
      specialize (L1 H). lia. }
    rewrite Eb.
    pose proof (baumWelchLoop_bookkeeping (o :: rest) (maxIterations config) 0 NInf s2) as Bk.
    unfold baumWelchTraining in Eb. rewrite Eb in Bk. cbn [snd] in Bk.
    destruct (@analyzer_after_parameters R (o :: rest) (iterations tr) s2 p P) as [p' P'].
    exists tr, (analyzer_after (o :: rest) (iterations tr) s2), p'.
    split; [reflexivity|]. split; [exact P'|].
    split; [now rewrite Bk|exact Lit'].
Qed.

(** The outcome of training on a hundred candles or more. *)
Lemma trainModel_outcome (priceData : list Candle) :
  100 <= length priceData ->
  forall this,
    (exists e s, trainModel priceData this = (Throw e, s)
                 /\ bookkeeping s
                    = (clusterCenters s, isTrained this, trainingHistory this)
                 /\ (forall p, parameters this = Ok p -> exists p', parameters s = Ok p'))
    \/ (exists tr s p,
          trainModel priceData this
          = (Ok {| success := true;
                   tm_iterations := iterations tr;
                   tm_likelihood := tr_likelihood tr;
                   tm_converged := converged tr;
                   tm_states := states |},
             set_trained {| tr_timestamp := Date_now;
                            dataPoints := length priceData;
                            tr_iterations := iterations tr;
                            finalLikelihood := tr_likelihood tr;
                            convergence := converged tr |} s)
          /\ parameters s = Ok p
          /\ isTrained s = isTrained this
          /\ trainingHistory s = trainingHistory this
          /\ 1 <= iterations tr <= maxIterations config).
Proof.
  intros L this.
  destruct (trainModel_enough priceData L) as (features & _ & _ & E).
  rewrite E. clear E.
  destruct (kmeans_clustering _ 8) as [[observations centroids]|].
  - destruct (train_on_outcome priceData observations (set_clusterCenters centroids this))
      as [(s & E & B & P)|(tr & s & p & E & P & B & Lit)]; rewrite E.
    + left. exists TypeError, s. split; [reflexivity|].
      unfold bookkeeping in *.
      cbn [isTrained trainingHistory clusterCenters set_clusterCenters] in B.
      inversion B as [[B1 B2 B3]]. split; [reflexivity|exact P].
    + right. exists tr, s, p. split; [reflexivity|]. split; [exact P|].
      unfold bookkeeping in B.
      cbn [isTrained trainingHistory clusterCenters set_clusterCenters] in B.
      inversion B as [[B1 B2 B3]]. split; [reflexivity|]. split; [reflexivity|exact Lit].
  - left. exists ClusteringError, this. split; [reflexivity|].
    split; [reflexivity|]. eauto.
Qed.

(** ** The rows of the transition matrix *)









End Frames.

Section TrainingRecords.

Local Open Scope nat_scope.
Context `{R : Runtime}.

(** X5. A call of [trainModel] that returns has set [isTrained] and has
    appended exactly one record to [trainingHistory]: it holds the
    number of candles and the iterations, likelihood and convergence
    flag of the result, whose iteration count is between 1 and 50.  A
    call that throws leaves [isTrained] and [trainingHistory] as they
    were. *)
Theorem trainModel_history (priceData : list Candle) (this : HMMAnalyzer) :
  match trainModel priceData this with
  | (Ok r, this') =>
      isTrained this' = true
      /\ trainingHistory this'
         = trainingHistory this
           ++ [{| tr_timestamp := Date_now;
                  dataPoints := length priceData;
                  tr_iterations := tm_iterations r;
                  finalLikelihood := tm_likelihood r;
                  convergence := tm_converged r |}]
      /\ success r = true
      /\ tm_states r = states
      /\ 1 <= tm_iterations r <= 50
      /\ 100 <= length priceData
  | (Throw e, this') =>
      isTrained this' = isTrained this
      /\ trainingHistory this' = trainingHistory this
  end.
Proof.
  destruct (Nat.lt_ge_cases (length priceData) 100) as [L|L].
  - unfold trainModel. change (minTrainingData config) with 100.
    replace (length priceData <? 100) with true
      by (symmetry; apply Nat.ltb_lt; exact L).
    split; reflexivity.
  - destruct (trainModel_outcome priceData L this)
      as [(e & s & E & B & _)|(tr & s & p & E & P & T & H & Lit)]; rewrite E.
    + unfold bookkeeping in B. split; congruence.
    + cbn [isTrained trainingHistory set_trained success tm_states tm_iterations
           tm_likelihood tm_converged].
      rewrite H. change (maxIterations config) with 50 in Lit.
      repeat (split; try reflexivity); try lia.
Qed.

(** X6. Training starts from scratch.  When [trainModel] returns, the
    cluster centres it leaves are the centroids the clustering of the
    feature vectors returned, and the parameters it leaves (transition
    matrix, emission matrix, initial probabilities, number of symbols)
    and the result it reports are those that [initializeParameters]
    and [baumWelchTraining] compute from the labels of that clustering
    on a new analyzer: nothing of what the analyzer had learned before
    enters them. *)
Theorem trainModel_from_scratch (priceData : list Candle) (this this' : HMMAnalyzer)
    (r : TrainModelResult) :
  trainModel priceData this = (Ok r, this') ->
  exists features observations centroids tr,
    extractHMMFeatures priceData = Ok features
    /\ kmeans_clustering (feature_rows features) 8 = Some (observations, centroids)
    /\ clusterCenters this' = Some centroids
    /\ baumWelchTraining observations (snd (initializeParameters observations constructor))
       = (Ok tr, snd (baumWelchTraining observations
                        (snd (initializeParameters observations constructor))))
    /\ learned this'
       = learned (snd (baumWelchTraining observations
                         (snd (initializeParameters observations constructor))))
    /\ r = {| success := true;
              tm_iterations := iterations tr;
              tm_likelihood := tr_likelihood tr;
              tm_converged := converged tr;
              tm_states := states |}.
Proof.
  intros E.
  assert (L : 100 <= length priceData).
  { destruct (Nat.le_gt_cases 100 (length priceData)) as [L|L]; [exact L|].
    unfold trainModel in E. change (minTrainingData config) with 100 in E.
    replace (length priceData <? 100) with true in E
      by (symmetry; now apply Nat.ltb_lt).
    discriminate E. }
  destruct (trainModel_enough priceData L) as (features & Ef & _ & Et).
  rewrite Et in E. clear Et.
  destruct (kmeans_clustering (feature_rows features) 8)
    as [[observations centroids]|] eqn:Ek; [|discriminate E].
  rewrite train_on_eq in E.
  destruct observations as [|o rest]; [discriminate E|].
  set (a := set_clusterCenters centroids this) in E.
  destruct (initializeParameters_nonempty o rest a) as (a2 & pa & Ea & Pa & _).
  destruct (initializeParameters_nonempty o rest constructor) as (b2 & pb & Eb & Pb & _).
  assert (E2 : learned a2 = learned b2 /\ clusterCenters a2 = Some centroids).
  { unfold initializeParameters, bind, write in Ea, Eb. cbn in Ea, Eb.
    inversion Ea. inversion Eb. split; reflexivity. }
  destruct E2 as [E2 C2].
  rewrite Ea in E.
  destruct (baumWelchLoop_learned (o :: rest) (maxIterations config) 0 NInf E2)
    as [F1 F2].
  pose proof (baumWelchLoop_bookkeeping (o :: rest) (maxIterations config) 0 NInf a2) as Ba.
  fold (baumWelchTraining (o :: rest)) in F1, F2, Ba.
  destruct (baumWelchTraining (o :: rest) a2) as [[tra|ea] a3]; [|discriminate E].
  inversion E; subst r this'. clear E.
  exists features, (o :: rest), centroids, tra.
  rewrite Eb. cbn [snd].
  destruct (baumWelchTraining (o :: rest) b2) as [[trb|eb] b3];
    cbn [fst snd] in *; [|discriminate F1].
  inversion F1; subst trb.
  split; [exact Ef|]. split; [exact Ek|].
  unfold bookkeeping in Ba. split; [cbn [clusterCenters set_trained]; congruence|].
  split; [reflexivity|]. split; [exact F2|reflexivity].
Qed.

End TrainingRecords.

Lemma trainModel_from_scratch_sample :
  exists features observations centroids tr,
    extractHMMFeatures (steady 100) = Ok features
    /\ kmeans_clustering (feature_rows features) 8 = Some (observations, centroids)
    /\ clusterCenters trained = Some centroids
    /\ baumWelchTraining observations (snd (initializeParameters observations constructor))
       = (Ok tr, snd (baumWelchTraining observations
                        (snd (initializeParameters observations constructor))))
    /\ learned trained
       = learned (snd (baumWelchTraining observations
                         (snd (initializeParameters observations constructor))))
    /\ fst (trainModel (steady 100) constructor)
       = Ok {| success := true;
               tm_iterations := iterations tr;
               tm_likelihood := tr_likelihood tr;
               tm_converged := converged tr;
               tm_states := states |}.
Proof.
  destruct (trainModel (steady 100) constructor) as [[r|e] this'] eqn:E;
    [|vm_compute in E; discriminate E].
  assert (Es : this' = trained) by (unfold trained; now rewrite E).
  subst this'.
  destruct (@trainModel_from_scratch sample_runtime (steady 100) constructor trained r E)
    as (features & observations & centroids & tr & H1 & H2 & H3 & H4 & H5 & H6).
  exists features, observations, centroids, tr.
  cbn [fst]. rewrite <- H6. repeat (split; [assumption|]). reflexivity.
Defined.

(** ** What a prediction needs and what it leaves *)

Section PredictionFrames.

Local Open Scope nat_scope.
Context `{R : Runtime}.

Lemma discretizeObservations_eq (features : list FeatureVector) (this : HMMAnalyzer) :
  discretizeObservations features this
  = match kmeans (map (fun f => [meanReturn f; returnVolatility f; priceChange f;
                                 HMM.volumeRatio f; momentum f]) features) 8 with
    | Ok kmResult => (Ok (fst kmResult), set_clusterCenters (snd kmResult) this)
    | Throw e => (Throw e, this)
    end.
Proof.
  unfold discretizeObservations, bind, lift, write, ret.
  destruct (kmeans _ 8); reflexivity.
Qed.

Lemma predictTrained_state (recentData : list Candle) (this : HMMAnalyzer) :
  snd (predictTrained recentData this) = this
  \/ exists centroids,
       snd (predictTrained recentData this) = set_clusterCenters centroids this.
Proof.
  unfold predictTrained, bind, lift.
  destruct (extractHMMFeatures recentData) as [fs|e]; [|left; reflexivity].
  rewrite discretizeObservations_eq.
  destruct (kmeans _ 8) as [[labels centroids]|e]; [|left; reflexivity].
  right. exists centroids. unfold ret. cbn [fst snd].
  repeat match goal with
         | |- context [match ?x with Ok _ => _ | Throw _ => _ end] => destruct x
         end; reflexivity.
Qed.

Lemma predictMarketRegime_trained_eq (recentData : list Candle) (this : HMMAnalyzer) :
  isTrained this = true ->
  predictMarketRegime recentData this
  = match predictTrained recentData this with
    | (Ok r, s) => (Ok r, s)
    | (Throw _, s) => (heuristicClassification recentData, s)
    end.
Proof.
  intros T. unfold predictMarketRegime, try_catch, bind, read, lift.
  rewrite T. cbn [negb].
  destruct (predictTrained recentData this) as [[r|e] s]; reflexivity.
Qed.

Lemma predictMarketRegime_state (recentData : list Candle) (this : HMMAnalyzer) :
  snd (predictMarketRegime recentData this) = this
  \/ (isTrained this = true
      /\ exists centroids,
           snd (predictMarketRegime recentData this)
           = set_clusterCenters centroids this).
Proof.
  destruct (isTrained this) eqn:T.
  - rewrite (predictMarketRegime_trained_eq recentData this T).
    destruct (predictTrained_state recentData this) as [E|(c & E)].
    + left. destruct (predictTrained recentData this) as [[r|e] s];
        cbn [snd] in *; subst; reflexivity.
    + right. split; [reflexivity|]. exists c.
      destruct (predictTrained recentData this) as [[r|e] s];
        cbn [snd] in *; subst; reflexivity.
  - left. now rewrite (predictMarketRegime_untrained_eq recentData this T).
Qed.

(** A trained analyzer given fewer than 28 candles has fewer than the
    8 feature vectors that the clustering asks for. *)
Lemma predictTrained_short (recentData : list Candle) (this : HMMAnalyzer) :
  length recentData < 28 ->
  predictTrained recentData this = (Throw KMeansArgument, this).
Proof.
  intros L. unfold predictTrained.
  destruct (extractHMMFeatures_ok recentData) as (fs & Efs & Lfs).
  unfold bind, lift. rewrite Efs, discretizeObservations_eq.
  unfold kmeans. rewrite length_map.
  replace (length fs <? 8) with true by (symmetry; apply Nat.ltb_lt; lia).
  reflexivity.
Qed.

Lemma predictMarketRegime_short_eq (recentData : list Candle) (this : HMMAnalyzer) :
  length recentData < 28 ->
  predictMarketRegime recentData this = (heuristicClassification recentData, this).
Proof.
  intros L. destruct (isTrained this) eqn:T.
  - rewrite (predictMarketRegime_trained_eq recentData this T).
    rewrite (@predictTrained_short recentData this L). reflexivity.
  - now apply predictMarketRegime_untrained_eq.
Qed.

(** X7. [predictMarketRegime] never changes what training learned:
    after the call, whether it returned or threw, the transition
    matrix, the emission matrix, the initial probabilities and the
    number of symbols are those before it, as are [isTrained] and
    [trainingHistory]; an analyzer that is not trained is left entirely
    as it was, and the only field a trained one can lose is
    [clusterCenters], replaced by the centroids of the recent data. *)
Theorem predictMarketRegime_frame (recentData : list Candle) (this : HMMAnalyzer) :
  let this' := snd (predictMarketRegime recentData this) in
  learned this' = learned this
  /\ isTrained this' = isTrained this
  /\ trainingHistory this' = trainingHistory this
  /\ (isTrained this = false -> this' = this)
  /\ (this' = this \/ exists centroids, this' = set_clusterCenters centroids this).
Proof.
  cbv zeta.
  destruct (predictMarketRegime_state recentData this) as [E|(T & c & E)]; rewrite E.
  - repeat split; auto.
  - repeat split; eauto. intros F. congruence.
Qed.

(** X8. With fewer than 28 candles [predictMarketRegime] is the
    heuristic classification, on a trained analyzer too: the windows of
    20 candles leave fewer than the 8 feature vectors that the
    clustering into 8 symbols needs, so the trained path throws and the
    fallback answers; the analyzer is left as it was. *)
Theorem predictMarketRegime_short (recentData : list Candle) (this : HMMAnalyzer) :
  length recentData < 28 ->
  predictMarketRegime recentData this = (heuristicClassification recentData, this)
  /\ (isTrained this = true ->
      predictTrained recentData this = (Throw KMeansArgument, this))
  /\ (forall r, fst (predictMarketRegime recentData this) = Ok r ->
        method r = Some HEURISTIC /\ nextStateProbabilities r = None).
Proof.
  intros L. rewrite (@predictMarketRegime_short_eq recentData this L).
  split; [reflexivity|]. split; [intros _; now apply predictTrained_short|].
  cbn [fst]. intros r E.
  destruct (Nat.lt_ge_cases (length recentData) 2) as [L2|L2].
  - rewrite (heuristicClassification_short recentData L2) in E. discriminate E.
  - destruct (heuristicClassification_ok recentData L2) as (r' & E' & M & N & _).
    rewrite E' in E. inversion E; subst. split; assumption.
Qed.

Lemma predictMarketRegime_enough (recentData : list Candle) (this : HMMAnalyzer) :
  2 <= length recentData ->
  exists r this', predictMarketRegime recentData this = (Ok r, this').
Proof.
  intros L. destruct (heuristicClassification_ok recentData L) as (r & E & _).
  destruct (isTrained this) eqn:T.
  - rewrite (predictMarketRegime_trained_eq recentData this T).
    destruct (predictTrained recentData this) as [[r'|e] s].
    + eauto.
    + rewrite E. eauto.
  - rewrite (predictMarketRegime_untrained_eq recentData this T), E. eauto.
Qed.

Lemma predictMarketRegime_too_short (recentData : list Candle) (this : HMMAnalyzer) :
  length recentData < 2 ->
  predictMarketRegime recentData this = (Throw EmptySample, this).
Proof.
  intros L. rewrite predictMarketRegime_short_eq by lia.
  now rewrite (heuristicClassification_short recentData L).
Qed.

(** X9. [predictMarketRegime] raises exactly on a series of fewer than
    two candles, whatever the analyzer: on two candles or more it
    returns a prediction, from the model or from the heuristic, and on
    fewer it throws what simple-statistics throws on the mean of no
    return. *)
Theorem predictMarketRegime_returns (recentData : list Candle) (this : HMMAnalyzer) :
  (2 <= length recentData ->
   exists r this', predictMarketRegime recentData this = (Ok r, this'))
  /\ (length recentData < 2 ->
      predictMarketRegime recentData this = (Throw EmptySample, this)).
Proof.
  split.
  - apply predictMarketRegime_enough.
  - apply predictMarketRegime_too_short.
Qed.

End PredictionFrames.

Lemma predictMarketRegime_short_sample :
  predictMarketRegime (steady 27) trained = (heuristicClassification (steady 27), trained)
  /\ (isTrained trained = true ->
      predictTrained (steady 27) trained = (Throw KMeansArgument, trained))
  /\ (forall r, fst (predictMarketRegime (steady 27) trained) = Ok r ->
        method r = Some HEURISTIC /\ nextStateProbabilities r = None).
Proof.
  apply (@predictMarketRegime_short sample_runtime (steady 27) trained).
  vm_compute. reflexivity.
Defined.

(** ** The analyzers a program can hold *)

Section Reachable.

Local Open Scope nat_scope.
Context `{R : Runtime}.

Lemma reachable_invariant (this : HMMAnalyzer) :
  reachable this ->
  (isTrained this = true -> exists p, parameters this = Ok p)
  /\ (isTrained this = true <-> trainingHistory this <> []).
Proof.
  induction 1 as [|priceData this H [IH1 IH2]|recentData this H [IH1 IH2]].
  - split; [discriminate|]. split; [discriminate|]. intros F. now contradiction F.
  - destruct (Nat.lt_ge_cases (length priceData) 100) as [L|L].
    + unfold trainModel. change (minTrainingData config) with 100.
      replace (length priceData <? 100) with true
        by (symmetry; apply Nat.ltb_lt; exact L).
      cbn [snd throw]. split; assumption.
    + destruct (trainModel_outcome priceData L this)
        as [(e & s & E & B & P)|(tr & s & p & E & P & T & Hh & _)];
        rewrite E; cbn [snd].
      * unfold bookkeeping in B.
        assert (T : isTrained s = isTrained this) by congruence.
        assert (Hh : trainingHistory s = trainingHistory this) by congruence.
        rewrite T, Hh. split; [|exact IH2].
        intros Tr. destruct (IH1 Tr) as [p Hp]. exact (P p Hp).
      * split.
        -- intros _. exists p. exact P.
        -- cbn [isTrained trainingHistory set_trained]. split; [|reflexivity].
           intros _ F. apply app_eq_nil in F. destruct F as [_ F]. discriminate F.
  - destruct (predictMarketRegime_state recentData this) as [E|(_ & c & E)];
      rewrite E; [split; assumption|].
    split; assumption.
Qed.


Lemma getModelInfo_ok (this : HMMAnalyzer) :
  reachable this ->
  exists info, getModelInfo this = Ok info /\ mi_isTrained info = isTrained this.
Proof.
  intros H. destruct (reachable_invariant H) as [I1 _].
  unfold getModelInfo. destruct (isTrained this) eqn:T.
  - destruct (I1 eq_refl) as [[[pi A] B] P]. unfold parameters in P.
    destruct (initialProbs this); [|discriminate P].
    destruct (transitionMatrix this); [|discriminate P].
    destruct (emissionMatrix this); [|discriminate P].
    eexists. split; reflexivity.
  - eexists. split; reflexivity.
Qed.

(** X10. On every analyzer that a program can hold (a new one, or what
    any sequence of [trainModel] and [predictMarketRegime] calls leaves
    of it, whether they returned or threw), [getModelInfo] returns: it
    reports the trained flag and the training history, no parameters
    while the analyzer is not trained, and the three parameter sets
    once it is.  On such an analyzer [isTrained] holds exactly when the
    training history is not empty. *)
Theorem getModelInfo_reachable (this : HMMAnalyzer) :
  reachable this ->
  exists info,
    getModelInfo this = Ok info
    /\ mi_isTrained info = isTrained this
    /\ mi_trainingHistory info = trainingHistory this
    /\ (isTrained this = true <-> trainingHistory this <> [])
    /\ (isTrained this = false -> mi_parameters info = None)
    /\ (isTrained this = true ->
        exists pi A B,
          parameters this = Ok (pi, A, B)
          /\ mi_parameters info
             = Some {| mp_transitionMatrix := A;
                       mp_emissionMatrix := B;
                       mp_initialProbs := Some pi |}).
Proof.
  intros H. destruct (reachable_invariant H) as [I1 I2].
  unfold getModelInfo. destruct (isTrained this) eqn:T.
  - destruct (I1 eq_refl) as [[[pi A] B] P].
    unfold parameters in P.
    destruct (initialProbs this) as [pi'|] eqn:Epi; [|discriminate P].
    destruct (transitionMatrix this) as [A'|] eqn:EA; [|discriminate P].
    destruct (emissionMatrix this) as [B'|] eqn:EB; [|discriminate P].
    inversion P; subst. eexists. split; [reflexivity|].
    cbn [mi_isTrained mi_trainingHistory mi_parameters].
    split; [reflexivity|]. split; [reflexivity|]. split; [exact I2|].
    split; [discriminate|]. intros _. exists pi, A, B.
    split; [|reflexivity]. unfold parameters. now rewrite Epi, EA, EB.
  - eexists. split; [reflexivity|].
    cbn [mi_isTrained mi_trainingHistory mi_parameters].
    split; [reflexivity|]. split; [reflexivity|]. split; [exact I2|].
    split; [reflexivity|discriminate].
Qed.

End Reachable.

Lemma getModelInfo_reachable_sample :
  exists info,
    getModelInfo trained = Ok info
    /\ mi_isTrained info = isTrained trained
    /\ mi_trainingHistory info = trainingHistory trained
    /\ (isTrained trained = true <-> trainingHistory trained <> [])
    /\ (isTrained trained = false -> mi_parameters info = None)
    /\ (isTrained trained = true ->
        exists pi A B,
          parameters trained = Ok (pi, A, B)
          /\ mi_parameters info
             = Some {| mp_transitionMatrix := A;
                       mp_emissionMatrix := B;
                       mp_initialProbs := Some pi |}).
Proof.
  apply (@getModelInfo_reachable sample_runtime trained).
  exact (@reachable_train sample_runtime (steady 100) constructor
           (@reachable_new sample_runtime)).
Defined.

(** ** The feature vectors of a series *)

Section FeatureWindows.

Local Open Scope nat_scope.

Lemma map_result_ext {A B : Type} (f g : A -> result B) (xs : list A) :
  (forall x, In x xs -> f x = g x) -> map_result f xs = map_result g xs.
Proof.
  induction xs as [|x rest IH]; intros H; cbn [map_result]; [reflexivity|].
  rewrite (H x (or_introl eq_refl)), IH; [reflexivity|].
  intros y Hy. apply H. now right.
Qed.

Lemma map_result_nth {A B : Type} (f : A -> result B) (xs : list A) :
  forall ys, map_result f xs = Ok ys ->
    forall k x, nth_error xs k = Some x ->
      exists y, nth_error ys k = Some y /\ f x = Ok y.
Proof.
  induction xs as [|x0 rest IH]; intros ys E k x Hk.
  - destruct k; discriminate Hk.
  - cbn [map_result] in E.
    destruct (f x0) as [y0|e] eqn:E0; cbn [rbind] in E; [|discriminate E].
    destruct (map_result f rest) as [ys'|e] eqn:E1; cbn [rbind] in E; [|discriminate E].
    inversion E; subst ys. destruct k as [|k].
    + inversion Hk; subst. exists y0. split; [reflexivity|exact E0].
    + cbn [nth_error] in *. eapply IH; [reflexivity|exact Hk].
Qed.

Lemma windowFeatures_timestamp (window : list Candle) (ts : option Z) (f : FeatureVector) :
  windowFeatures window ts = Ok f -> fv_timestamp f = ts.
Proof.
  unfold windowFeatures.
  repeat match goal with
         | |- context [rbind ?c _] =>
             destruct c; cbn [rbind]; [|discriminate]
         end.
  intros E. inversion E. reflexivity.
Qed.

(** X11. [extractHMMFeatures] never throws.  It returns one feature
    vector for each candle from the 21st on (none for a series of 20
    candles or fewer); the vector of candle [i] carries the timestamp
    of candle [i] and is computed from the window of the 20 candles
    before it, candle [i] itself excluded. *)
Theorem extractHMMFeatures_windows (priceData : list Candle) :
  exists fs,
    extractHMMFeatures priceData = Ok fs
    /\ length fs = length priceData - 20
    /\ forall k c,
         nth_error priceData (20 + k) = Some c ->
         exists f,
           nth_error fs k = Some f
           /\ windowFeatures (slice k (20 + k) priceData) (Some (timestamp c)) = Ok f
           /\ fv_timestamp f = Some (timestamp c)
           /\ length (slice k (20 + k) priceData) = 20.
Proof.
  destruct (extractHMMFeatures_ok priceData) as (fs & E & L).
  exists fs. split; [exact E|]. split; [exact L|].
  intros k c Hc.
  assert (Lk : 20 + k < length priceData).
  { apply nth_error_Some. rewrite Hc. discriminate. }
  unfold extractHMMFeatures in E. change (windowSize config) with 20 in E.
  destruct (map_result_nth _ _ E k (x := 20 + k)) as (f & Hf & Ef).
  { rewrite nth_error_seq.
    replace (k <? length priceData - 20) with true
      by (symmetry; apply Nat.ltb_lt; lia).
    reflexivity. }
  cbv beta in Ef. rewrite Hc in Ef. cbn [option_map] in Ef.
  replace (20 + k - 20) with k in Ef by lia.
  exists f. split; [exact Hf|]. split; [exact Ef|].
  split; [exact (windowFeatures_timestamp _ _ Ef)|].
  rewrite slice_length; lia.
Qed.

Lemma slice_app_l {A : Type} (from to : nat) (xs ys : list A) :
  to <= length xs -> slice from to (xs ++ ys) = slice from to xs.
Proof.
  intros L. unfold slice.
  destruct (Nat.le_gt_cases from (length xs)) as [Lf|Lf].
  - rewrite skipn_app. replace (from - length xs) with 0 by lia.
    cbn [skipn]. rewrite firstn_app.
    rewrite length_skipn. replace (to - from - (length xs - from)) with 0 by lia.
    cbn [firstn]. now rewrite app_nil_r.
  - replace (to - from) with 0 by lia. reflexivity.
Qed.

(** X12. The features do not look at the newest candle: replacing the
    last candle of a series by any candle with the same timestamp
    leaves the result of [extractHMMFeatures] unchanged (each window
    ends just before the candle whose timestamp it carries). *)
Theorem extractHMMFeatures_newest_candle (priceData : list Candle) (c c' : Candle) :
  timestamp c = timestamp c' ->
  extractHMMFeatures (priceData ++ [c]) = extractHMMFeatures (priceData ++ [c']).
Proof.
  intros Et. unfold extractHMMFeatures. rewrite !length_app. cbn [length].
  apply map_result_ext. intros i Hi. apply in_seq in Hi.
  change (windowSize config) with 20 in *.
  rewrite !slice_app_l by lia. f_equal.
  destruct (Nat.lt_ge_cases i (length priceData)) as [Li|Li].
  - now rewrite !nth_error_app1 by exact Li.
  - assert (i = length priceData) by lia. subst i.
    rewrite !nth_error_app2 by lia. rewrite Nat.sub_diag. cbn. now rewrite Et.
Qed.

End FeatureWindows.

Lemma extractHMMFeatures_newest_candle_sample :
  extractHMMFeatures (steady 24 ++ [candle 24 100 1024])
  = extractHMMFeatures (steady 24 ++ [candle 24 555 7]).
Proof.
  apply (@extractHMMFeatures_newest_candle (steady 24) (candle 24 100 1024) (candle 24 555 7)).
  reflexivity.
Defined.

(** ** Sums and means of finite numbers *)

Section ExactSums.

Local Open Scope Q_scope.

Lemma are_q_exists (P : Q -> Prop) (xs : list num) :
  Forall (fun x => exists q, is_q x q /\ P q) xs ->
  exists qs, are_q xs qs /\ Forall P qs.
Proof.
  induction 1 as [|x rest (q & Hq & Pq) _ (qs & Hqs & Pqs)].
  - exists []. split; constructor.
  - exists (q :: qs). split; constructor; assumption.
Qed.

Lemma are_q_length (xs : list num) (qs : list Q) :
  are_q xs qs -> length xs = length qs.
Proof. induction 1; cbn; congruence. Qed.

Lemma Qsum_nonneg (qs : list Q) : Forall (fun q => 0 <= q) qs -> 0 <= Qsum qs.
Proof.
  induction 1 as [|q rest Hq _ IH]; cbn [Qsum fold_right]; [lra|].
  unfold Qsum in IH. lra.
Qed.

(** The compensation of the Kahan-Babuska sum is zero where nothing is
    rounded, and the sum is the sum. *)
Lemma sum_loop_exact (xs : list num) (qs : list Q) :
  are_q xs qs ->
  forall s c a, is_q s a -> is_q c 0 -> is_q (ss.sum_loop s c xs) (a + Qsum qs).
Proof.
  induction 1 as [|x q rest qs' Hx _ IH]; intros s c a Hs Hc; cbn [ss.sum_loop].
  - cbn [Qsum fold_right]. apply is_q_add; assumption.
  - eapply is_q_eq.
    + apply IH with (a := a + q).
      * apply is_q_add; assumption.
      * destruct (nabs s >=? nabs x)%num.
        -- eapply is_q_eq.
           ++ apply is_q_add; [exact Hc|].
              apply is_q_add; [|exact Hx].
              apply is_q_sub; [exact Hs|]. apply is_q_add; [exact Hs|exact Hx].
           ++ ring.
        -- eapply is_q_eq.
           ++ apply is_q_add; [exact Hc|].
              apply is_q_add; [|exact Hs].
              apply is_q_sub; [exact Hx|]. apply is_q_add; [exact Hs|exact Hx].
           ++ ring.
    + cbn [Qsum fold_right]. fold (Qsum qs'). ring.
Qed.

Lemma sum_exact (xs : list num) (qs : list Q) :
  are_q xs qs -> is_q (ss.sum xs) (Qsum qs).
Proof.
  intros H. destruct H as [|x q rest qs' Hx Hrest]; cbn [ss.sum].
  - apply is_q_Fin.
  - eapply is_q_eq.
    + apply (sum_loop_exact Hrest Hx (is_q_Fin 0)).
    + cbn [Qsum fold_right]. reflexivity.
Qed.

Lemma positive_length (n : nat) : (0 < n)%nat -> 0 < inject_Z (Z.of_nat n).
Proof.
  intros H. change 0 with (inject_Z 0). rewrite <- Zlt_Qlt. lia.
Qed.

Lemma mean_exact (xs : list num) (qs : list Q) :
  xs <> [] -> are_q xs qs ->
  exists m, ss.mean xs = Ok m
            /\ is_q m (Qsum qs / inject_Z (Z.of_nat (length xs))).
Proof.
  intros Hne H. unfold ss.mean. destruct xs as [|x rest]; [congruence|].
  eexists. split; [reflexivity|].
  apply is_q_div; [now apply sum_exact|apply is_q_of_nat|].
  pose proof (@positive_length (length (x :: rest))) as P.
  cbn [length] in *. specialize (P ltac:(lia)). lra.
Qed.

Lemma nsum_map_exact {A : Type} (f : A -> num) (g : A -> Q) (xs : list A) :
  (forall x, In x xs -> is_q (f x) (g x)) ->
  is_q (nsum_map f xs) (Qsum (map g xs)).
Proof.
  unfold nsum_map. intros H.
  assert (G : forall s a, is_q s a ->
            is_q (fold_left (fun s x => s + f x)%num xs s) (a + Qsum (map g xs))).
  { induction xs as [|x rest IH]; intros s a Hs; cbn [fold_left map Qsum fold_right].
    - eapply is_q_eq; [exact Hs|ring].
    - eapply is_q_eq.
      + apply IH with (a := a + g x).
        * intros y Hy. apply H. now right.
        * apply is_q_add; [exact Hs|]. apply H. now left.
      + fold (Qsum (map g rest)). ring. }
  eapply is_q_eq; [apply G; apply is_q_Fin|ring].
Qed.

End ExactSums.

(** ** Skewness and kurtosis of a sample without spread *)

Section ConstantSample.

Local Open Scope Q_scope.

Lemma Qsum_constant {A : Type} (c : Q) (xs : list A) :
  Qsum (map (fun _ => c) xs) == inject_Z (Z.of_nat (length xs)) * c.
Proof.
  induction xs as [|x rest IH]; cbn [map Qsum fold_right length].
  - change (inject_Z (Z.of_nat 0)) with 0. ring.
  - fold (Qsum (map (fun _ => c) rest)). rewrite IH.
    rewrite Nat2Z.inj_succ, <- Z.add_1_r, inject_Z_plus.
    change (inject_Z 1) with 1. ring.
Qed.

Lemma are_q_constant (c : Q) (xs : list num) :
  Forall (fun x => is_q x c) xs -> are_q xs (map (fun _ => c) xs).
Proof. induction 1; constructor; assumption. Qed.

Lemma mean_constant (c : Q) (xs : list num) :
  xs <> [] -> Forall (fun x => is_q x c) xs ->
  exists m, ss.mean xs = Ok m /\ is_q m c.
Proof.
  intros Hne H.
  destruct (mean_exact Hne (are_q_constant H)) as (m & E & Hm).
  exists m. split; [exact E|]. eapply is_q_eq; [exact Hm|].
  rewrite Qsum_constant. field.
  assert (P : 0 < inject_Z (Z.of_nat (length xs))).
  { apply positive_length. destruct xs; [congruence|cbn; lia]. }
  lra.
Qed.

Lemma nsqrt_zero (v : num) : is_q v 0 -> nsqrt v = Fin 0.
Proof.
  intros (a & -> & Ha). cbn [nsqrt].
  assert (C : (a ?= 0) = Eq) by now apply Qeq_alt.
  rewrite C. unfold Qsqrt. rewrite (Qred_complete a 0 Ha). reflexivity.
Qed.

Lemma standardDeviation_constant (c : Q) (xs : list num) :
  xs <> [] -> Forall (fun x => is_q x c) xs ->
  ss.standardDeviation xs = Ok (Fin 0).
Proof.
  intros Hne H. unfold ss.standardDeviation.
  destruct (length xs =? 1)%nat; [reflexivity|].
  unfold ss.variance. destruct xs as [|x rest] eqn:Ex; [congruence|].
  rewrite <- Ex in *. unfold ss.sumSquaredDeviations.
  destruct (mean_constant Hne H) as (m & Em & Hm). rewrite Em. cbn [rbind].
  f_equal. apply nsqrt_zero.
  assert (P : 0 < inject_Z (Z.of_nat (length xs))).
  { apply positive_length. rewrite Ex. cbn. lia. }
  eapply is_q_eq.
  - apply is_q_div; [|apply is_q_of_nat|lra].
    apply (@nsum_map_exact _ (fun x => let tempValue := (x - m)%num in
                                       (tempValue * tempValue)%num)
                           (fun _ => 0)).
    intros y Hy. cbv zeta. rewrite Forall_forall in H.
    eapply is_q_eq.
    + apply is_q_mul; apply is_q_sub; [apply H, Hy|exact Hm|apply H, Hy|exact Hm].
    + ring.
  - rewrite Qsum_constant. field. lra.
Qed.

Lemma nsum_map_NaN {A : Type} (f : A -> num) (xs : list A) :
  xs <> [] -> (forall x, In x xs -> f x = NaN) -> nsum_map f xs = NaN.
Proof.
  intros Hne H. unfold nsum_map.
  assert (G : forall ys, (forall x, In x ys -> f x = NaN) ->
            fold_left (fun s x => s + f x)%num ys NaN = NaN).
  { induction ys as [|y rest IH]; intros Hy; cbn [fold_left]; [reflexivity|].
    rewrite (Hy y (or_introl eq_refl)). cbn [nadd]. apply IH.
    intros z Hz. apply Hy. now right. }
  destruct xs as [|x rest]; [congruence|]. cbn [fold_left].
  rewrite (H x (or_introl eq_refl)). cbn [nadd]. apply G.
  intros z Hz. apply H. now right.
Qed.

(** In the model a sample without spread has a standard deviation of
    0, and each standardised deviation is 0/0. *)
Lemma calculateSkewness_no_spread (c : Q) (data : list num) :
  data <> [] ->
  Forall (fun x => is_q x c) data ->
  calculateSkewness data = Ok NaN /\ calculateKurtosis data = Ok NaN.
Proof.
  intros Hne H. unfold calculateSkewness, calculateKurtosis.
  destruct (mean_constant Hne H) as (m & Em & Hm). rewrite Em. cbn [rbind].
  rewrite (standardDeviation_constant Hne H). cbn [rbind].
  assert (D : forall x, In x data -> ((x - m) / Fin 0)%num = NaN).
  { intros x Hx. rewrite Forall_forall in H.
    rewrite (is_q_div_zero (a := c - c) (b := 0)).
    - assert (C : (c - c ?= 0) = Eq) by (apply Qeq_alt; ring). now rewrite C.
    - apply is_q_sub; [apply H, Hx|exact Hm].
    - apply is_q_Fin.
    - reflexivity. }
  split; f_equal.
  - rewrite nsum_map_NaN; [reflexivity|exact Hne|].
    intros x Hx. rewrite (D x Hx). reflexivity.
  - rewrite nsum_map_NaN; [reflexivity|exact Hne|].
    intros x Hx. rewrite (D x Hx). reflexivity.
Qed.

(** X13. [calculateSkewness] and [calculateKurtosis] return NaN, not a
    number, on the returns of a flat market: on a sample of zeros (the
    returns of a constant price) and on a sample of a single finite
    value the mean is the value itself, the standard deviation is 0 and
    each standardised deviation is 0/0.  On an empty sample both
    throw. *)
Theorem calculateSkewness_constant :
  (forall data,
      data <> [] -> Forall (fun x => is_q x 0) data ->
      calculateSkewness data = Ok NaN /\ calculateKurtosis data = Ok NaN)
  /\ (forall x,
        is_finite x = true ->
        calculateSkewness [x] = Ok NaN /\ calculateKurtosis [x] = Ok NaN)
  /\ calculateSkewness [] = Throw EmptySample
  /\ calculateKurtosis [] = Throw EmptySample.
Proof.
  split; [|split; [|split; reflexivity]].
  - intros data Hne H. exact (calculateSkewness_no_spread Hne H).
  - intros x Hx. destruct (finite_is_q _ Hx) as [c Hc].
    apply (@calculateSkewness_no_spread c); [discriminate|].
    constructor; [exact Hc|constructor].
Qed.

End ConstantSample.

(** ** The relative strength index *)

Section RSI.

Local Open Scope Q_scope.

Lemma nget_are_q (xs : list num) (qs : list Q) (i : nat) :
  are_q xs qs -> (i < length xs)%nat -> is_q (nget xs i) (nth i qs 0).
Proof.
  intros H. revert i. induction H as [|x q rest qs' Hx _ IH]; intros i Li.
  - cbn in Li. lia.
  - destruct i as [|i]; cbn [nget nth]; [exact Hx|].
    apply IH. cbn in Li. lia.
Qed.

Lemma mean_nonneg (xs : list num) :
  xs <> [] ->
  Forall (fun x => exists q, is_q x q /\ 0 <= q) xs ->
  exists m q, ss.mean xs = Ok m /\ is_q m q /\ 0 <= q.
Proof.
  intros Hne H. destruct (are_q_exists _ H) as (qs & Hqs & Pqs).
  destruct (mean_exact Hne Hqs) as (m & E & Hm).
  exists m. eexists. split; [exact E|]. split; [exact Hm|].
  assert (P : 0 < inject_Z (Z.of_nat (length xs))).
  { apply positive_length. destruct xs; [congruence|cbn; lia]. }
  apply Qle_shift_div_l; [exact P|].
  pose proof (Qsum_nonneg Pqs). lra.
Qed.

(** On finite prices the model of [calculateSimpleRSI] returns a
    finite number between 0 and 100. *)
Lemma calculateSimpleRSI_finite (prices : list num) (qs : list Q) :
  are_q prices qs ->
  exists v r,
    calculateSimpleRSI prices = Ok v
    /\ is_q v r
    /\ 0 <= r <= 100
    /\ ((length prices < 15)%nat -> v = of_nat 50).
Proof.
  intros H. unfold calculateSimpleRSI.
  destruct (length prices <? 14 + 1)%nat eqn:L.
  - exists (of_nat 50), 50. split; [reflexivity|]. split; [apply is_q_Fin|].
    split; [lra|reflexivity].
  - apply Nat.ltb_ge in L.
    set (changes := rsi_changes prices 14).
    assert (Hc : Forall (fun x => exists q, is_q x q) changes).
    { unfold changes, rsi_changes. apply Forall_forall. intros x Hx.
      apply in_map_iff in Hx. destruct Hx as (i & <- & Hi). apply in_seq in Hi.
      eexists. apply is_q_sub; apply (nget_are_q H); lia. }
    assert (Hg : Forall (fun x => exists q, is_q x q /\ 0 <= q)
                   (map (fun change => if (change >? nzero)%num then change else nzero)
                        changes)).
    { apply Forall_forall. intros x Hx. apply in_map_iff in Hx.
      destruct Hx as (ch & <- & Hch). rewrite Forall_forall in Hc.
      destruct (Hc ch Hch) as (q & Hq).
      destruct (ch >? nzero)%num eqn:G.
      - exists q. split; [exact Hq|].
        apply (is_q_gtb Hq (is_q_Fin 0)) in G. lra.
      - exists 0. split; [apply is_q_Fin|lra]. }
    assert (Hl : Forall (fun x => exists q, is_q x q /\ 0 <= q)
                   (map (fun change => if (change >? nzero)%num then nzero else nopp change)
                        changes)).
    { apply Forall_forall. intros x Hx. apply in_map_iff in Hx.
      destruct Hx as (ch & <- & Hch). rewrite Forall_forall in Hc.
      destruct (Hc ch Hch) as (q & Hq).
      destruct (ch >? nzero)%num eqn:G.
      - exists 0. split; [apply is_q_Fin|lra].
      - exists (- q). split; [now apply is_q_opp|].
        destruct (Qlt_le_dec 0 q) as [Lt|Le]; [|lra].
        apply (is_q_gtb Hq (is_q_Fin 0)) in Lt. unfold nzero in G. congruence. }
    assert (Hne : changes <> []) by (unfold changes, rsi_changes; discriminate).
    destruct (@mean_nonneg _ (fun E => Hne (map_eq_nil _ _ E)) Hg)
      as (avgGain & g & Eg & Hgq & G0).
    destruct (@mean_nonneg _ (fun E => Hne (map_eq_nil _ _ E)) Hl)
      as (avgLoss & l & El & Hlq & L0).
    fold changes. rewrite Eg, El. cbn [rbind].
    destruct (neqb avgLoss nzero) eqn:Z.
    + exists (of_nat 100), 100. split; [reflexivity|]. split; [apply is_q_Fin|].
      split; [lra|]. intros F. lia.
    + assert (Lpos : 0 < l).
      { destruct (Qlt_le_dec 0 l) as [Lt|Le]; [exact Lt|].
        assert (E0 : l == 0) by lra.
        apply (is_q_eqb Hlq (is_q_Fin 0)) in E0. unfold nzero in Z. congruence. }
      assert (R0 : 0 <= g / l) by (apply Qle_shift_div_l; lra).
      eexists. exists (100 - 100 / (1 + g / l)).
      split; [reflexivity|]. split.
      * apply is_q_sub; [apply is_q_Fin|].
        apply is_q_div; [apply is_q_Fin| |lra].
        apply is_q_add; [apply is_q_Fin|]. apply is_q_div; [assumption|assumption|lra].
      * split; [|intros F; lia].
        assert (D1 : 0 < 100 / (1 + g / l)) by (apply Qlt_shift_div_l; lra).
        assert (D2 : 100 / (1 + g / l) <= 100) by (apply Qle_shift_div_r; lra).
        lra.
Qed.

(** X14. On finite prices of magnitude at most 1e150 (so that no
    difference or sum of the code overflows) [calculateSimpleRSI]
    returns a finite number between 0 and 100, and exactly 50 when
    there are fewer than 15 prices. *)
Theorem calculateSimpleRSI_range (prices : list num) :
  Forall (within 1e150) prices ->
  exists v r,
    calculateSimpleRSI prices = Ok v
    /\ is_q v r
    /\ 0 <= r <= 100
    /\ ((length prices < 15)%nat -> v = of_nat 50).
Proof.
  intros H. destruct (are_q_exists _ H) as (qs & Hqs & _).
  exact (calculateSimpleRSI_finite Hqs).
Qed.

End RSI.

Lemma calculateSimpleRSI_range_sample :
  exists v r,
    calculateSimpleRSI (map (fun t => of_nat (100 + t)) (seq 0 16)) = Ok v
    /\ is_q v r
    /\ (0 <= r <= 100)%Q
    /\ ((length (map (fun t => of_nat (100 + t)) (seq 0 16)) < 15)%nat -> v = of_nat 50).
Proof.
  apply (@calculateSimpleRSI_range (map (fun t => of_nat (100 + t)) (seq 0 16))).
  repeat constructor;
    (eexists; split; [apply is_q_Fin|vm_compute; discriminate]).
Defined.

(** ** The average true range *)

Section TrueRange.

Import MLModels.
Local Open Scope Q_scope.

Lemma atr_loop_nonneg (rest : list Candle) :
  Forall (fun c => is_finite (high c) = true /\ is_finite (low c) = true
                   /\ is_finite (close c) = true) rest ->
  forall atr a prev,
    is_q atr a -> 0 <= a -> is_finite (close prev) = true ->
    exists q, is_q (atr_loop atr prev rest) q /\ a <= q.
Proof.
  induction 1 as [|d rest' (Hh & Hl & Hc) _ IH]; intros atr a prev Ha A0 Hp;
    cbn [atr_loop].
  - exists a. split; [exact Ha|lra].
  - destruct (finite_is_q _ Hh) as [h Qh]. destruct (finite_is_q _ Hl) as [l Ql].
    destruct (finite_is_q _ Hp) as [p Qp].
    destruct (is_q_max (is_q_sub Qh Ql) (is_q_abs (is_q_sub Qh Qp)))
      as (m1 & M1 & _ & B1 & _).
    destruct (is_q_max M1 (is_q_abs (is_q_sub Ql Qp))) as (m2 & M2 & B2 & _ & _).
    pose proof (Qabs_nonneg (h - p)) as N.
    destruct (IH (atr + nmax (nmax (high d - low d) (nabs (high d - close prev)))
                              (nabs (low d - close prev)))%num
                 (a + m2) d) as (q & Hq & Lq).
    + apply is_q_add; assumption.
    + lra.
    + exact Hc.
    + exists q. split; [exact Hq|lra].
Qed.

(** X15. On candles whose prices are finite numbers of magnitude at
    most 1e150 (so that no range and no sum of ranges overflows)
    [calculateATR] is a finite number that is never negative, however
    the highs, lows and closes are ordered; on fewer than two candles
    it is 0. *)
Theorem calculateATR_nonneg (data : list Candle) :
  Forall (fun c => within 1e150 (high c) /\ within 1e150 (low c)
                   /\ within 1e150 (close c)) data ->
  (exists q, is_q (calculateATR data) q /\ 0 <= q)
  /\ ((length data < 2)%nat -> calculateATR data = nzero).
Proof.
  intros W.
  assert (H : Forall (fun c => is_finite (high c) = true /\ is_finite (low c) = true
                               /\ is_finite (close c) = true) data).
  { eapply Forall_impl; [|exact W].
    intros c ((h & Hh & _) & (l & Hl & _) & (cl & Hc & _)).
    repeat split; eapply is_q_finite; eassumption. }
  clear W.
  unfold calculateATR. destruct (length data <? 2)%nat eqn:L.
  - split; [|reflexivity]. exists 0. split; [apply is_q_Fin|lra].
  - apply Nat.ltb_ge in L. split; [|intros F; lia].
    destruct data as [|d0 rest]; [cbn in L; lia|].
    inversion H as [|? ? (_ & _ & Hc) Hrest]; subst.
    destruct (@atr_loop_nonneg rest Hrest nzero 0 d0 (is_q_Fin 0) (Qle_refl 0) Hc)
      as (q & Hq & Lq).
    assert (P : 0 < inject_Z (Z.of_nat (length (d0 :: rest) - 1))).
    { apply positive_length. lia. }
    exists (q / inject_Z (Z.of_nat (length (d0 :: rest) - 1))). split.
    + apply is_q_div; [exact Hq|apply is_q_of_nat|lra].
    + apply Qle_shift_div_l; lra.
Qed.

End TrueRange.

Lemma calculateATR_nonneg_sample :
  (exists q, is_q (MLModels.calculateATR (rising 14)) q /\ (0 <= q)%Q)
  /\ ((length (rising 14) < 2)%nat -> MLModels.calculateATR (rising 14) = nzero).
Proof.
  apply (@calculateATR_nonneg (rising 14)).
  apply Forall_forall. intros c Hc. apply in_map_iff in Hc.
  destruct Hc as (t & <- & Ht). apply in_seq in Ht. cbn [candle high low close].
  assert (B : within 1e150 (of_nat (100 + t))).
  { exists (inject_Z (Z.of_nat (100 + t))). split; [apply is_q_Fin|].
    rewrite Qabs_pos by (change 0%Q with (inject_Z 0); rewrite <- Zle_Qle; lia).
    apply Qle_trans with (inject_Z 200); [rewrite <- Zle_Qle; lia|].
    vm_compute. discriminate. }
  repeat split; exact B.
Defined.

(** ** The position of the price in its range *)

Section PricePosition.

Import MLModels.
Local Open Scope Q_scope.

Lemma is_q_unique (x : num) (a b : Q) : is_q x a -> is_q x b -> a == b.
Proof.
  intros (p & -> & Ep) (q & E & Eq). inversion E; subst. now rewrite <- Ep, <- Eq.
Qed.







End PricePosition.


(** ** The volume-weighted average price *)

Section VWAP.

Local Open Scope Q_scope.

(** A candle with finite prices and a finite volume that is not
    negative, whose typical price lies between [lo] and [hi]. *)
Let traded (lo hi : Q) (c : Candle) : Prop :=
  exists h l cl v,
    is_q (high c) h /\ is_q (low c) l /\ is_q (close c) cl /\ is_q (volume c) v
    /\ 0 <= v /\ lo <= (h + l + cl) / 3 <= hi.

Lemma vwap_totals (lo hi : Q) (data : list Candle) :
  Forall (traded lo hi) data ->
  forall acc V P,
    is_q (fst acc) V -> is_q (snd acc) P -> 0 <= V -> lo * V <= P <= hi * V ->
    exists V' P',
      is_q (fst (fold_left
                   (fun acc d =>
                      let typicalPrice := ((high d + low d + close d) / of_nat 3)%num in
                      ((fst acc + volume d)%num, (snd acc + typicalPrice * volume d)%num))
                   data acc)) V'
      /\ is_q (snd (fold_left
                      (fun acc d =>
                         let typicalPrice := ((high d + low d + close d) / of_nat 3)%num in
                         ((fst acc + volume d)%num, (snd acc + typicalPrice * volume d)%num))
                      data acc)) P'
      /\ V <= V' /\ lo * V' <= P' <= hi * V'
      /\ (Exists (fun c => exists v, is_q (volume c) v /\ 0 < v) data -> 0 < V').
Proof.
  induction 1 as [|d rest (h & l & cl & v & Qh & Ql & Qc & Qv & V0 & B) _ IH];
    intros acc V P HV HP V0' B'; cbn [fold_left].
  - exists V, P. repeat split; try assumption; try lra.
    intros E. inversion E.
  - assert (T : is_q ((high d + low d + close d) / of_nat 3)%num ((h + l + cl) / 3)).
    { apply is_q_div; [|apply is_q_Fin|].
      - apply is_q_add; [apply is_q_add|]; assumption.
      - change (inject_Z (Z.of_nat 3)) with 3. lra. }
    destruct (IH ((fst acc + volume d)%num,
                  (snd acc + (high d + low d + close d) / of_nat 3 * volume d)%num)
                 (V + v) (P + (h + l + cl) / 3 * v))
      as (V' & P' & HV' & HP' & L & B'' & X).
    + cbn [fst]. now apply is_q_add.
    + cbn [snd]. apply is_q_add; [assumption|]. now apply is_q_mul.
    + lra.
    + set (t := (h + l + cl) / 3) in *. nra.
    + exists V', P'. split; [exact HV'|]. split; [exact HP'|].
      split; [lra|]. split; [exact B''|].
      intros E. inversion E as [? ? (v' & Qv' & Pv)|? ? E']; subst.
      * pose proof (is_q_unique Qv Qv'). lra.
      * specialize (X E'). exact X.
Qed.

(** X17. [calculateVWAP] guards its division: when no candle traded
    (every volume is 0, the empty series included) it returns 0, not
    0/0, whatever the prices are; and on candles whose prices and
    volumes are finite, not negative and at most 1e100 it returns a
    finite number that is not negative. *)
Theorem calculateVWAP_guarded (data : list Candle) :
  (Forall (fun c => is_q (volume c) 0) data -> calculateVWAP data = nzero)
  /\ (Forall (fun c => exists h l cl v,
                  is_q (high c) h /\ is_q (low c) l /\ is_q (close c) cl
                  /\ is_q (volume c) v
                  /\ 0 <= h <= 1e100 /\ 0 <= l <= 1e100 /\ 0 <= cl <= 1e100
                  /\ 0 <= v <= 1e100)
             data ->
      exists w, is_q (calculateVWAP data) w /\ 0 <= w).
Proof.
  unfold calculateVWAP. split.
  - intros Z.
    assert (G : forall acc, is_q (fst acc) 0 ->
              is_q (fst (fold_left
                 (fun acc d =>
                    let typicalPrice := ((high d + low d + close d) / of_nat 3)%num in
                    ((fst acc + volume d)%num, (snd acc + typicalPrice * volume d)%num))
                 data acc)) 0).
    { induction Z as [|d rest Hd _ IH]; intros acc Ha; cbn [fold_left].
      - exact Ha.
      - apply IH. cbn [fst]. eapply is_q_eq; [apply is_q_add; eassumption|ring]. }
    pose proof (G (nzero, nzero) (is_q_Fin 0)) as G0.
    destruct (_ >? nzero)%num eqn:C; [|reflexivity].
    apply (is_q_gtb G0 (is_q_Fin 0)) in C. lra.
  - intros H.
    destruct (@vwap_totals 0 1e100 data) with (acc := (nzero, nzero)) (V := 0) (P := 0)
      as (V & P & HV & HP & V0 & B & _);
      try apply is_q_Fin; try lra.
    { eapply Forall_impl; [|exact H].
      intros c (h & l & cl & v & Qh & Ql & Qc & Qv & Bh & Bl & Bc & Bv).
      exists h, l, cl, v. repeat (split; [assumption|]).
      split; [lra|]. split; [apply Qle_shift_div_l; lra|apply Qle_shift_div_r; lra]. }
    destruct (_ >? nzero)%num eqn:C.
    + apply (is_q_gtb HV (is_q_Fin 0)) in C.
      exists (P / V). split; [apply is_q_div; [assumption|assumption|lra]|].
      apply Qle_shift_div_l; lra.
    + exists 0. split; [apply is_q_Fin|lra].
Qed.

End VWAP.

(** ** The correlation of prices and volumes *)

Section Correlation.

Local Open Scope Q_scope.

(** [n * sumXX - sumX * sumX] of [calculateCorrelation]. *)
Let spread (xs : list num) : num :=
  (of_nat (length xs) * fold_left (fun s xi => s + xi * xi) xs nzero
   - reduce_add xs * reduce_add xs)%num.

Lemma spread_finite (xs : list num) :
  Forall (fun v => is_finite v = true) xs -> exists d, is_q (spread xs) d.
Proof.
  intros H.
  destruct (@are_q_exists (fun _ => True) xs) as (qs & Hqs & _).
  { eapply Forall_impl; [|exact H]. intros v Hv.
    destruct (finite_is_q _ Hv) as [a Ha]. eauto. }
  assert (G : forall (f : num -> num),
             (forall v, is_finite v = true -> is_finite (f v) = true) ->
             exists q, is_q (nsum_map f xs) q).
  { intros f Hf. unfold nsum_map.
    assert (K : forall s, is_finite s = true ->
              is_finite (fold_left (fun s x => s + f x)%num xs s) = true).
    { clear Hqs. induction H as [|x rest Hx _ IH]; intros s Hs; cbn [fold_left].
      - exact Hs.
      - apply IH. specialize (Hf x Hx).
        destruct s, (f x); try discriminate; reflexivity. }
    apply finite_is_q. now apply K. }
  destruct (G (fun v => v)) as [sx Hsx]; [auto|].
  destruct (G (fun v => (v * v)%num)) as [sxx Hsxx].
  { intros v Hv. destruct v; try discriminate; reflexivity. }
  eexists. unfold spread. apply is_q_sub.
  - apply is_q_mul; [apply is_q_of_nat|exact Hsxx].
  - apply is_q_mul; exact Hsx.
Qed.

Lemma spread_constant (c : Q) (xs : list num) :
  Forall (fun v => is_q v c) xs -> is_q (spread xs) 0.
Proof.
  intros H. unfold spread. rewrite Forall_forall in H.
  pose proof (@nsum_map_exact _ (fun v => v) (fun _ => c) xs H) as S1.
  pose proof (@nsum_map_exact _ (fun v => (v * v)%num) (fun _ => c * c) xs
                (fun v Hv => is_q_mul (H v Hv) (H v Hv))) as S2.
  eapply is_q_eq.
  - apply is_q_sub.
    + apply is_q_mul; [apply is_q_of_nat|exact S2].
    + apply is_q_mul; exact S1.
  - rewrite !Qsum_constant. ring.
Qed.

(** X18. [calculateCorrelation] answers 0 where the correlation is not
    defined: on series of different lengths, on fewer than two points,
    and (its denominator being 0, not by a division) when one of the
    two series is all zeros, as the volumes of a market that does not
    trade are, and the other holds finite numbers of magnitude at most
    1e100. *)
Theorem calculateCorrelation_degenerate (x y : list num) :
  (length x <> length y \/ (length x < 2)%nat -> calculateCorrelation x y = nzero)
  /\ (Forall (fun v => is_q v 0) x -> Forall (within 1e100) y ->
      calculateCorrelation x y = nzero)
  /\ (Forall (within 1e100) x -> Forall (fun v => is_q v 0) y ->
      calculateCorrelation x y = nzero).
Proof.
  assert (F : forall xs, Forall (within 1e100) xs ->
                         Forall (fun v => is_finite v = true) xs).
  { intros xs H. eapply Forall_impl; [|exact H].
    intros v (q & Hq & _). exact (is_q_finite Hq). }
  assert (Z : forall a b : num, is_q (a * b)%num 0 ->
            (if nneb (nsqrt (a * b)) nzero
             then (of_nat (length x)
                   * fold_left (fun s xy => s + fst xy * snd xy) (combine x y) nzero
                   - reduce_add x * reduce_add y)
                  / nsqrt (a * b)
             else nzero)%num = nzero).
  { intros a b H. now rewrite (nsqrt_zero H). }
  split; [|split].
  - intros H. unfold calculateCorrelation.
    destruct (length x =? length y)%nat eqn:E; [|reflexivity].
    apply Nat.eqb_eq in E. destruct H as [H|H]; [congruence|].
    replace (length x <? 2)%nat with true by (symmetry; now apply Nat.ltb_lt).
    reflexivity.
  - intros Hx Hy. apply F in Hy. unfold calculateCorrelation.
    destruct (length x =? length y)%nat eqn:E; [|reflexivity].
    apply Nat.eqb_eq in E. cbn [negb orb].
    destruct (length x <? 2)%nat; [reflexivity|].
    apply Z. destruct (spread_finite Hy) as [d Hd].
    pose proof (spread_constant Hx) as H0. unfold spread in Hd, H0.
    rewrite <- E in Hd.
    eapply is_q_eq; [apply (is_q_mul H0 Hd)|ring].
  - intros Hx Hy. apply F in Hx. unfold calculateCorrelation.
    destruct (length x =? length y)%nat eqn:E; [|reflexivity].
    apply Nat.eqb_eq in E. cbn [negb orb].
    destruct (length x <? 2)%nat; [reflexivity|].
    apply Z. destruct (spread_finite Hx) as [d Hd].
    pose proof (spread_constant Hy) as H0. unfold spread in Hd, H0.
    rewrite <- E in H0.
    eapply is_q_eq; [apply (is_q_mul Hd H0)|ring].
Qed.

End Correlation.

(** ** The prediction models *)

Section Models.

Import MLModels.
Local Open Scope Q_scope.

Lemma clamp_range (lo hi : Q) (x : num) :
  lo <= hi ->
  (x = NaN /\ nmin (lit hi) (nmax (lit lo) x) = NaN)
  \/ (x <> NaN /\ exists q, is_q (nmin (lit hi) (nmax (lit lo) x)) q /\ lo <= q <= hi).
Proof.
  intros L. destruct x as [a| | |].
  - right. split; [discriminate|].
    destruct (is_q_max (is_q_lit lo) (is_q_Fin a)) as (m & Hm & L1 & L2 & _).
    destruct (is_q_min (is_q_lit hi) Hm) as (m' & Hm' & L3 & L4 & [E|E]).
    + exists m'. split; [exact Hm'|]. lra.
    + exists m'. split; [exact Hm'|]. lra.
  - right. split; [discriminate|]. exists hi. split; [apply is_q_lit|lra].
  - right. split; [discriminate|]. cbn [nmax ncompare lit].
    destruct (is_q_min (is_q_lit hi) (is_q_lit lo)) as (m & Hm & L1 & L2 & [E|E]);
      exists m; (split; [exact Hm|lra]).
  - left. split; reflexivity.
Qed.

Lemma calculateMLConfidence_q (features : Features) :
  exists q, is_q (calculateMLConfidence features) q /\ 0.5 <= q <= 0.9.
Proof.
  unfold calculateMLConfidence.
  destruct (MLTA.volumeRatio (f_volume features) >? lit 1.5)%num;
    destruct (_ || _);
    destruct (adx (technical features) >? of_nat 25)%num;
    destruct (volatility (statistical features) <? lit 0.02)%num;
    (eexists; split; [vm_compute; apply is_q_Fin|split; vm_compute; discriminate]).
Qed.

(** X19. The confidence that [calculateMLConfidence] returns is a
    number between 0.5 and 0.9 for every feature set, NaN and infinite
    features included (a comparison with NaN adds nothing): it starts
    at 0.5 and can only gain 0.1, 0.15, 0.1 and 0.05, so the clamp to
    [0.1, 0.95] never changes it, and it is 0.5 when no indicator
    confirms. *)
Theorem calculateMLConfidence_range (features : Features) :
  (exists q, is_q (calculateMLConfidence features) q /\ 0.5 <= q <= 0.9)
  /\ (is_nan (MLTA.volumeRatio (f_volume features)) = true ->
      is_nan (tf_rsi (technical features)) = true ->
      is_nan (adx (technical features)) = true ->
      is_nan (volatility (statistical features)) = true ->
      calculateMLConfidence features = lit 0.5).
Proof.
  split; [apply calculateMLConfidence_q|].
  unfold calculateMLConfidence.
  destruct (MLTA.volumeRatio (f_volume features)); try discriminate.
  destruct (tf_rsi (technical features)); try discriminate.
  destruct (adx (technical features)); try discriminate.
  destruct (volatility (statistical features)); try discriminate.
  reflexivity.
Qed.

(** X20. [predictVolatility] is clamped: whatever the features, it is
    NaN or a number between 0.005 and 0.2, and it is such a number
    whenever the average true range and the historical volatility are
    finite and the current price is a finite number other than 0. *)
Theorem predictVolatility_range (features : Features) :
  (predictVolatility features = NaN
   \/ exists q, is_q (predictVolatility features) q /\ 0.005 <= q <= 0.2)
  /\ (forall atr p vol,
        is_q (avgTrueRange (price features)) atr ->
        is_q (currentPrice (price features)) p ->
        is_q (volatility (statistical features)) vol ->
        ~ p == 0 ->
        exists q, is_q (predictVolatility features) q /\ 0.005 <= q <= 0.2).
Proof.
  unfold predictVolatility. split.
  - match goal with
    | |- context [nmax (lit 0.005) ?x] =>
        destruct (@clamp_range 0.005 0.2 x ltac:(lra)) as [[_ E]|[_ E]]
    end; [left; exact E|right; exact E].
  - intros atr p vol Ha Hp Hv Hp0.
    match goal with
    | |- context [nmax (lit 0.005) ?x] =>
        destruct (@clamp_range 0.005 0.2 x ltac:(lra)) as [[E _]|[_ E]]
    end; [|exact E].
    exfalso.
    assert (F : is_q (avgTrueRange (price features) / currentPrice (price features)
                      * lit 0.6
                      + volatility (statistical features) * lit 0.4)%num
                     (atr / p * 0.6 + vol * 0.4)).
    { apply is_q_add; apply is_q_mul; try apply is_q_lit; try assumption.
      now apply is_q_div. }
    rewrite E in F. destruct F as (q & F & _). discriminate F.
Qed.

Section Direction.

Context `{G : Regression}.

Lemma probability_of_change (change : num) :
  (change = NaN /\ nmin (lit 0.9) (lit 0.5 + nabs change * of_nat 10) = NaN)
  \/ exists q, is_q (nmin (lit 0.9) (lit 0.5 + nabs change * of_nat 10)) q
               /\ 0.5 <= q <= 0.9
               /\ ((change >? lit 0.01)%num = true -> 0.6 <= q)
               /\ ((change <? nopp (lit 0.01))%num = true -> 0.6 <= q).
Proof.
  destruct change as [a| | |].
  - right.
    assert (P : is_q (lit 0.5 + nabs (Fin a) * of_nat 10)%num (0.5 + Qabs a * 10)).
    { apply is_q_add; [apply is_q_lit|].
      apply is_q_mul; [apply is_q_abs, is_q_Fin|apply is_q_Fin]. }
    destruct (is_q_min (is_q_lit 0.9) P) as (m & Hm & L1 & L2 & E).
    pose proof (Qabs_nonneg a) as N.
    exists m. split; [exact Hm|]. split; [destruct E; lra|]. split.
    + intros C. apply (is_q_gtb (is_q_Fin a) (is_q_lit 0.01)) in C.
      assert (Qabs a == a) by (apply Qabs_pos; lra). destruct E; lra.
    + intros C. apply (is_q_ltb (is_q_Fin a) (is_q_opp (is_q_lit 0.01))) in C.
      assert (Qabs a == - a) by (apply Qabs_neg; lra). destruct E; lra.
  - right. exists 0.9. split; [vm_compute; apply is_q_Fin|]. split; [lra|].
    split; intros _; lra.
  - right. exists 0.9. split; [vm_compute; apply is_q_Fin|]. split; [lra|].
    split; intros _; lra.
  - left. split; reflexivity.
Qed.

(** X21. [predictPriceDirection] never throws, whatever the regression
    does.  With fewer than 10 candles, or when the regression throws,
    it answers NEUTRAL with probability 0.5; otherwise its probability
    is NaN or a number between 0.5 and 0.9, and a call of UP or DOWN
    always carries a probability of at least 0.6. *)
Theorem predictPriceDirection_probability (priceData : list Candle) :
  let r := predictPriceDirection priceData in
  ((length priceData < 10)%nat ->
   r = {| direction := D_NEUTRAL; probability := lit 0.5;
          predictedChange := None; nextPrice := None |})
  /\ (probability r = NaN
      \/ exists q, is_q (probability r) q /\ 0.5 <= q <= 0.9)
  /\ (direction r <> D_NEUTRAL ->
      exists q, is_q (probability r) q /\ 0.6 <= q <= 0.9)
  /\ (predictedChange r = None -> direction r = D_NEUTRAL /\ probability r = lit 0.5).
Proof.
  cbv zeta. unfold predictPriceDirection. rewrite !length_map, length_seq.
  destruct (10 <=? length priceData)%nat eqn:L.
  - apply Nat.leb_le in L.
    destruct (SLR_predict _ _ _) as [nextPrediction|e].
    + cbn [direction probability predictedChange].
      set (change := ((nextPrediction - nlast (map close priceData))
                      / nlast (map close priceData))%num).
      split; [intros F; lia|].
      destruct (probability_of_change change) as [[E1 E2]|(q & Hq & B & U & D)].
      * rewrite E2, E1. split; [left; reflexivity|].
        split; [intros F; now contradiction F|discriminate].
      * split; [right; exists q; split; assumption|].
        split; [|discriminate].
        destruct (change >? lit 0.01)%num.
        -- intros _. exists q. split; [exact Hq|]. specialize (U eq_refl). lra.
        -- destruct (change <? nopp (lit 0.01))%num.
           ++ intros _. exists q. split; [exact Hq|]. specialize (D eq_refl). lra.
           ++ intros F. now contradiction F.
    + cbn [direction probability predictedChange].
      split; [intros F; lia|].
      split; [right; exists 0.5; split; [apply is_q_lit|lra]|].
      split; [intros F; now contradiction F|intros _; split; reflexivity].
  - cbn [direction probability predictedChange].
    split; [reflexivity|].
    split; [right; exists 0.5; split; [apply is_q_lit|lra]|].
    split; [intros F; now contradiction F|intros _; split; reflexivity].
Qed.

(** X22. The score of the model predictions, [scoreMLAnalysis] of what
    [runMLModels] returns, is a number between 12.5 and 67.5 for every
    feature set, every series and every regression: the direction gives
    25, 50 or 75 and the confidence, never outside [0.5, 0.9],
    multiplies it; with a NEUTRAL direction it is between 25 and 45.
    The models alone therefore never reach the 75 of a STRONG_BUY. *)
Theorem scoreMLAnalysis_range (features : Features) (priceData : list Candle) :
  exists s,
    is_q (scoreMLAnalysis (runMLModels features priceData)) s
    /\ 12.5 <= s <= 67.5
    /\ (priceDirection_direction (runMLModels features priceData) = D_NEUTRAL ->
        25 <= s <= 45).
Proof.
  unfold scoreMLAnalysis, runMLModels.
  cbn [priceDirection_direction ml_confidence].
  destruct (calculateMLConfidence_q features) as (q & Hq & B).
  destruct (direction (predictPriceDirection priceData)).
  - exists (75 * q). split; [apply is_q_mul; [apply is_q_Fin|exact Hq]|].
    split; [lra|discriminate].
  - exists (25 * q). split; [apply is_q_mul; [apply is_q_Fin|exact Hq]|].
    split; [lra|discriminate].
  - exists (50 * q). split; [apply is_q_mul; [apply is_q_Fin|exact Hq]|].
    split; [lra|]. intros _. lra.
Qed.

End Direction.

(** X23. The trend strength is capped at 1: [predictTrendStrength] is
    NaN or at most 1, and on finite indicators with an ADX and a volume
    ratio that are not negative it is a number between 0 and 1. *)
Theorem predictTrendStrength_range (technical : TechnicalFeatures)
    (volume : VolumeFeatures) :
  (predictTrendStrength technical volume = NaN
   \/ (predictTrendStrength technical volume <=? nunit)%num = true)
  /\ (forall r m a v,
        is_q (tf_rsi technical) r -> is_q (macdHistogram technical) m ->
        is_q (adx technical) a -> is_q (MLTA.volumeRatio volume) v ->
        0 <= a -> 0 <= v ->
        exists q, is_q (predictTrendStrength technical volume) q /\ 0 <= q <= 1).
Proof.
  unfold predictTrendStrength. split.
  - match goal with |- context [nmin nunit ?x] => destruct x as [t| | |] end.
    + right. destruct (is_q_min (is_q_Fin 1) (is_q_Fin t)) as (m & Hm & L1 & _).
      apply (is_q_leb Hm (is_q_Fin 1)). exact L1.
    + right. reflexivity.
    + right. reflexivity.
    + left. reflexivity.
  - intros r m a v Hr Hm Ha Hv A0 V0.
    destruct (is_q_min Hv (is_q_of_nat 3)) as (w & Hw & W1 & W2 & W3).
    change (inject_Z (Z.of_nat 3)) with 3 in *.
    assert (T : is_q (nabs (tf_rsi technical - of_nat 50) / of_nat 50 * lit 0.3
                      + nabs (macdHistogram technical) * of_nat 10 * lit 0.3
                      + adx technical / of_nat 100 * lit 0.25
                      + nmin (MLTA.volumeRatio volume) (of_nat 3) / of_nat 3 * lit 0.15)%num
                     (Qabs (r - 50) / 50 * 0.3 + Qabs m * 10 * 0.3
                      + a / 100 * 0.25 + w / 3 * 0.15)).
    { repeat first [apply is_q_add | apply is_q_mul | apply is_q_lit ];
        try (apply is_q_div; [|apply is_q_Fin|vm_compute; discriminate]);
        try apply is_q_abs; try apply is_q_sub; try apply is_q_Fin; assumption. }
    destruct (is_q_min (is_q_Fin 1) T) as (q & Hq & Q1 & Q2 & Q3).
    exists q. split; [exact Hq|]. split; [|lra].
    pose proof (Qabs_nonneg (r - 50)). pose proof (Qabs_nonneg m).
    assert (0 <= w) by (destruct W3; lra).
    assert (0 <= Qabs (r - 50) / 50) by (apply Qle_shift_div_l; lra).
    assert (0 <= a / 100) by (apply Qle_shift_div_l; lra).
    assert (0 <= w / 3) by (apply Qle_shift_div_l; lra).
    destruct Q3; nra.
Qed.

End Models.

(** ** The component scores *)

Section ComponentScores.

Local Open Scope Q_scope.



End ComponentScores.

(** ** The score of the timeframes *)

Section TimeframeScore.

Local Open Scope Q_scope.






End TimeframeScore.

(** ** The recommendation of the combiner *)

Section CombinedRecommendation.

Local Open Scope Q_scope.

Lemma determineOverallSignal_includes (s : Q) :
  (includes_BUY (determineOverallSignal (Fin s)) = true <-> 55 <= s)
  /\ (includes_SELL (determineOverallSignal (Fin s)) = true <-> s < 45)
  /\ (determineOverallSignal (Fin s) = STRONG_BUY <-> 75 <= s).
Proof.
  unfold determineOverallSignal.
  repeat match goal with
         | |- context [(Fin s >=? of_nat ?n)%num] =>
             let C := fresh "C" in
             destruct (Fin s >=? of_nat n)%num eqn:C;
             [apply (is_q_geb (is_q_Fin s) (is_q_of_nat n)) in C
             |assert (~ inject_Z (Z.of_nat n) <= s)
                by (intros F; apply (is_q_geb (is_q_Fin s) (is_q_of_nat n)) in F;
                    congruence);
              clear C]
         end;
    cbn [includes_BUY includes_SELL] in *;
    repeat match goal with
           | H : context [inject_Z (Z.of_nat ?n)] |- _ =>
               let v := eval vm_compute in (inject_Z (Z.of_nat n)) in
               change (inject_Z (Z.of_nat n)) with v in H
           end;
    (split; [|split]); split; intros E; try discriminate E; try reflexivity; try lra.
Qed.

(** X26. The recommendation of [combineAnalyses] agrees with its score.
    It repeats the signal, the score and the confidence of the combined
    analysis.  For a numeric score [s] its action is BUY exactly when
    [s >= 55], SELL exactly when [s < 45] and HOLD in between; its
    position size is REDUCE exactly when the action is SELL, HOLD
    exactly when the action is HOLD, and LARGE only for [s >= 75].  A
    score that is NaN gives STRONG_SELL, the action SELL and the size
    REDUCE. *)
Theorem combineAnalyses_recommendation (a : Analyses) :
  let c := combineAnalyses a in
  let r := ca_recommendation c in
  r_signal r = overallSignal c
  /\ r_score r = overallScore c
  /\ r_confidence r = ca_confidence c
  /\ ca_confidence c = calculateOverallConfidence a
  /\ (positionSize r = REDUCE <-> r_action r = RA_SELL)
  /\ (positionSize r = PS_HOLD <-> r_action r = RA_HOLD)
  /\ (forall s, overallScore c = Fin s ->
        (r_action r = RA_BUY <-> 55 <= s)
        /\ (r_action r = RA_SELL <-> s < 45)
        /\ (r_action r = RA_HOLD <-> 45 <= s < 55)
        /\ (positionSize r = LARGE -> 75 <= s))
  /\ (overallScore c = NaN ->
      overallSignal c = STRONG_SELL /\ r_action r = RA_SELL /\ positionSize r = REDUCE).
Proof.
  cbv zeta. unfold combineAnalyses.
  cbn [ca_recommendation overallSignal overallScore ca_confidence].
  set (score := (_ + _)%num).
  unfold generateMLRecommendation.
  cbn [r_signal r_score r_confidence r_action positionSize].
  split; [reflexivity|]. split; [reflexivity|]. split; [reflexivity|].
  split; [reflexivity|].
  unfold calculatePositionSize.
  split; [|split; [|split]].
  - destruct (determineOverallSignal score);
      cbn [includes_BUY includes_SELL andb];
      repeat match goal with |- context [if ?c then _ else _] => destruct c end;
      split; intros E; try discriminate E; reflexivity.
  - destruct (determineOverallSignal score);
      cbn [includes_BUY includes_SELL andb];
      repeat match goal with |- context [if ?c then _ else _] => destruct c end;
      split; intros E; try discriminate E; reflexivity.
  - intros s ->. destruct (determineOverallSignal_includes s) as (Hb & Hs & Hsb).
    destruct (determineOverallSignal (Fin s)) eqn:Sg;
      cbn [includes_BUY includes_SELL andb] in *;
      repeat match goal with |- context [if ?c then _ else _] => destruct c end;
      (split; [|split; [|split]]);
      try (split; intros E); try (intros E);
      try discriminate E; try reflexivity;
      try (assert (55 <= s) by (now apply Hb));
      try (assert (s < 45) by (now apply Hs));
      try (assert (75 <= s) by (now apply Hsb));
      try (assert (~ 55 <= s) by (intros F; apply Hb in F; discriminate F));
      try (assert (~ s < 45) by (intros F; apply Hs in F; discriminate F));
      try lra.
  - intros ->. repeat split.
Qed.

End CombinedRecommendation.

(** ** The regime analysis *)

Section RegimeReports.

Import RegimeAnalysis.
Local Open Scope nat_scope.
Context `{R : Runtime} `{K : Collector}.

Lemma slice_last_length {A : Type} (n : nat) (xs : list A) :
  length (slice_last n xs) = Nat.min n (length xs).
Proof. unfold slice_last. rewrite length_skipn. lia. Qed.

Lemma extendedData_length (primaryData : list Candle) (tokenAddress : string) :
  length primaryData <= length (extendedData primaryData tokenAddress).
Proof.
  unfold extendedData. destruct (length primaryData <? 200); [|lia].
  destruct (collectHistoricalData _ _ _) as [moreData|e]; [|lia].
  destruct (length primaryData <? length moreData) eqn:L; [|lia].
  apply Nat.ltb_lt in L. lia.
Qed.

(** The analyzer on which the prediction of [runHMMAnalysis] runs. *)
Let after_training (data : list Candle) (this : HMMAnalyzer) : HMMAnalyzer :=
  if 100 <=? length data then snd (trainModel data this) else this.

Lemma runHMMAnalysis_eq (primaryData : list Candle) (tokenAddress : string)
    (this : HMMAnalyzer) :
  let data := extendedData primaryData tokenAddress in
  let this1 := after_training data this in
  runHMMAnalysis primaryData tokenAddress this
  = match predictMarketRegime (slice_last 50 data) this1 with
    | (Ok regimePrediction, this2) =>
        match getModelInfo this2 with
        | Ok modelInfo => (Ok (Analysed regimePrediction modelInfo (length data)), this2)
        | Throw e => (Ok (Failed e), this2)
        end
    | (Throw e, this2) => (Ok (Failed e), this2)
    end.
Proof.
  cbv zeta. unfold runHMMAnalysis, after_training.
  set (data := extendedData primaryData tokenAddress).
  unfold try_catch at 1. unfold bind at 1.
  destruct (100 <=? length data).
  - unfold try_catch at 1. unfold bind at 1.
    destruct (trainModel data this) as [[r|e] this1]; cbn [snd ret];
      unfold bind;
      destruct (predictMarketRegime (slice_last 50 data) this1) as [[p|e'] this2];
      try reflexivity;
      destruct (getModelInfo this2); reflexivity.
  - cbn [ret]. unfold bind.
    destruct (predictMarketRegime (slice_last 50 data) this) as [[p|e'] this2];
      try reflexivity;
      destruct (getModelInfo this2); reflexivity.
Qed.

(** X27. [runHMMAnalysis] never throws, and on an analyzer that a
    program can hold it fails only for want of candles.  With at least
    two candles (the longer history counted when the collector returns
    one) it returns the prediction, the report on the model and the
    number of candles; with fewer it returns its error report, the
    regime UNKNOWN, which [scoreHMMAnalysis] scores as the neutral 50.
    With fewer than 100 candles it does not train. *)
Theorem runHMMAnalysis_report (primaryData : list Candle) (tokenAddress : string)
    (this : HMMAnalyzer) :
  reachable this ->
  let data := extendedData primaryData tokenAddress in
  exists report this',
    runHMMAnalysis primaryData tokenAddress this = (Ok report, this')
    /\ reachable this'
    /\ length primaryData <= length data
    /\ (2 <= length data ->
        exists regimePrediction modelInfo,
          report = Analysed regimePrediction modelInfo (length data)
          /\ mi_isTrained modelInfo = isTrained this')
    /\ (length data < 2 ->
        report = Failed EmptySample
        /\ scoreHMMAnalysis (Some (analysis_of report)) = of_nat 50)
    /\ (length data < 100 ->
        isTrained this' = isTrained this
        /\ trainingHistory this' = trainingHistory this).
Proof.
  intros Hr. cbv zeta. rewrite runHMMAnalysis_eq. cbv zeta.
  set (data := extendedData primaryData tokenAddress).
  assert (H1 : reachable (after_training data this)).
  { unfold after_training. destruct (100 <=? length data); [|exact Hr].
    now apply reachable_train. }
  set (this1 := after_training data this) in *.
  pose proof (reachable_predict (slice_last 50 data) H1) as H2.
  assert (F : isTrained (snd (predictMarketRegime (slice_last 50 data) this1))
              = isTrained this1
              /\ trainingHistory (snd (predictMarketRegime (slice_last 50 data) this1))
                 = trainingHistory this1).
  { destruct (predictMarketRegime_state (slice_last 50 data) this1)
      as [E|(_ & c & E)]; rewrite E; split; reflexivity. }
  destruct F as (Ft & Fh).
  assert (L50 : length (slice_last 50 data) = Nat.min 50 (length data))
    by apply slice_last_length.
  destruct (Nat.lt_ge_cases (length data) 2) as [L|L].
  - rewrite (@predictMarketRegime_too_short R (slice_last 50 data) this1) by lia. exists (Failed EmptySample), this1.
    split; [reflexivity|]. split; [exact H1|].
    split; [apply extendedData_length|]. split; [lia|].
    split; [intros _; split; reflexivity|].
    intros _. unfold this1, after_training.
    replace (100 <=? length data) with false by (symmetry; apply Nat.leb_gt; lia).
    split; reflexivity.
  - destruct (@predictMarketRegime_enough R (slice_last 50 data) this1)
      as (p & this2 & E); [lia|].
    rewrite E in H2, Ft, Fh |- *. cbn [snd] in H2, Ft, Fh.
    destruct (getModelInfo_ok H2) as (info & Ei & It).
    rewrite Ei. exists (Analysed p info (length data)), this2.
    split; [reflexivity|]. split; [exact H2|].
    split; [apply extendedData_length|].
    split; [intros _; exists p, info; split; [reflexivity|exact It]|].
    split; [lia|].
    intros L100. rewrite Ft, Fh. unfold this1, after_training.
    replace (100 <=? length data) with false by (symmetry; apply Nat.leb_gt; lia).
    split; reflexivity.
Qed.

End RegimeReports.

Lemma runHMMAnalysis_report_sample :
  let data :=
    @RegimeAnalysis.extendedData OfflineSamples.offline_collector (steady 50) "So11" in
  exists report this',
    @RegimeAnalysis.runHMMAnalysis sample_runtime OfflineSamples.offline_collector
      (steady 50) "So11" constructor
    = (Ok report, this')
    /\ reachable this'
    /\ (length (steady 50) <= length data)%nat
    /\ ((2 <= length data)%nat ->
        exists regimePrediction modelInfo,
          report = RegimeAnalysis.Analysed regimePrediction modelInfo (length data)
          /\ mi_isTrained modelInfo = isTrained this')
    /\ ((length data < 2)%nat ->
        report = RegimeAnalysis.Failed EmptySample
        /\ scoreHMMAnalysis (Some (RegimeAnalysis.analysis_of report)) = of_nat 50)
    /\ ((length data < 100)%nat ->
        isTrained this' = isTrained constructor
        /\ trainingHistory this' = trainingHistory constructor).
Proof.
  apply (@runHMMAnalysis_report sample_runtime OfflineSamples.offline_collector
           (steady 50) "So11" constructor).
  exact (@reachable_new sample_runtime).
Defined.

(** ** The parameters training starts from *)

Section InitialParameters.

Local Open Scope nat_scope.

Lemma fold_Qplus_repeat (c : Q) (n : nat) :
  forall s, (fold_left Qplus (repeat c n) s == s + inject_Z (Z.of_nat n) * c)%Q.
Proof.
  induction n as [|n IH]; intros s; cbn [repeat fold_left].
  - change (inject_Z (Z.of_nat 0)) with 0%Q. ring.
  - rewrite IH, Nat2Z.inj_succ, <- Z.add_1_r, inject_Z_plus.
    change (inject_Z 1) with 1%Q. ring.
Qed.

Lemma uniform_entry (K : nat) :
  0 < K -> lit (1 / inject_Z (Z.of_nat K)) = (nunit / of_nat K)%num.
Proof.
  intros HK. unfold lit, nunit, of_nat, ndiv.
  replace (inject_Z (Z.of_nat K) ?= 0)%Q with Gt; [reflexivity|].
  symmetry. apply Qgt_alt. change 0%Q with (inject_Z 0). rewrite <- Zlt_Qlt. lia.
Qed.

(** X28. [initializeParameters] starts training from uniform
    parameters: on observations that are not empty it sets as many
    symbols [K] as the largest label plus one, so that every observed
    label is a column of the emission matrix; each of the four initial
    probabilities and of the sixteen transition probabilities is 1/4,
    so that they sum to 1 and every row of the transition matrix does;
    every row of the emission matrix holds [K] entries [1/K], which for
    the at most eight symbols of the clustering sum to 1 within 1e-6.
    It touches neither [isTrained] nor the training history nor the
    cluster centres.  With no observation it throws. *)
Theorem initializeParameters_stochastic (o : nat) (rest : list nat) (this : HMMAnalyzer) :
  let observations := o :: rest in
  (exists this' pi A B K,
     initializeParameters observations this = (Ok tt, this')
     /\ parameters this' = Ok (pi, A, B)
     /\ numSymbols this' = Some K
     /\ K = fold_left Nat.max observations 0 + 1
     /\ Forall (fun symbol => symbol < K) observations
     /\ pi = repeat (nunit / of_nat numStates)%num numStates
     /\ A = repeat (repeat (nunit / of_nat numStates)%num numStates) numStates
     /\ B = repeat (repeat (nunit / of_nat K)%num K) numStates
     /\ nsum pi = Fin 1
     /\ (forall i, i < numStates -> row_sum A i = Fin 1)
     /\ (K <= 8 ->
         forall i, i < numStates ->
           exists s, row_sum B i = Fin s /\ (1 - 0.000001 <= s <= 1 + 0.000001)%Q)
     /\ bookkeeping this' = bookkeeping this)
  /\ fst (initializeParameters [] this) = Throw TypeError.
Proof.
  cbv zeta. split; [|reflexivity].
  destruct (initializeParameters_symmetric o rest this) as (this' & E & S & Adm).
  cbv zeta in S, Adm.
  set (K := fold_left Nat.max (o :: rest) 0 + 1) in *.
  assert (HK : 0 < K) by (unfold K; lia).
  destruct S as (Epi & EA & EB & EK).
  exists this', (uniform_row (1 # 4)), (uniform_matrix (1 # 4)),
    (emission_rows (repeat (1 / inject_Z (Z.of_nat K))%Q K)), K.
  split; [exact E|].
  split; [unfold parameters; now rewrite Epi, EA, EB|].
  split; [rewrite EK; now rewrite repeat_length|].
  split; [reflexivity|].
  split.
  { destruct Adm as [_ F]. eapply Forall_impl; [|exact F].
    intros s [Hs _]. now rewrite repeat_length in Hs. }
  split; [reflexivity|]. split; [reflexivity|].
  split.
  { unfold emission_rows. rewrite map_repeat. now rewrite (uniform_entry HK). }
  split; [reflexivity|].
  split; [|split].
  - intros i Li.
    unfold row_sum, uniform_matrix. rewrite nth_repeat_below by exact Li. reflexivity.
  - intros _ i Li. exists 1%Q. split; [|lra].
    unfold row_sum, emission_rows. rewrite nth_repeat_below by exact Li.
    rewrite nsum_map_lit. change (Fin 1) with (lit 1). apply lit_eq.
    rewrite fold_Qplus_repeat. field.
    assert (P : (0 < inject_Z (Z.of_nat K))%Q) by (apply positive_count; exact HK).
    lra.
  - unfold initializeParameters, bind, write in E. cbn in E.
    inversion E. reflexivity.
Qed.

End InitialParameters.

(** ** Cleaning the candles *)

Section Cleaning.

Import PriceCollector.

(** Candles in the order of their timestamps. *)
Let ascending : list Candle -> Prop :=
  Sorted (fun a b => (timestamp a <= timestamp b)%Z).

Lemma insert_by_timestamp_permutation (c : Candle) (sorted : list Candle) :
  Permutation (c :: sorted) (insert_by_timestamp c sorted).
Proof.
  induction sorted as [|d rest IH]; cbn [insert_by_timestamp]; [reflexivity|].
  destruct (timestamp c <=? timestamp d)%Z; [reflexivity|].
  rewrite perm_swap. now apply perm_skip.
Qed.

Lemma sort_by_timestamp_permutation (data : list Candle) :
  Permutation data (sort_by_timestamp data).
Proof.
  induction data as [|c rest IH]; cbn [sort_by_timestamp fold_right]; [constructor|].
  rewrite <- insert_by_timestamp_permutation. now apply perm_skip.
Qed.

Lemma insert_by_timestamp_sorted (c : Candle) (sorted : list Candle) :
  ascending sorted -> ascending (insert_by_timestamp c sorted).
Proof.
  unfold ascending. induction 1 as [|d rest S IH Hd]; cbn [insert_by_timestamp].
  - repeat constructor.
  - destruct (timestamp c <=? timestamp d)%Z eqn:L.
    + apply Z.leb_le in L. repeat constructor; assumption.
    + apply Z.leb_gt in L. constructor; [exact IH|].
      destruct rest as [|e rest']; cbn [insert_by_timestamp].
      * constructor. lia.
      * destruct (timestamp c <=? timestamp e)%Z; constructor;
          [lia|inversion Hd; assumption].
Qed.

Lemma sort_by_timestamp_sorted (data : list Candle) : ascending (sort_by_timestamp data).
Proof.
  induction data as [|c rest IH]; cbn [sort_by_timestamp fold_right].
  - constructor.
  - now apply insert_by_timestamp_sorted.
Qed.

Lemma sort_by_timestamp_fixed (data : list Candle) :
  ascending data -> sort_by_timestamp data = data.
Proof.
  unfold ascending. induction 1 as [|c rest S IH Hc]; [reflexivity|].
  cbn [sort_by_timestamp fold_right]. fold (sort_by_timestamp rest). rewrite IH.
  destruct Hc as [|d rest' L]; cbn [insert_by_timestamp]; [reflexivity|].
  replace (timestamp c <=? timestamp d)%Z with true
    by (symmetry; now apply Z.leb_le).
  reflexivity.
Qed.

Lemma filter_all {A : Type} (f : A -> bool) (xs : list A) :
  Forall (fun x => f x = true) xs -> filter f xs = xs.
Proof.
  induction 1 as [|x rest Hx _ IH]; cbn [filter]; [reflexivity|].
  now rewrite Hx, IH.
Qed.

(** X29. [validateAndCleanData] keeps exactly the valid candles and
    orders them: its result is a permutation of the candles of the
    input that pass the test, every candle of it passes the test (its
    four prices are positive numbers with low <= open, close <= high,
    its volume is a number that is not negative, its timestamp is
    positive, so that no NaN is left), it is in the order of the
    timestamps, and cleaning it again changes nothing. *)
Theorem validateAndCleanData_clean (data : list Candle) :
  let cleaned := validateAndCleanData data in
  Permutation (filter valid_candle data) cleaned
  /\ Forall (fun c => valid_candle c = true) cleaned
  /\ Forall (fun c =>
               is_nan (open c) = false /\ is_nan (high c) = false
               /\ is_nan (low c) = false /\ is_nan (close c) = false
               /\ is_nan (volume c) = false
               /\ (low c <=? high c)%num = true
               /\ (timestamp c > 0)%Z) cleaned
  /\ Sorted (fun a b => (timestamp a <= timestamp b)%Z) cleaned
  /\ validateAndCleanData cleaned = cleaned
  /\ (Forall (fun c => valid_candle c = true) data ->
      Sorted (fun a b => (timestamp a <= timestamp b)%Z) data ->
      cleaned = data).
Proof.
  cbv zeta. unfold validateAndCleanData.
  pose proof (sort_by_timestamp_permutation (filter valid_candle data)) as P.
  assert (V : Forall (fun c => valid_candle c = true)
                (sort_by_timestamp (filter valid_candle data))).
  { apply Forall_forall. intros c Hc.
    apply (Permutation_in _ (Permutation_sym P)) in Hc.
    apply filter_In in Hc. tauto. }
  split; [exact P|]. split; [exact V|]. split; [|split; [|split]].
  - eapply Forall_impl; [|exact V]. intros c Hc. cbv beta in Hc.
    unfold valid_candle in Hc.
    repeat (apply andb_prop in Hc; destruct Hc as [Hc ?]).
    repeat split;
      try (destruct (open c), (high c), (low c), (close c), (volume c);
           try reflexivity; discriminate).
    + assumption.
    + apply Z.ltb_lt in H. lia.
  - apply sort_by_timestamp_sorted.
  - rewrite (filter_all _ V). apply sort_by_timestamp_fixed, sort_by_timestamp_sorted.
  - intros Hv Hs. rewrite (filter_all _ Hv). now apply sort_by_timestamp_fixed.
Qed.

End Cleaning.

(** ** The prediction of a trained model *)

Section TrainedPrediction.

Local Open Scope nat_scope.
Context `{R : Runtime}.



End TrainedPrediction.

